(** * Chart persistence: [SaveDir], [Save], [writeTarContents],
      [writeToTar] and [validateName]

    A shallow embedding of the chart writer of package [util]
    (internal/chart/v3/util/save.go) and of the parts of Go's
    [path/filepath], [archive/tar] and [os] packages it calls.

    Layout of the development:
    - [filepath]  : the unix build of [path/filepath] ([Base], [Clean],
                    [Join], [Dir], [ToSlash], [IsAbs]);
    - [json]      : the syntax check of [encoding/json.Valid];
    - the data model ([Chart], [File], [Metadata]), errors, the world
      (file system, fault oracle, clock, trace of file-system mutations);
    - the functions of save.go, in a state-and-error monad;
    - the layout of an archive as the specification words it, the
      predicates the theorems are stated with, and sample charts;
    - the theorems: the libraries first (monad, tar writer, file
      system), then one section per component of the specification;
    - further properties of the code: when the archive builder succeeds
      and how it fails, the theory of [Clean] and [Join], what [Save]
      and [SaveDir] do at their destination and what they leave alone,
      where the entries of an archive lie, the files [SaveDir] writes,
      and the modification times of the entries. *)

From Stdlib Require Import ZArith Lia List Ascii String Bool DecimalString.
From stdpp Require Import base option list gmap strings.

Open Scope string_scope.

(* ===================================================================== *)
(** ** path/filepath, unix build                                          *)
(* ===================================================================== *)

Module filepath.

(** [os.PathSeparator] on unix. *)
Definition Separator : ascii := "/"%char.

Definition IsPathSeparator (c : ascii) : bool := Ascii.eqb c Separator.

(** Does the string hold a path separator? *)
Fixpoint hasSeparator (s : string) : bool :=
  match s with
  | EmptyString => false
  | String c s' => IsPathSeparator c || hasSeparator s'
  end.

(** [for len(path) > 0 && os.IsPathSeparator(path[len(path)-1])
       { path = path[0 : len(path)-1] }] *)
Fixpoint stripTrailingSeparators (s : string) : string :=
  match s with
  | EmptyString => EmptyString
  | String c s' =>
      match stripTrailingSeparators s' with
      | EmptyString => if IsPathSeparator c then EmptyString
                       else String c EmptyString
      | r => String c r
      end
  end.

(** [i := len(path)-1; for i >= 0 && !os.IsPathSeparator(path[i]) { i-- };
     if i >= 0 { path = path[i+1:] }] : the text after the last
    separator, the whole string when there is none. *)
Fixpoint lastElement (s : string) : string :=
  match s with
  | EmptyString => EmptyString
  | String c s' =>
      if hasSeparator s' then lastElement s'
      else if IsPathSeparator c then s' else s
  end.

(** [filepath.Base]. The volume name is empty on unix. *)
Definition Base (path : string) : string :=
  match path with
  | EmptyString => "."
  | _ =>
      match lastElement (stripTrailingSeparators path) with
      | EmptyString => String Separator EmptyString
      | e => e
      end
  end.

(** The elements between separators, empty ones included. *)
Fixpoint elements (s : string) : list string :=
  match s with
  | EmptyString => [EmptyString]
  | String c s' =>
      if IsPathSeparator c then EmptyString :: elements s'
      else match elements s' with
           | e :: es => String c e :: es
           | [] => [String c EmptyString]
           end
  end.

(** One step of the main loop of [Clean]; [out] is the output buffer as
    a stack of elements, last written first. *)
Definition cleanStep (rooted : bool) (out : list string) (e : string)
  : list string :=
  if String.eqb e "" then out            (* empty path element *)
  else if String.eqb e "." then out      (* . element *)
  else if String.eqb e ".." then
    match out with
    | top :: rest =>
        if String.eqb top ".." then e :: out   (* cannot backtrack *)
        else rest                              (* can backtrack *)
    | [] => if rooted then [] else [e]
    end
  else e :: out.                         (* real path element *)

Fixpoint joinElements (es : list string) : string :=
  match es with
  | [] => EmptyString
  | [e] => e
  | e :: es' => e ++ String Separator (joinElements es')
  end.

Definition isRooted (path : string) : bool :=
  match path with
  | String c _ => IsPathSeparator c
  | EmptyString => false
  end.

(** [filepath.Clean]. *)
Definition Clean (path : string) : string :=
  match path with
  | EmptyString => "."
  | _ =>
      let rooted := isRooted path in
      let out := fold_left (cleanStep rooted) (elements path) [] in
      let body := joinElements (rev out) in
      if rooted then String Separator body
      else match body with
           | EmptyString => "."
           | _ => body
           end
  end.

(** [strings.Join(elem, "/")]. *)
Fixpoint stringsJoin (elem : list string) : string :=
  match elem with
  | [] => EmptyString
  | [e] => e
  | e :: es => e ++ String Separator (stringsJoin es)
  end.

(** [filepath.Join]: leading empty elements are skipped, the rest is
    joined with the separator and cleaned. *)
Fixpoint Join (elem : list string) : string :=
  match elem with
  | [] => EmptyString
  | e :: es =>
      if String.eqb e "" then Join es else Clean (stringsJoin elem)
  end.

(** The prefix of [s] up to and including its last separator. *)
Fixpoint uptoLastSeparator (s : string) : string :=
  match s with
  | EmptyString => EmptyString
  | String c s' =>
      if hasSeparator s' then String c (uptoLastSeparator s')
      else if IsPathSeparator c then String c EmptyString
      else EmptyString
  end.

(** [filepath.Dir]. *)
Definition Dir (path : string) : string := Clean (uptoLastSeparator path).

(** [strings.ReplaceAll(path, string(sep), "/")]. *)
Fixpoint replaceSeparator (sep : ascii) (path : string) : string :=
  match path with
  | EmptyString => EmptyString
  | String c s' =>
      String (if Ascii.eqb c sep then "/"%char else c)
             (replaceSeparator sep s')
  end.

(** [filepath.ToSlash] on a host whose separator is [sep]:
    [if Separator == '/' { return path }; return ReplaceAll(...)]. *)
Definition ToSlashOn (sep : ascii) (path : string) : string :=
  if Ascii.eqb sep "/"%char then path else replaceSeparator sep path.

Definition ToSlash (path : string) : string := ToSlashOn Separator path.

(** [filepath.IsAbs] on unix: [strings.HasPrefix(path, "/")]. *)
Definition IsAbs (path : string) : bool := isRooted path.

(** Occurrence of a byte in a string. *)
Fixpoint occurs (c : ascii) (s : string) : bool :=
  match s with
  | EmptyString => false
  | String d s' => Ascii.eqb d c || occurs c s'
  end.

End filepath.

(* ===================================================================== *)
(** ** encoding/json: the syntax check                                    *)
(* ===================================================================== *)

Module json.

(** The double quote. *)
Definition quote : ascii := "034"%char.

Definition isSpace (c : ascii) : bool :=
  Ascii.eqb c " " || Ascii.eqb c "009" || Ascii.eqb c "013"
  || Ascii.eqb c "010".

Definition isDigit (c : ascii) : bool :=
  (48 <=? nat_of_ascii c)%nat && (nat_of_ascii c <=? 57)%nat.

Definition isDigit19 (c : ascii) : bool :=
  (49 <=? nat_of_ascii c)%nat && (nat_of_ascii c <=? 57)%nat.

Definition isHex (c : ascii) : bool :=
  isDigit c
  || ((97 <=? nat_of_ascii c)%nat && (nat_of_ascii c <=? 102)%nat)
  || ((65 <=? nat_of_ascii c)%nat && (nat_of_ascii c <=? 70)%nat).

(** The characters that may follow a backslash, [u] apart. *)
Definition isEscape (c : ascii) : bool :=
  Ascii.eqb c "b" || Ascii.eqb c "f" || Ascii.eqb c "n"
  || Ascii.eqb c "r" || Ascii.eqb c "t" || Ascii.eqb c "\"
  || Ascii.eqb c "/" || Ascii.eqb c quote.

Fixpoint skipSpace (s : list ascii) : list ascii :=
  match s with
  | c :: r => if isSpace c then skipSpace r else s
  | [] => []
  end.

Fixpoint skipDigits (s : list ascii) : list ascii :=
  match s with
  | c :: r => if isDigit c then skipDigits r else s
  | [] => []
  end.

(** The scanner inside a string literal, after the opening quote; the
    result is the input after the closing quote. *)
Fixpoint inString (s : list ascii) : option (list ascii) :=
  match s with
  | [] => None
  | c :: r =>
      if Ascii.eqb c quote then Some r
      else if Ascii.eqb c "\" then
        match r with
        | e :: r1 =>
            if isEscape e then inString r1
            else if Ascii.eqb e "u" then
              match r1 with
              | h1 :: h2 :: h3 :: h4 :: r2 =>
                  if isHex h1 && isHex h2 && isHex h3 && isHex h4
                  then inString r2 else None
              | _ => None
              end
            else None
        | [] => None
        end
      else if (nat_of_ascii c <? 32)%nat then None
      else inString r
  end.

(** Exponent part of a number, if any. *)
Definition exponent (s : list ascii) : option (list ascii) :=
  match s with
  | c :: r =>
      if Ascii.eqb c "e" || Ascii.eqb c "E" then
        let r1 := match r with
                  | sg :: r' =>
                      if Ascii.eqb sg "+" || Ascii.eqb sg "-" then r'
                      else r
                  | [] => r
                  end in
        match r1 with
        | d :: r2 => if isDigit d then Some (skipDigits r2) else None
        | [] => None
        end
      else Some s
  | [] => Some s
  end.

(** Fraction part of a number, if any, then the exponent. *)
Definition fraction (s : list ascii) : option (list ascii) :=
  match s with
  | c :: r =>
      if Ascii.eqb c "." then
        match r with
        | d :: r1 => if isDigit d then exponent (skipDigits r1) else None
        | [] => None
        end
      else exponent s
  | [] => Some s
  end.

(** A number, after its optional minus sign. *)
Definition unsignedNumber (s : list ascii) : option (list ascii) :=
  match s with
  | c :: r =>
      if Ascii.eqb c "0" then fraction r
      else if isDigit19 c then fraction (skipDigits r)
      else None
  | [] => None
  end.

Fixpoint literal (word s : list ascii) : option (list ascii) :=
  match word, s with
  | [], _ => Some s
  | a :: word', c :: r => if Ascii.eqb a c then literal word' r else None
  | _ :: _, [] => None
  end.

(** [maxNestingDepth] of the scanner. *)
Definition maxNestingDepth : N := 10000.

(** One value starting at the head of [s]; the result is the input
    after it. [fuel] bounds the number of calls, [depth] is the number
    of objects and arrays open around the value. *)
Fixpoint value (fuel : nat) (depth : N) (s : list ascii)
  : option (list ascii) :=
  match fuel with
  | O => None
  | S fuel' =>
      match s with
      | [] => None
      | c :: r =>
          if Ascii.eqb c "{" then
            if (maxNestingDepth <? depth + 1)%N then None
            else match skipSpace r with
                 | c1 :: r1 =>
                     if Ascii.eqb c1 "}" then Some r1
                     else members fuel' (depth + 1)%N (c1 :: r1)
                 | [] => None
                 end
          else if Ascii.eqb c "[" then
            if (maxNestingDepth <? depth + 1)%N then None
            else match skipSpace r with
                 | c1 :: r1 =>
                     if Ascii.eqb c1 "]" then Some r1
                     else elements fuel' (depth + 1)%N (c1 :: r1)
                 | [] => None
                 end
          else if Ascii.eqb c quote then inString r
          else if Ascii.eqb c "-" then unsignedNumber r
          else if isDigit c then unsignedNumber s
          else if Ascii.eqb c "t" then literal (list_ascii_of_string "true") s
          else if Ascii.eqb c "f" then literal (list_ascii_of_string "false") s
          else if Ascii.eqb c "n" then literal (list_ascii_of_string "null") s
          else None
      end
  end
(** The members of an object, from the first key to the closing brace. *)
with members (fuel : nat) (depth : N) (s : list ascii)
  : option (list ascii) :=
  match fuel with
  | O => None
  | S fuel' =>
      match s with
      | c :: r =>
          if Ascii.eqb c quote then
            match inString r with
            | Some r1 =>
                match skipSpace r1 with
                | c2 :: r2 =>
                    if Ascii.eqb c2 ":" then
                      match value fuel' depth (skipSpace r2) with
                      | Some r3 =>
                          match skipSpace r3 with
                          | c4 :: r4 =>
                              if Ascii.eqb c4 "," then
                                members fuel' depth (skipSpace r4)
                              else if Ascii.eqb c4 "}" then Some r4
                              else None
                          | [] => None
                          end
                      | None => None
                      end
                    else None
                | [] => None
                end
            | None => None
            end
          else None
      | [] => None
      end
  end
(** The elements of an array, from the first one to the closing
    bracket. *)
with elements (fuel : nat) (depth : N) (s : list ascii)
  : option (list ascii) :=
  match fuel with
  | O => None
  | S fuel' =>
      match value fuel' depth s with
      | Some r1 =>
          match skipSpace r1 with
          | c2 :: r2 =>
              if Ascii.eqb c2 "," then elements fuel' depth (skipSpace r2)
              else if Ascii.eqb c2 "]" then Some r2
              else None
          | [] => None
          end
      | None => None
      end
  end.

(** [json.Valid]: optional space, one value, optional space, end of
    input. Every call of the descent consumes a byte before the next
    one, so twice the length of the input is fuel enough. *)
Definition Valid (data : list Byte.byte) : bool :=
  let s := map ascii_of_byte data in
  match value (2 * length s + 2) 0%N (skipSpace s) with
  | Some r => match skipSpace r with [] => true | _ => false end
  | None => false
  end.

End json.

(* ===================================================================== *)
(** ** Errors                                                             *)
(* ===================================================================== *)

(** The error values the code builds or receives.
    - [ErrInvalidChartName]: the struct literal of [validateName];
    - [ErrorString]: [errors.New] and [fmt.Errorf] without [%w];
    - [Wrapped]: [fmt.Errorf] with [%w], keeping the cause;
    - [ErrNotExist]: the [*fs.PathError] of a system call on a path
      where nothing is, which [errors.Is] takes for [fs.ErrNotExist];
    - [SysErr]: the [*fs.PathError] of any other failure of a system
      call or of a write to a file, with the code of its cause, which
      is not [ENOENT];
    - [Errno]: the [syscall.Errno] such an error wraps;
    - [ErrWriteTooLong]: [tar.ErrWriteTooLong];
    - [MarshalErr]: a failure of [yaml.Marshal];
    - [ValidationErr]: what [Chart.Validate] returns. *)
Inductive error : Type :=
| ErrInvalidChartName (name : string)
| ErrorString (msg : string)
| Wrapped (msg : string) (cause : error)
| ErrNotExist
| ErrWriteTooLong
| SysErr (code : nat)
| Errno (code : nat)
| MarshalErr (msg : string)
| ValidationErr (msg : string).

(** [errors.Is(err, fs.ErrNotExist)]: follows the [%w] chain. *)
Fixpoint isNotExist (e : error) : bool :=
  match e with
  | ErrNotExist => true
  | Wrapped _ c => isNotExist c
  | _ => false
  end.

(* ===================================================================== *)
(** ** Data model                                                         *)
(* ===================================================================== *)

(** Go's [[]byte]. *)
Abbreviation bytes := (list Byte.byte).

(** Modelled from the spec: the chart object model (package
    internal/chart/v3) is not part of the sources at hand. Section 3 of
    the specification lists what a chart holds: name, version and the
    metadata document they live in, an optional schema (raw bytes), an
    optional lock document, ordered raw, template and static files (name
    and bytes), and the ordered list of dependency charts as full
    sub-trees. *)
Module Metadata.
Record t : Type := mk
  { Name : string;
    Version : string;
    Description : string }.
End Metadata.

Module Lock.
Record t : Type := mk
  { Generated : string;
    Digest : string }.
End Lock.

Module File.
Record t : Type := mk
  { Name : string;
    Data : bytes }.
End File.

#[warnings="-register-all"] Inductive Chart : Type := mkChart
  { Raw : list File.t;
    Metadata : Metadata.t;
    Lock : option Lock.t;
    Templates : list File.t;
    Schema : option bytes;
    Files : list File.t;
    dependencies : list Chart }.

(** [Chart.Name] and [Chart.Dependencies]. *)
Definition Name (c : Chart) : string := Metadata.Name (Metadata c).
Definition Dependencies (c : Chart) : list Chart := dependencies c.

(** A real path element: not empty, not [.], not [..], no separator in
    it. *)
Definition realElement (e : string) : bool :=
  negb (String.eqb e "") && negb (String.eqb e ".")
  && negb (String.eqb e "..") && negb (filepath.hasSeparator e).

(** What the package takes from its surroundings: the file-name
    constants of package [util] ([ChartfileName], [ValuesfileName],
    [SchemafileName], [ChartsDir]), [yaml.Marshal] at the two types it is
    used at, and the chart methods [Validate] and [ChartFullPath]. A
    failure of [yaml.Marshal] or of [Validate] is given by its message.
    The four file names are constants of the package, each one path
    element ([Chart.yaml], [values.yaml], [values.schema.json],
    [charts]): [fileNames] keeps that much of them. *)
Record Env : Type := mkEnv
  { ChartfileName : string;
    ValuesfileName : string;
    SchemafileName : string;
    ChartsDir : string;
    yamlMarshalMetadata : Metadata.t -> string + bytes;
    yamlMarshalLock : Lock.t -> string + bytes;
    Validate : Chart -> option string;
    ChartFullPath : Chart -> string;
    fileNames :
      realElement ChartfileName && realElement ValuesfileName
      && realElement SchemafileName && realElement ChartsDir = true }.

(* ===================================================================== *)
(** ** archive/tar and compress/gzip                                      *)
(* ===================================================================== *)

Module tar.

(** The fields of [tar.Header] the code sets. *)
Record Header : Type := mkHeader
  { Name : string;
    Mode : Z;
    Size : Z;
    ModTime : Z }.

(** One entry of the stream: its header and the payload written so
    far. *)
Record Entry : Type := mkEntry
  { header : Header;
    payload : bytes }.

(** A [tar.Writer]: the entries written, the newest first. The newest
    one is the entry being written. *)
Record Writer : Type := mkWriter
  { stream : list Entry }.

Definition NewWriter : Writer := mkWriter [].

(** [strings.HasSuffix(name, "/")]. *)
Fixpoint hasSuffixSlash (name : string) : bool :=
  match name with
  | EmptyString => false
  | String c EmptyString => Ascii.eqb c "/"
  | String _ rest => hasSuffixSlash rest
  end.

(** The code leaves [Typeflag] at its zero value; [WriteHeader] then
    takes the entry for a directory when its name ends in a slash, and
    for a regular file otherwise. *)
Definition isDirectory (h : Header) : bool := hasSuffixSlash (Name h).

(** The bytes an entry takes after its header: as many as its size,
    and none when it is a directory, a header-only entry. *)
Definition capacity (h : Header) : Z :=
  if isDirectory h then 0 else Size h.

(** Bytes still owed to an entry. *)
Definition remaining (e : Entry) : Z :=
  capacity (header e) - Z.of_nat (length (payload e)).

End tar.

Module gzip.
(** The header fields of a [gzip.Writer] the code sets. *)
Record Writer : Type := mkWriter
  { Extra : bytes;
    Comment : string }.
End gzip.

(* ===================================================================== *)
(** ** The world: file system, fault oracle, clock, trace                 *)
(* ===================================================================== *)

(** What a regular file holds: plain bytes, or a gzip stream, kept as
    its header fields and the tar entries inside, oldest first. *)
Inductive Content : Type :=
| Plain (data : bytes)
| Tgz (gz : gzip.Writer) (entries : list tar.Entry).

Inductive Node : Type :=
| Directory
| Regular (content : Content).

Definition isDir (n : Node) : bool :=
  match n with Directory => true | Regular _ => false end.

(** The mutations of the file system, as they happen. *)
Inductive Event : Type :=
| EvMkdir (path : string)
| EvCreate (path : string)
| EvWriteFile (path : string) (data : bytes)
| EvFlush (path : string)
| EvRemove (path : string).

(** - [fs]: the nodes, by cleaned path;
    - [faults]: the oracle of the failures that do not depend on [fs]
      (permissions, full disk, ...): each system call and each write to
      the archive takes the next item, and fails with it when it is
      [Some code];
    - [clock]: the readings [time.Now] will return;
    - [trace]: the mutations done so far, oldest first. *)
Record World : Type := mkWorld
  { fs : gmap string Node;
    faults : list (option nat);
    clock : list Z;
    trace : list Event }.

(* ===================================================================== *)
(** ** State and errors                                                   *)
(* ===================================================================== *)

(** A computation over a state [S] that returns an [A] or an [error]. *)
Definition M (S A : Type) : Type := S -> (error + A) * S.

Definition ret {S A} (a : A) : M S A := fun s => (inr a, s).
Definition fail {S A} (e : error) : M S A := fun s => (inl e, s).
Definition bind {S A B} (m : M S A) (k : A -> M S B) : M S B :=
  fun s => match m s with
           | (inr a, s') => k a s'
           | (inl e, s') => (inl e, s')
           end.
Definition gets {S A} (f : S -> A) : M S A := fun s => (inr (f s), s).
Definition modify {S} (f : S -> S) : M S unit := fun s => (inr tt, f s).

Declare Scope go_scope.
Delimit Scope go_scope with go.
Notation "x <- m ;; k" := (bind m (fun x => k))
  (at level 100, m at next level, right associativity) : go_scope.
Notation "m ;; k" := (bind m (fun _ => k))
  (at level 100, right associativity) : go_scope.
Open Scope go_scope.

(** [for _, x := range l { body }], left by the first error. *)
Definition forM_ {S A} (l : list A) (body : A -> M S unit) : M S unit :=
  (fix loop (l : list A) : M S unit :=
     match l with
     | [] => ret tt
     | x :: l' => body x ;; loop l'
     end) l.

(** [if err != nil { return err }]. *)
Definition check {S} (err : option error) : M S unit :=
  match err with Some e => fail e | None => ret tt end.

(** [out, err := yaml.Marshal(v); if err != nil { return err }]. *)
Definition marshalled {S} (r : string + bytes) : M S bytes :=
  match r with inl msg => fail (MarshalErr msg) | inr out => ret out end.

(* ===================================================================== *)
(** ** Package os and time                                                *)
(* ===================================================================== *)

Definition ENOENT : nat := 2.
Definition ENOTDIR : nat := 20.
Definition EISDIR : nat := 21.
Definition EEXIST : nat := 17.

Definition setFs (f : gmap string Node -> gmap string Node) (w : World)
  : World :=
  mkWorld (f (fs w)) (faults w) (clock w) (trace w).

Definition record (e : Event) (w : World) : World :=
  mkWorld (fs w) (faults w) (clock w) (trace w ++ [e]).

(** The next item of the oracle. *)
Definition fault : M World unit := fun w =>
  match faults w with
  | Some code :: rest =>
      (inl (SysErr code), mkWorld (fs w) rest (clock w) (trace w))
  | None :: rest => (inr tt, mkWorld (fs w) rest (clock w) (trace w))
  | [] => (inr tt, w)
  end.

(** [time.Now]. *)
Definition time_Now : M World Z := fun w =>
  match clock w with
  | t :: rest => (inr t, mkWorld (fs w) (faults w) rest (trace w))
  | [] => (inr 0%Z, w)
  end.

(** What is at a path: nothing, a directory ([Some true]) or a regular
    file ([Some false]). The system calls below look at nothing else. *)
Definition kindAt (w : World) (path : string) : option bool :=
  isDir <$> fs w !! path.

(** The parents [os.MkdirAll] recurses through: the prefixes of the path
    that end a run of separators followed by an element, shortest
    first. *)
Fixpoint parentPrefixes (path : string) : list string :=
  match path with
  | EmptyString => []
  | String c s' =>
      let rest := map (String c) (parentPrefixes s') in
      match s' with
      | String d _ =>
          if filepath.IsPathSeparator c && negb (filepath.IsPathSeparator d)
          then String c EmptyString :: rest else rest
      | EmptyString => rest
      end
  end.

(** A regular file is on the way to a path: at one of its parents. *)
Definition belowFile (w : World) (path : string) : bool :=
  existsb (fun parent =>
             match kindAt w (filepath.Clean parent) with
             | Some false => true
             | _ => false
             end)
          (parentPrefixes path).

(** What a system call answers for a path where nothing is: [ENOTDIR]
    when a regular file is on the way to it, [ENOENT] when not. *)
Definition missing (w : World) (path : string) : error :=
  if belowFile w path then SysErr ENOTDIR else ErrNotExist.

Definition absent {A} (path : string) : M World A :=
  fun w => (inl (missing w path), w).

(** [os.Stat]; of the [FileInfo] only [IsDir] is used. The node of the
    path is looked up first: on a disk where nothing is below a regular
    file, that is the node the walk from the root arrives at. *)
Definition os_Stat (path : string) : M World bool :=
  fault ;;
  if String.eqb path "" then fail ErrNotExist
  else
    k <- gets (fun w => kindAt w (filepath.Clean path)) ;;
    match k with
    | Some dir => ret dir
    | None => absent path
    end.

(** The directory a new node goes into has to be there. *)
Definition parentIsDir (key : string) : M World unit :=
  k <- gets (fun w => kindAt w (filepath.Dir key)) ;;
  match k with
  | Some true => ret tt
  | Some false => fail (SysErr ENOTDIR)
  | None => absent (filepath.Dir key)
  end.

(** [os.Mkdir]. *)
Definition os_Mkdir (path : string) : M World unit :=
  let key := filepath.Clean path in
  fault ;;
  parentIsDir key ;;
  k <- gets (fun w => kindAt w key) ;;
  match k with
  | Some _ => fail (SysErr EEXIST)
  | None =>
      modify (setFs (insert key Directory)) ;;
      modify (record (EvMkdir key))
  end.

(** [os.MkdirAll] along the path and its parents, nearest first: the
    fast path on [Stat]; else the parent, then [Mkdir], whose failure is
    forgiven when the directory is there after all. *)
Fixpoint mkdirAllChain (chain : list string) : M World unit :=
  match chain with
  | [] => ret tt
  | path :: parents =>
      fun w =>
        match os_Stat path w with
        | (inr true, w1) => (inr tt, w1)
        | (inr false, w1) => (inl (SysErr ENOTDIR), w1)
        | (inl _, w1) =>
            match mkdirAllChain parents w1 with
            | (inl err, w2) => (inl err, w2)
            | (inr _, w2) =>
                match os_Mkdir path w2 with
                | (inl err, w3) =>
                    match os_Stat path w3 with
                    | (inr true, w4) => (inr tt, w4)
                    | (_, w4) => (inl err, w4)
                    end
                | (inr _, w3) => (inr tt, w3)
                end
            end
        end
  end.

Definition os_MkdirAll (path : string) : M World unit :=
  mkdirAllChain (path :: rev (parentPrefixes path)).

(** [os.Create]: the file is there and empty afterwards; the handle is
    its path. *)
Definition os_Create (path : string) : M World string :=
  let key := filepath.Clean path in
  fault ;;
  parentIsDir key ;;
  k <- gets (fun w => kindAt w key) ;;
  match k with
  | Some true => fail (SysErr EISDIR)
  | _ =>
      modify (setFs (insert key (Regular (Plain [])))) ;;
      modify (record (EvCreate key)) ;;
      ret key
  end.

(** [os.WriteFile]. *)
Definition os_WriteFile (path : string) (data : bytes) : M World unit :=
  let key := filepath.Clean path in
  fault ;;
  parentIsDir key ;;
  k <- gets (fun w => kindAt w key) ;;
  match k with
  | Some true => fail (SysErr EISDIR)
  | _ =>
      modify (setFs (insert key (Regular (Plain data)))) ;;
      modify (record (EvWriteFile key data))
  end.

(** [os.Remove] of a regular file. Its result is not looked at by the
    caller; other nodes are left alone. *)
Definition os_Remove (path : string) (w : World) : World :=
  let key := filepath.Clean path in
  match kindAt w key with
  | Some false => record (EvRemove key) (setFs (delete key) w)
  | _ => w
  end.

(** [twriter.Close(); zipper.Close(); f.Close()]: what went through the
    two writers is in the file [f] afterwards. The results of the three
    calls are not looked at by the caller. *)
Definition closeAll (tw : tar.Writer) (zipper : gzip.Writer) (f : string)
  (w : World) : World :=
  match kindAt w f with
  | Some false =>
      record (EvFlush f)
        (setFs (insert f (Regular (Tgz zipper (rev (tar.stream tw))))) w)
  | _ => w
  end.

(* ===================================================================== *)
(** ** The tar writer at work                                             *)
(* ===================================================================== *)

(** The state of the archive functions: the writer [out] points to, and
    the world. *)
Definition Out : Type := (tar.Writer * World)%type.

Definition inWorld {A} (m : M World A) : M Out A := fun '(tw, w) =>
  match m w with (r, w') => (r, (tw, w')) end.

(** [strconv] of an integer, for [%d]. *)
Definition decimal (n : Z) : string :=
  NilZero.string_of_int (Z.to_int n).

(** [fmt.Errorf("archive/tar: missed writing %d bytes", nb)]. *)
Definition missedWriting (nb : Z) : error :=
  ErrorString ("archive/tar: missed writing " ++ decimal nb ++ " bytes").

(** [WriteHeader] of [tar.Writer]: the entry before has to be complete;
    the new entry starts empty, a directory when the name of the header
    ends in a slash. The write of the header block is a write to the
    file below; a header that no format of the archive can encode
    fails in the same way, and has its item in the oracle. *)
Definition WriteHeader (h : tar.Header) : M Out unit :=
  tw <- gets fst ;;
  match tar.stream tw with
  | e :: _ =>
      if (0 <? tar.remaining e)%Z
      then fail (missedWriting (tar.remaining e))
      else ret tt
  | [] => ret tt
  end ;;
  inWorld fault ;;
  modify (fun '(tw, w) =>
            (tar.mkWriter (tar.mkEntry h [] :: tar.stream tw), w)).

(** [Write] of [tar.Writer]: no more than the entry takes, which is
    the size the header announced, or nothing for a directory. Of too
    many bytes those the entry still takes are written, and the call
    fails with [ErrWriteTooLong]; nothing is written for no bytes. *)
Definition Write (b : bytes) : M Out unit :=
  tw <- gets fst ;;
  match tar.stream tw with
  | e :: es =>
      let overwrite := (tar.remaining e <? Z.of_nat (length b))%Z in
      let b := if overwrite then take (Z.to_nat (tar.remaining e)) b
               else b in
      match b with
      | [] => ret tt
      | _ =>
          inWorld fault ;;
          modify (fun '(_, w) =>
                    (tar.mkWriter
                       (tar.mkEntry (tar.header e) (tar.payload e ++ b)
                          :: es),
                     w))
      end ;;
      if overwrite then fail ErrWriteTooLong else ret tt
  | [] =>
      match b with
      | [] => ret tt
      | _ => fail ErrWriteTooLong
      end
  end.

(* ===================================================================== *)
(** ** validateName                                                       *)
(* ===================================================================== *)

(** [validateName]: [nil] is [None]. *)
Definition validateName (name : string) : option error :=
  let nname := filepath.Base name in
  if negb (String.eqb nname name) then Some (ErrInvalidChartName name)
  else None.


(* ===================================================================== *)
(** ** save.go                                                            *)
(* ===================================================================== *)

(** [var headerBytes = []byte("+aHR0cHM6Ly95b3V0dS5iZS96OVV6MWljandyTQo=")] *)
Definition headerBytes : bytes :=
  list_byte_of_string "+aHR0cHM6Ly95b3V0dS5iZS96OVV6MWljandyTQo=".

(** [writeToTar] writes a single file to a tar archive. [sep] is the
    [filepath.Separator] of the host the package is built for. *)
Definition writeToTarOn (sep : ascii) (name : string) (body : bytes)
  : M Out unit :=
  now <- inWorld time_Now ;;
  let h := tar.mkHeader (filepath.ToSlashOn sep name)
                        420 (* 0644 *)
                        (Z.of_nat (length body))
                        now in
  WriteHeader h ;;
  Write body.

(** [writeToTar] of the unix build, the one the rest of the model is
    of. *)
Definition writeToTar : string -> bytes -> M Out unit :=
  writeToTarOn filepath.Separator.

Section Save.
Context (E : Env).

(** Modelled from the spec: [writeFile] is not part of the sources at
    hand. Sections 4.2 and 7: each file is written at its relative
    path below the chart directory, and a create, write or mkdir
    failure is a file-system failure of the call. *)
Definition writeFile (name : string) (content : bytes) : M World unit :=
  os_MkdirAll (filepath.Dir name) ;;
  os_WriteFile name content.

(** Modelled from the spec: [SaveChartfile] is not part of the sources
    at hand. Section 4.2, step 1: the metadata document, serialized, at
    the canonical metadata filename. *)
Definition SaveChartfile (filename : string) (cf : Metadata.t)
  : M World unit :=
  out <- marshalled (yamlMarshalMetadata E cf) ;;
  os_WriteFile filename out.

(** [writeTarContents]. *)
Fixpoint writeTarContents (c : Chart) (prefix : string) {struct c}
  : M Out unit :=
  match c with
  | mkChart raw metadata lock templates schema files deps =>
      check (validateName (Metadata.Name metadata)) ;;
      let base := filepath.Join [prefix; Metadata.Name metadata] in
      (* Save Chart.yaml *)
      cdata <- marshalled (yamlMarshalMetadata E metadata) ;;
      writeToTar (filepath.Join [base; ChartfileName E]) cdata ;;
      (* Save Chart.lock *)
      match lock with
      | Some l =>
          ldata <- marshalled (yamlMarshalLock E l) ;;
          writeToTar (filepath.Join [base; "Chart.lock"]) ldata
      | None => ret tt
      end ;;
      (* Save values.yaml *)
      forM_ raw (fun f =>
        if String.eqb (File.Name f) (ValuesfileName E)
        then writeToTar (filepath.Join [base; ValuesfileName E])
                        (File.Data f)
        else ret tt) ;;
      (* Save values.schema.json if it exists *)
      match schema with
      | Some sch =>
          if negb (json.Valid sch)
          then fail (ErrorString ("invalid JSON in " ++ SchemafileName E))
          else writeToTar (filepath.Join [base; SchemafileName E]) sch
      | None => ret tt
      end ;;
      (* Save templates *)
      forM_ templates (fun f =>
        writeToTar (filepath.Join [base; File.Name f]) (File.Data f)) ;;
      (* Save files *)
      forM_ files (fun f =>
        writeToTar (filepath.Join [base; File.Name f]) (File.Data f)) ;;
      (* Save dependencies *)
      forM_ deps (fun dep =>
        writeTarContents dep (filepath.Join [base; ChartsDir E]))
  end.

(** The directory of the archive: there, or made. *)
Definition ensureDir (dir : string) : M World unit := fun w =>
  match os_Stat dir w with
  | (inl err, w1) =>
      if isNotExist err then os_MkdirAll dir w1
      else (inl (Wrapped ("stat " ++ dir ++ ": ") err), w1)
  | (inr false, w1) => (inl (ErrorString ("is not a directory: " ++ dir)), w1)
  | (inr true, w1) => (inr tt, w1)
  end.

(** The deferred function of [Save]. *)
Definition deferred (rollback : bool) (twriter : tar.Writer)
  (zipper : gzip.Writer) (f filename : string) (w : World) : World :=
  let w1 := closeAll twriter zipper f w in
  if rollback then os_Remove filename w1 else w1.

(** [Save] creates an archived chart to the given directory. The
    result is the pair Go returns: the path and the error. *)
Definition Save (c : Chart) (outDir : string)
  : World -> (string * option error) * World := fun w =>
  match Validate E c with
  | Some msg =>
      (("", Some (Wrapped "chart validation: " (ValidationErr msg))), w)
  | None =>
      let filename :=
        Name c ++ "-" ++ Metadata.Version (Metadata c) ++ ".tgz" in
      let filename := filepath.Join [outDir; filename] in
      let dir := filepath.Dir filename in
      match ensureDir dir w with
      | (inl err, w1) => (("", Some err), w1)
      | (inr _, w1) =>
          match os_Create filename w1 with
          | (inl err, w2) => (("", Some err), w2)
          | (inr f, w2) =>
              (* Wrap in gzip writer *)
              let zipper := gzip.mkWriter headerBytes "Helm" in
              (* Wrap in tar writer *)
              let twriter := tar.NewWriter in
              match writeTarContents c "" (twriter, w2) with
              | (inl err, (twriter', w3)) =>
                  ((filename, Some err),
                   deferred true twriter' zipper f filename w3)
              | (inr _, (twriter', w3)) =>
                  ((filename, None),
                   deferred false twriter' zipper f filename w3)
              end
          end
      end
  end.

(** The body of the loop over the dependencies in [SaveDir]: here, we
    write each dependency as a tar file. *)
Definition saveDependency (base : string) (dep : Chart) : M World unit :=
  fun w =>
    match Save dep base w with
    | ((_, Some err), w1) =>
        (inl (Wrapped ("saving " ++ ChartFullPath E dep ++ ": ") err), w1)
    | ((_, None), w1) => (inr tt, w1)
    end.

(** [SaveDir] saves a chart as files in a directory. *)
Definition SaveDir (c : Chart) (dest : string) : M World unit :=
  (* Create the chart directory *)
  check (validateName (Name c)) ;;
  let outdir := filepath.Join [dest; Name c] in
  (fun w =>
     match os_Stat outdir w with
     | (inr false, w1) =>
         (inl (ErrorString ("file " ++ outdir ++
                            " already exists and is not a directory")), w1)
     | (_, w1) => (inr tt, w1)
     end) ;;
  os_MkdirAll outdir ;;
  (* Save the chart file. *)
  SaveChartfile (filepath.Join [outdir; ChartfileName E]) (Metadata c) ;;
  (* Save values.yaml *)
  forM_ (Raw c) (fun f =>
    if String.eqb (File.Name f) (ValuesfileName E)
    then writeFile (filepath.Join [outdir; ValuesfileName E]) (File.Data f)
    else ret tt) ;;
  (* Save values.schema.json if it exists *)
  match Schema c with
  | Some sch => writeFile (filepath.Join [outdir; SchemafileName E]) sch
  | None => ret tt
  end ;;
  (* Save templates and files *)
  forM_ [Templates c; Files c] (fun o =>
    forM_ o (fun f =>
      writeFile (filepath.Join [outdir; File.Name f]) (File.Data f))) ;;
  (* Save dependencies *)
  let base := filepath.Join [outdir; ChartsDir E] in
  forM_ (Dependencies c) (saveDependency base).

End Save.

(* ===================================================================== *)
(** ** The layout of an archive, as the specification words it            *)
(* ===================================================================== *)

(** A serialized document; no bytes when the serializer failed. *)
Definition document (r : string + bytes) : bytes :=
  match r with inr out => out | inl _ => [] end.

(** Section 4.4 of the specification: with [base = prefix/name], the
    entries of a chart are, in this order, (1) the metadata document,
    (2) the lock document if present, (3) the values file if present
    among the raw files, (4) the schema if present, (5) the templates and
    (6) the static files in collection order, (7) the entries of every
    dependency, in list order, under [base/charts]. An entry is given by
    its path and its payload. *)
Fixpoint layout (E : Env) (c : Chart) (prefix : string) {struct c}
  : list (string * bytes) :=
  match c with
  | mkChart raw metadata lock templates schema files deps =>
      let base := filepath.Join [prefix; Metadata.Name metadata] in
      [(filepath.Join [base; ChartfileName E],
        document (yamlMarshalMetadata E metadata))]
      ++ match lock with
         | Some l => [(filepath.Join [base; "Chart.lock"],
                       document (yamlMarshalLock E l))]
         | None => []
         end
      ++ flat_map (fun f =>
           if String.eqb (File.Name f) (ValuesfileName E)
           then [(filepath.Join [base; ValuesfileName E], File.Data f)]
           else []) raw
      ++ match schema with
         | Some sch => [(filepath.Join [base; SchemafileName E], sch)]
         | None => []
         end
      ++ map (fun f => (filepath.Join [base; File.Name f], File.Data f))
             templates
      ++ map (fun f => (filepath.Join [base; File.Name f], File.Data f))
             files
      ++ flat_map (fun dep =>
           layout E dep (filepath.Join [base; ChartsDir E])) deps
  end.

(** The archive entry of a path and a payload, written at time [t]:
    permission 0644, the size of the payload. *)
Definition entryAt (t : Z) (item : string * bytes) : tar.Entry :=
  tar.mkEntry
    (tar.mkHeader (fst item) 420 (Z.of_nat (length (snd item))) t)
    (snd item).

(** An entry without its modification time: path, permission, size and
    payload. *)
Definition untimed (e : tar.Entry) : string * Z * Z * bytes :=
  (tar.Name (tar.header e), tar.Mode (tar.header e),
   tar.Size (tar.header e), tar.payload e).

(** An archive function appends the entries [items] when it succeeds. *)
Definition appends {A} (m : M Out A) (items : list (string * bytes))
  : Prop :=
  forall tw w a tw' w',
    m (tw, w) = (inr a, (tw', w')) ->
    exists ts, length ts = length items /\
               tar.stream tw' = (rev (zip_with entryAt ts items)
                                   ++ tar.stream tw)%list.

(** A computation can return [a]. *)
Definition returns {S A} (m : M S A) (a : A) : Prop :=
  exists s s', m s = (inr a, s').

(** A step relation holds between the state a computation starts in and
    the state it ends in, whatever it returns. *)
Definition always {S A} (R : S -> S -> Prop) (m : M S A) : Prop :=
  forall s, R s (snd (m s)).

(** The world of an archive function keeps its files and its trace. *)
Definition sameDisk (w w1 : World) : Prop :=
  fs w1 = fs w /\ trace w1 = trace w.

(** The writer takes a new header: the newest entry is complete. *)
Definition ready (tw : tar.Writer) : bool :=
  match tar.stream tw with
  | e :: _ => negb (0 <? tar.remaining e)%Z
  | [] => true
  end.

(** The regular file at a path, if there is one. *)
Definition fileAt (w : World) (path : string) : option Content :=
  match fs w !! path with
  | Some (Regular content) => Some content
  | _ => None
  end.

Definition isMkdir (ev : Event) : Prop :=
  match ev with EvMkdir _ => True | _ => False end.

(** From [w] to [w1] directories were made and nothing else: the regular
    files are the same, and so are the directories there were. *)
Definition madeDirs (w w1 : World) : Prop :=
  (forall q, fileAt w1 q = fileAt w q) /\
  (forall q, fs w !! q = Some Directory -> fs w1 !! q = Some Directory) /\
  exists evs, trace w1 = (trace w ++ evs)%list /\ Forall isMkdir evs.

(** An error of the operating system. *)
Definition isOsError (e : error) : Prop :=
  match e with
  | ErrNotExist | SysErr _ => True
  | _ => False
  end.

(** A computation fails with errors of a kind only. *)
Definition failsOnly {S A} (P : error -> Prop) (m : M S A) : Prop :=
  forall s e, fst (m s) = inl e -> P e.

#[global] Instance sameDisk_preorder : PreOrder sameDisk.
Proof.
  split; [by intros w|]. intros w w1 w2 [H1 H2] [H3 H4].
split; congruence.
Qed.

#[global] Instance madeDirs_preorder : PreOrder madeDirs.
Proof.
split.
- intros w. repeat split; [done|]. exists []. by rewrite app_nil_r.
- intros w w1 w2 (Hf1 & Hd1 & evs1 & Ht1 & He1) (Hf2 & Hd2 & evs2 & Ht2 & He2).
  repeat split.
  + intros q. by rewrite Hf2.
  + auto.
  + exists (evs1 ++ evs2)%list. split; [by rewrite Ht2, Ht1, app_assoc|].
    by apply Forall_app.
Qed.

(** [sameDisk] on the state of the archive functions. *)
Definition sameDiskOut (s s1 : Out) : Prop := sameDisk (snd s) (snd s1).

#[global] Instance sameDiskOut_preorder : PreOrder sameDiskOut.
Proof.
split; [by intros s|]. intros s s1 s2 H1 H2.
unfold sameDiskOut in *. by etransitivity.
Qed.

(** The errors of making or finding the directory of an archive and of
    creating the file. *)
Definition isDirError (e : error) : Prop :=
  match e with
  | ErrNotExist | SysErr _ | Wrapped _ _ | ErrorString _ => True
  | _ => False
  end.

(** The canonical file name of the archive of a chart below a directory:
    [<outDir>/<name>-<version>.tgz], cleaned. *)
Definition archivePath (c : Chart) (outDir : string) : string :=
  filepath.Join
    [outDir; Name c ++ "-" ++ Metadata.Version (Metadata c) ++ ".tgz"].

(** The gzip header [Save] sets. *)
Definition helmGzip : gzip.Writer := gzip.mkWriter headerBytes "Helm".

(* ===================================================================== *)
(** ** Sample environment, disk and charts                                *)
(* ===================================================================== *)

Definition newline : string := String "010"%char EmptyString.

(** The file names of Helm, a serializer that prints the two fields it
    is given, a validation that accepts every chart, and the name of a
    chart for its full path. *)
Definition helmEnv : Env :=
  mkEnv "Chart.yaml" "values.yaml" "values.schema.json" "charts"
    (fun md => inr (list_byte_of_string
                      ("name: " ++ Metadata.Name md ++ newline ++
                       "version: " ++ Metadata.Version md ++ newline)))
    (fun l => inr (list_byte_of_string
                     ("digest: " ++ Lock.Digest l ++ newline)))
    (fun _ => None)
    Name
    eq_refl.

(** The same, with a validation that rejects the names [validateName]
    rejects. *)
Definition strictEnv : Env :=
  mkEnv "Chart.yaml" "values.yaml" "values.schema.json" "charts"
    (yamlMarshalMetadata helmEnv) (yamlMarshalLock helmEnv)
    (fun c => match validateName (Name c) with
              | Some _ => Some "chart.metadata.name is invalid"
              | None => None
              end)
    Name
    eq_refl.

(** A disk with a root and a working directory, no failure ahead, and a
    clock that ticks. *)
Definition emptyDisk : World :=
  mkWorld (<["/" := Directory]> (<["." := Directory]> ∅)) []
          [1; 2; 3; 4; 5; 6; 7; 8; 9; 10; 11; 12; 13; 14; 15; 16]%Z [].

Definition plainChart (name : string) (schema : option bytes) : Chart :=
  mkChart [] (Metadata.mk name "1.0.0" "") None [] schema [] [].

(** A chart with a schema that is no JSON. *)
Definition badSchemaChart : Chart :=
  plainChart "web" (Some (list_byte_of_string "{bad json")).

(** A chart whose name is a path. *)
Definition evilChart : Chart := plainChart "../evil" None.

(** A dependency, and a chart with everything in it. *)
Definition dbChart : Chart :=
  mkChart [File.mk "values.yaml" (list_byte_of_string "port: 5432")]
          (Metadata.mk "db" "0.1.0" "") None
          [File.mk "templates/sts.yaml" (list_byte_of_string "kind: StatefulSet")]
          None [] [].

Definition appChart : Chart :=
  mkChart [File.mk "values.yaml" (list_byte_of_string "replicas: 2")]
          (Metadata.mk "app" "1.0.0" "")
          (Some (Lock.mk "now" "sha256:0"))
          [File.mk "templates/deploy.yaml" (list_byte_of_string "kind: Deployment")]
          (Some (list_byte_of_string "{}"))
          [File.mk "README.md" (list_byte_of_string "# app")]
          [dbChart].

(** The entry of the layout without its time: path, 0644, size,
    payload. *)
Definition untimedItem (item : string * bytes) : string * Z * Z * bytes :=
  (fst item, 420%Z, Z.of_nat (length (snd item)), snd item).

(** An entry the tar writer takes whole: its path does not end in a
    slash, so that it is a regular file, or it has no payload. *)
Definition takesPayload (item : string * bytes) : bool :=
  negb (tar.hasSuffixSlash (fst item))
  || match snd item with [] => true | _ => false end.

(** Every entry of a list is taken whole. *)
Definition fits (items : list (string * bytes)) : bool :=
  forallb takesPayload items.

(** No failure is ahead after a computation when none was before. *)
Definition quiet (w w1 : World) : Prop := faults w = [] -> faults w1 = [].

#[global] Instance quiet_preorder : PreOrder quiet.
Proof.
split; [intros w H; exact H|]. intros w w1 w2 H1 H2 H. by apply H2, H1.
Qed.

Definition quietOut (s s1 : Out) : Prop := quiet (snd s) (snd s1).

#[global] Instance quietOut_preorder : PreOrder quietOut.
Proof.
split; [intros s H; exact H|]. intros s s1 s2 H1 H2.
unfold quietOut in *. by etransitivity.
Qed.

(** With no failure ahead and a writer that takes a new header, an
    archive function succeeds, and leaves things so. *)
Definition runsClean {A} (m : M Out A) : Prop :=
  forall tw w, faults w = [] -> ready tw = true ->
    exists a tw' w', m (tw, w) = (inr a, (tw', w')) /\
                     faults w' = [] /\ ready tw' = true.

(** With no failure ahead and a writer that takes a new header, an
    archive function fails with [e]. *)
Definition cleanFails {A} (m : M Out A) (e : error) : Prop :=
  forall tw w, faults w = [] -> ready tw = true ->
    fst (m (tw, w)) = inl e.

Definition isInr {A B} (r : A + B) : bool :=
  match r with inr _ => true | inl _ => false end.

Definition isNone {A} (o : option A) : bool :=
  match o with None => true | Some _ => false end.

(** The steps of the archive builder before the schema can succeed: the
    name is valid and the documents serialize. *)
Definition headOk (E : Env) (c : Chart) : bool :=
  isNone (validateName (Name c))
  && isInr (yamlMarshalMetadata E (Metadata c))
  && match Lock c with
     | Some l => isInr (yamlMarshalLock E l)
     | None => true
     end.

(** The schema of a chart and of every chart below it is absent or
    well-formed. *)
Fixpoint schemasOk (c : Chart) : bool :=
  match c with
  | mkChart raw metadata lock templates schema files deps =>
      match schema with
      | Some sch => json.Valid sch
      | None => true
      end
      && forallb schemasOk deps
  end.

(** Every chart of the tree can be archived: a valid name, documents
    that serialize, a schema that is absent or well-formed. *)
Fixpoint buildable (E : Env) (c : Chart) : bool :=
  match c with
  | mkChart raw metadata lock templates schema files deps =>
      isNone (validateName (Metadata.Name metadata))
      && isInr (yamlMarshalMetadata E metadata)
      && match lock with
         | Some l => isInr (yamlMarshalLock E l)
         | None => true
         end
      && match schema with
         | Some sch => json.Valid sch
         | None => true
         end
      && forallb (buildable E) deps
  end.

(** The error of [writeTarContents] for a schema that is no JSON. *)
Definition MalformedSchema (E : Env) : error :=
  ErrorString ("invalid JSON in " ++ SchemafileName E).

(** A chart with no schema, over a dependency whose schema is no
    JSON. *)
Definition umbrellaChart : Chart :=
  mkChart [] (Metadata.mk "umbrella" "2.0.0" "") None [] None []
          [badSchemaChart].

(** A chart whose name is a path and whose schema is no JSON. *)
Definition evilBadSchemaChart : Chart :=
  plainChart "../evil" (Some (list_byte_of_string "{bad json")).

(** The errors of the tar writer. *)
Definition isTarError (e : error) : Prop :=
  match e with
  | ErrorString _ => exists nb, e = missedWriting nb
  | ErrWriteTooLong => True
  | SysErr _ => True
  | _ => False
  end.

(** Any error but the one for a schema that is no JSON. *)
Definition notMalformedSchema (E : Env) (e : error) : Prop :=
  e <> MalformedSchema E.

(** [errors.Unwrap]: the cause [fmt.Errorf] has kept with [%w], the
    code a [*fs.PathError] holds; nothing for the other errors, which
    have no [Unwrap] method. *)
Definition Unwrap (e : error) : option error :=
  match e with
  | Wrapped _ cause => Some cause
  | ErrNotExist => Some (Errno ENOENT)
  | SysErr code => Some (Errno code)
  | _ => None
  end.

(** The path of the archive [SaveDir] writes for a dependency of a
    chart: [<dest>/<name>/charts/<dep>-<version>.tgz]. *)
Definition dependencyArchive (E : Env) (c : Chart) (dest : string)
  (dep : Chart) : string :=
  filepath.Clean
    (archivePath dep
       (filepath.Join [filepath.Join [dest; Name c]; ChartsDir E])).

(** Two worlds the system calls cannot tell apart: the same failures
    ahead, the same clock, and at every path the same kind of node. The
    contents of the files and the traces may differ. *)
Definition similar (w1 w2 : World) : Prop :=
  faults w1 = faults w2 /\ clock w1 = clock w2 /\
  forall q, kindAt w1 q = kindAt w2 q.

Definition similarOut (s1 s2 : Out) : Prop :=
  fst s1 = fst s2 /\ similar (snd s1) (snd s2).

(** Two computations return the same from related states, and end in
    related states. *)
Definition related {S A} (R : S -> S -> Prop) (m1 m2 : M S A) : Prop :=
  forall s1 s2, R s1 s2 ->
    fst (m1 s1) = fst (m2 s2) /\ R (snd (m1 s1)) (snd (m2 s2)).

(** The chart with other dependencies. *)
Definition withDeps (c : Chart) (deps : list Chart) : Chart :=
  mkChart (Raw c) (Metadata c) (Lock c) (Templates c) (Schema c) (Files c)
          deps.

(** The chart with another schema. *)
Definition withSchema (c : Chart) (schema : option bytes) : Chart :=
  mkChart (Raw c) (Metadata c) (Lock c) (Templates c) schema (Files c)
          (dependencies c).

(** The trace only grows. *)
Definition traceGrows (w w1 : World) : Prop :=
  exists evs, trace w1 = (trace w ++ evs)%list.

#[global] Instance traceGrows_preorder : PreOrder traceGrows.
Proof.
split.
- intros w. exists []. by rewrite app_nil_r.
- intros w w1 w2 [evs1 H1] [evs2 H2]. exists (evs1 ++ evs2)%list.
  by rewrite H2, H1, app_assoc.
Qed.

(** [n] calls of [Save] on the same chart and directory, one after the
    other: the errors they return, and the world they leave. *)
Fixpoint saveTimes (E : Env) (c : Chart) (outDir : string) (n : nat)
  (w : World) : list (option error) * World :=
  match n with
  | O => ([], w)
  | S n' =>
      let '((_, err), w1) := Save E c outDir w in
      let '(errs, w2) := saveTimes E c outDir n' w1 in
      (err :: errs, w2)
  end.

(* ===================================================================== *)
(** ** More predicates on charts, errors and paths                        *)
(* ===================================================================== *)

(** The names of the charts of a tree, the root first. *)
Fixpoint treeNames (c : Chart) : list string :=
  match c with
  | mkChart raw metadata lock templates schema files deps =>
      Metadata.Name metadata :: flat_map treeNames deps
  end.

(** The names of the charts of a tree are real path elements. *)
Definition realNames (c : Chart) : bool :=
  forallb realElement (treeNames c).



(** The output buffer of [Clean] as a stack, the last element first:
    real elements, over nothing but [..] elements; none of these when
    the path is rooted. *)
Fixpoint okStack (rooted : bool) (out : list string) : bool :=
  match out with
  | [] => true
  | e :: rest =>
      if String.eqb e ".."
      then negb rooted && forallb (String.eqb "..") rest
      else realElement e && okStack rooted rest
  end.

(** A cleaned path from its elements, the first first. *)
Definition render (rooted : bool) (es : list string) : string :=
  let body := filepath.joinElements es in
  if rooted then String filepath.Separator body
  else match body with
       | EmptyString => "."
       | _ => body
       end.

(** The elements [Clean] keeps of a path that is not empty. *)
Definition cleanElements (path : string) : list string :=
  rev (fold_left (filepath.cleanStep (filepath.isRooted path))
                 (filepath.elements path) []).

(** No [..] among the elements of a relative file name. *)
Definition noDotDot (name : string) : bool :=
  forallb (fun e => negb (String.eqb e "..")) (filepath.elements name).

(** The failure the next system call meets, if it meets one. *)
Definition nextFault (w : World) : option nat :=
  match faults w with
  | Some code :: _ => Some code
  | _ => None
  end.

(** The world once a system call has taken its item of the oracle. *)
Definition afterFault (w : World) : World :=
  mkWorld (fs w) (tl (faults w)) (clock w) (trace w).

(** The directories there are stay directories. *)
Definition keepsDirs (w w1 : World) : Prop :=
  forall q, fs w !! q = Some Directory -> fs w1 !! q = Some Directory.

#[global] Instance keepsDirs_preorder : PreOrder keepsDirs.
Proof.
split; [intros w q H; exact H|]. intros w w1 w2 H1 H2 q H. by apply H2, H1.
Qed.

(** The file name of the archive of a chart. *)
Definition archiveName (c : Chart) : string :=
  Name c ++ "-" ++ Metadata.Version (Metadata c) ++ ".tgz".

(** A disk where a regular file is in the way at [/out]. *)
Definition blockedDisk : World :=
  setFs (insert "/out" (Regular (Plain []))) emptyDisk.


(** The names of a chart tree are real path elements, and no file of
    the templates and the static files has a [..] element in its
    name. *)
Fixpoint tidy (c : Chart) : bool :=
  match c with
  | mkChart raw metadata lock templates schema files deps =>
      realElement (Metadata.Name metadata)
      && forallb (fun f => noDotDot (File.Name f)) templates
      && forallb (fun f => noDotDot (File.Name f)) files
      && forallb tidy deps
  end.

(** The file names of the environment have no [..] element. *)
Definition localEnv (E : Env) : bool :=
  noDotDot (ChartfileName E) && noDotDot (ValuesfileName E)
  && noDotDot (SchemafileName E) && noDotDot (ChartsDir E).

(** A relative path below the directory [dir]: [dir] itself, or [dir]
    followed by real elements. *)
Definition inside (dir path : string) : Prop :=
  exists rest,
    Forall (fun e => realElement e = true) rest
    /\ path = filepath.joinElements (dir :: rest).

(** The raw files that are values files. *)
Definition valuesOnly (E : Env) (raw : list File.t) : list File.t :=
  List.filter (fun f => String.eqb (File.Name f) (ValuesfileName E)) raw.

(** The chart with its raw files other than the values files dropped,
    and with another lock. *)
Definition stripped (E : Env) (c : Chart) (lock : option Lock.t) : Chart :=
  mkChart (valuesOnly E (Raw c)) (Metadata c) lock (Templates c)
          (Schema c) (Files c) (dependencies c).

(** The chart with other raw files, the values files being the same. *)
Definition withRaw (c : Chart) (raw : list File.t) : Chart :=
  mkChart raw (Metadata c) (Lock c) (Templates c) (Schema c) (Files c)
          (dependencies c).

(** The errors of [SaveDir]: the rejection of the name of the chart, a
    file in the place of its directory, a metadata document that does
    not serialize, an error of the operating system, or the error of
    the archive of a dependency, wrapped with the path of the
    dependency. *)
Definition isSaveDirError (E : Env) (c : Chart) (dest : string)
  (e : error) : Prop :=
  match e with
  | ErrInvalidChartName n => n = Name c /\ filepath.Base n <> n
  | ErrorString msg =>
      msg = "file " ++ filepath.Join [dest; Name c]
            ++ " already exists and is not a directory"
  | MarshalErr _ => True
  | ErrNotExist | SysErr _ => True
  | Wrapped msg _ =>
      exists dep, In dep (Dependencies c)
                  /\ msg = "saving " ++ ChartFullPath E dep ++ ": "
  | _ => False
  end.

(** The files written, of a trace: path and contents, in order. *)
Fixpoint writes (evs : list Event) : list (string * bytes) :=
  match evs with
  | [] => []
  | EvWriteFile path data :: rest => (path, data) :: writes rest
  | _ :: rest => writes rest
  end.

(** The files [SaveDir] writes for a chart itself, in the order it
    writes them: the metadata document, the values files among the raw
    files, the schema if there is one, the templates, the static
    files. *)
Definition dirLayout (E : Env) (c : Chart) (dest : string)
  : list (string * bytes) :=
  let outdir := filepath.Join [dest; Name c] in
  [(filepath.Join [outdir; ChartfileName E],
    document (yamlMarshalMetadata E (Metadata c)))]
  ++ flat_map (fun f =>
       if String.eqb (File.Name f) (ValuesfileName E)
       then [(filepath.Join [outdir; ValuesfileName E], File.Data f)]
       else []) (Raw c)
  ++ match Schema c with
     | Some sch => [(filepath.Join [outdir; SchemafileName E], sch)]
     | None => []
     end
  ++ map (fun f => (filepath.Join [outdir; File.Name f], File.Data f))
         (Templates c)
  ++ map (fun f => (filepath.Join [outdir; File.Name f], File.Data f))
         (Files c).

(** A computation that succeeds has written the files [items], in this
    order, and no other. *)
Definition wrote {A} (m : M World A) (items : list (string * bytes))
  : Prop :=
  forall w a w',
    m w = (inr a, w') ->
    writes (trace w') = (writes (trace w) ++ items)%list.

(** A disk where a file is already at the path of the archive of
    [appChart] below the root. *)
Definition staleDisk (content : Content) : World :=
  setFs (insert "/app-1.0.0.tgz" (Regular content)) emptyDisk.

(** The clock is not read. *)
Definition sameClock (w w1 : World) : Prop := clock w1 = clock w.

#[global] Instance sameClock_preorder : PreOrder sameClock.
Proof.
split; [by intros w|]. intros w w1 w2 H1 H2. unfold sameClock in *.
congruence.
Qed.

Definition sameClockOut (s s1 : Out) : Prop := sameClock (snd s) (snd s1).

#[global] Instance sameClockOut_preorder : PreOrder sameClockOut.
Proof.
split; [by intros s|]. intros s s1 s2 H1 H2.
unfold sameClockOut in *. by etransitivity.
Qed.

(** The entries of a list of items, each stamped with the next reading
    of the clock; a clock that has run out reads 0. *)
Fixpoint stamped (clock : list Z) (items : list (string * bytes))
  : list tar.Entry :=
  match items with
  | [] => []
  | item :: rest => entryAt (hd 0%Z clock) item :: stamped (tl clock) rest
  end.

(** An archive function that succeeds appends the entries of [items],
    stamped with as many readings of the clock. *)
Definition stamps {A} (m : M Out A) (items : list (string * bytes))
  : Prop :=
  forall tw w a tw' w',
    m (tw, w) = (inr a, (tw', w')) ->
    tar.stream tw' = (rev (stamped (clock w) items) ++ tar.stream tw)%list
    /\ clock w' = drop (length items) (clock w).

(* ===================================================================== *)
(** ** Theorems                                                           *)
(* ===================================================================== *)

Section BaseFacts.
Import filepath.

Lemma strip_no_separator s :
  hasSeparator s = false -> stripTrailingSeparators s = s.
Proof.
induction s as [|c s IH]; simpl; [done|].
intros H. apply orb_false_iff in H as [Hc Hs].
rewrite (IH Hs), Hc. by destruct s.
Qed.

Lemma lastElement_no_separator s :
  hasSeparator s = false -> lastElement s = s.
Proof.
destruct s as [|c s]; simpl; [done|].
intros H. apply orb_false_iff in H as [Hc Hs]. by rewrite Hs, Hc.
Qed.

Lemma lastElement_has_none s : hasSeparator (lastElement s) = false.
Proof.
induction s as [|c s IH]; simpl; [done|].
destruct (hasSeparator s) eqn:Hs; [done|].
destruct (IsPathSeparator c) eqn:Hc; [done|].
simpl. by rewrite Hc, Hs.
Qed.

(** The fixed points of [Base]: the bare separator and the non-empty
    names without separator. *)
Lemma Base_fixed_iff n :
  Base n = n <-> n = "/" \/ (n <> "" /\ hasSeparator n = false).
Proof.
split.
- intros HB. destruct n as [|c s]; [discriminate|].
  destruct (hasSeparator (String c s)) eqn:Hs; [left|right; done].
  unfold Base in HB.
  pose proof (lastElement_has_none
                (stripTrailingSeparators (String c s))) as Hl.
  destruct (lastElement (stripTrailingSeparators (String c s)))
    as [|d r]; [by symmetry|].
  rewrite HB in Hl. congruence.
- intros [->|[Hne Hs]]; [done|].
  destruct n as [|c s]; [done|]. unfold Base.
  rewrite (strip_no_separator _ Hs), (lastElement_no_separator _ Hs).
  done.
Qed.

End BaseFacts.

(** *** [Clean] and [Join] *)

Section CleanFacts.
Import filepath.

Lemma Clean_render path :
  path <> "" -> Clean path = render (isRooted path) (cleanElements path).
Proof. destruct path; [by intros []|]. intros _. reflexivity. Qed.

Lemma Clean_nonempty path : Clean path <> "".
Proof.
destruct path as [|c s]; [done|].
unfold Clean. destruct (isRooted _); [done|]. by destruct (joinElements _).
Qed.

Lemma elements_nonempty s : elements s <> [].
Proof.
induction s as [|c s IH]; simpl; [done|].
destruct (IsPathSeparator c); [done|]. by destruct (elements s).
Qed.

Lemma elements_no_separator s :
  Forall (fun e => hasSeparator e = false) (elements s).
Proof.
induction s as [|c s IH]; simpl; [by constructor|].
destruct (IsPathSeparator c) eqn:Hc; [by constructor|].
destruct (elements s) as [|e es]; [by constructor; [simpl; rewrite Hc|]|].
apply Forall_cons in IH as [He Hes]. constructor; [|done].
simpl. by rewrite Hc.
Qed.

Lemma elements_single e : hasSeparator e = false -> elements e = [e].
Proof.
induction e as [|c e IH]; simpl; [done|].
intros H. apply orb_false_iff in H as [Hc He]. by rewrite Hc, (IH He).
Qed.

(** The elements of two paths joined by a separator. *)
Lemma elements_app a b :
  elements (a ++ String Separator b) = (elements a ++ elements b)%list.
Proof.
induction a as [|c a IH]; simpl; [done|].
rewrite IH. destruct (IsPathSeparator c); [done|].
pose proof (elements_nonempty a). by destruct (elements a).
Qed.

Lemma elements_joinElements es :
  es <> [] -> Forall (fun e => hasSeparator e = false) es ->
  elements (joinElements es) = es.
Proof.
induction es as [|e es IH]; [done|]. intros _ Hall.
apply Forall_cons in Hall as [He Hes].
destruct es as [|e' es']; [by apply elements_single|].
change (joinElements (e :: e' :: es'))
  with (e ++ String Separator (joinElements (e' :: es'))).
rewrite elements_app, (elements_single e He), IH; done.
Qed.

Lemma realElement_spec e :
  realElement e = true <->
  e <> "" /\ e <> "." /\ e <> ".." /\ hasSeparator e = false.
Proof.
unfold realElement. rewrite !andb_true_iff, !negb_true_iff.
rewrite !String.eqb_neq. tauto.
Qed.

Lemma okStack_dotdots rooted out :
  rooted = false -> forallb (String.eqb "..") out = true ->
  okStack rooted out = true.
Proof.
intros ->. induction out as [|e out IH]; cbn [okStack forallb]; [done|].
intros H. apply andb_true_iff in H as [He Hout].
apply String.eqb_eq in He as <-. by rewrite String.eqb_refl.
Qed.

Lemma okStack_tail rooted e out :
  okStack rooted (e :: out) = true -> okStack rooted out = true.
Proof.
cbn [okStack]. destruct (String.eqb e "..").
- intros H. apply andb_true_iff in H as [Hr Hout].
  apply okStack_dotdots; [by destruct rooted|done].
- intros H. by apply andb_true_iff in H as [_ Hout].
Qed.

Lemma okStack_suffix rooted a b :
  okStack rooted (a ++ b) = true -> okStack rooted b = true.
Proof.
induction a as [|e a IH]; [done|]. intros H. apply IH.
by apply okStack_tail in H.
Qed.

Lemma okStack_no_separator rooted out :
  okStack rooted out = true -> Forall (fun e => hasSeparator e = false) out.
Proof.
induction out as [|e out IH]; [by constructor|]. intros H.
constructor; [|by apply IH, (okStack_tail _ e)].
cbn [okStack] in H. destruct (String.eqb e "..") eqn:He.
- by apply String.eqb_eq in He as ->.
- apply andb_true_iff in H as [H _]. by apply realElement_spec in H as (? & ? & ? & ?).
Qed.

Lemma okStack_nonempty rooted out :
  okStack rooted out = true -> Forall (fun e => e <> "") out.
Proof.
induction out as [|e out IH]; [by constructor|]. intros H.
constructor; [|by apply IH, (okStack_tail _ e)].
cbn [okStack] in H. destruct (String.eqb e "..") eqn:He.
- by apply String.eqb_eq in He as ->.
- apply andb_true_iff in H as [H _]. by apply realElement_spec in H as (? & ? & ? & ?).
Qed.

(** A step of [Clean] keeps the buffer clean. *)
Lemma cleanStep_okStack rooted out e :
  hasSeparator e = false -> okStack rooted out = true ->
  okStack rooted (cleanStep rooted out e) = true.
Proof.
intros Hsep Hok. unfold cleanStep.
destruct (String.eqb e "") eqn:He0; [done|].
destruct (String.eqb e ".") eqn:He1; [done|].
destruct (String.eqb e "..") eqn:He2.
- apply String.eqb_eq in He2 as ->.
  destruct out as [|top rest]; [by destruct rooted|].
  destruct (String.eqb top "..") eqn:Htop.
  + cbn [okStack] in Hok. rewrite Htop in Hok. cbn [okStack].
    rewrite String.eqb_refl.
    apply andb_true_iff in Hok as [-> Hrest]. cbn [forallb andb].
    apply String.eqb_eq in Htop as ->. by rewrite String.eqb_refl.
  + by apply okStack_tail in Hok.
- cbn [okStack]. rewrite He2, Hok. unfold realElement.
  by rewrite He0, He1, He2, Hsep.
Qed.

Lemma fold_cleanStep_okStack rooted es out :
  Forall (fun e => hasSeparator e = false) es ->
  okStack rooted out = true ->
  okStack rooted (fold_left (cleanStep rooted) es out) = true.
Proof.
revert out. induction es as [|e es IH]; intros out Hall Hok; [done|].
apply Forall_cons in Hall as [He Hes]. simpl.
apply IH; [done|]. by apply cleanStep_okStack.
Qed.

(** The elements [Clean] keeps form a clean buffer. *)
Lemma cleanElements_okStack path :
  okStack (isRooted path) (rev (cleanElements path)) = true.
Proof.
unfold cleanElements. rewrite rev_involutive.
apply fold_cleanStep_okStack; [apply elements_no_separator|done].
Qed.

(** On a clean buffer a step of [Clean] puts the element on top. *)
Lemma cleanStep_push rooted out e :
  okStack rooted (e :: out) = true -> cleanStep rooted out e = e :: out.
Proof.
cbn [okStack]. unfold cleanStep. destruct (String.eqb e "..") eqn:He2.
- apply String.eqb_eq in He2 as ->.
  intros H. apply andb_true_iff in H as [Hr Hout].
  cbn [String.eqb Ascii.eqb Bool.eqb].
  destruct out as [|top rest]; [by destruct rooted|].
  cbn [forallb] in Hout. apply andb_true_iff in Hout as [Htop _].
  apply String.eqb_eq in Htop as <-. by rewrite String.eqb_refl.
- intros H. apply andb_true_iff in H as [H _].
  apply realElement_spec in H as (H0 & H1 & _).
  apply String.eqb_neq in H0, H1. by rewrite H0, H1.
Qed.

Lemma fold_cleanStep_push rooted es out :
  okStack rooted (rev es ++ out) = true ->
  fold_left (cleanStep rooted) es out = (rev es ++ out)%list.
Proof.
revert out. induction es as [|e es IH]; intros out Hok; [done|].
simpl in *. rewrite <- app_assoc in Hok. simpl in Hok.
rewrite cleanStep_push; [|by apply okStack_suffix in Hok].
rewrite IH; [|done]. by rewrite <- app_assoc.
Qed.

Lemma joinElements_empty es :
  Forall (fun e => e <> "") es -> joinElements es = "" -> es = [].
Proof.
destruct es as [|e es]; [done|]. intros Hall.
apply Forall_cons in Hall as [He _].
destruct es; simpl; [done|]. by destruct e.
Qed.

Lemma isRooted_joinElements es :
  Forall (fun e => e <> "") es ->
  Forall (fun e => hasSeparator e = false) es ->
  isRooted (joinElements es) = false.
Proof.
destruct es as [|e es]; [done|]. intros Hne Hsep.
apply Forall_cons in Hne as [He _]. apply Forall_cons in Hsep as [Hs _].
destruct e as [|c e]; [done|]. simpl in Hs.
apply orb_false_iff in Hs as [Hc _].
destruct es; simpl; done.
Qed.

(** What [Clean] makes of a cleaned path: the same elements. *)
Lemma cleanElements_render rooted es :
  okStack rooted (rev es) = true ->
  isRooted (render rooted es) = rooted
  /\ cleanElements (render rooted es) = es.
Proof.
intros Hok.
pose proof (okStack_no_separator _ _ Hok) as Hsep.
pose proof (okStack_nonempty _ _ Hok) as Hne.
apply Forall_rev in Hsep, Hne. rewrite rev_involutive in Hsep, Hne.
assert (Hfold : forall r, r = rooted ->
          rev (fold_left (cleanStep r) es []) = es).
{ intros r ->. rewrite fold_cleanStep_push; rewrite app_nil_r; [|done].
  apply rev_involutive. }
destruct (decide (es = [])) as [->|Hes].
{ by destruct rooted. }
assert (Hel : elements (joinElements es) = es)
  by (by apply elements_joinElements).
destruct rooted.
- split; [done|]. unfold cleanElements, render. simpl. rewrite Hel.
  destruct es as [|e es']; [done|]. by apply Hfold.
- assert (Hren : render false es = joinElements es).
  { unfold render. cbv zeta.
    destruct (joinElements es) eqn:Hbody; [|done].
    by apply joinElements_empty in Hbody. }
  rewrite Hren.
  assert (Hr : isRooted (joinElements es) = false)
    by (by apply isRooted_joinElements).
  split; [done|]. unfold cleanElements. rewrite Hr, Hel. by apply Hfold.
Qed.

Lemma render_nonempty rooted es : render rooted es <> "".
Proof. unfold render. destruct rooted; [done|]. by destruct (joinElements es). Qed.

(** [Clean] is idempotent. *)
Lemma Clean_idempotent path : Clean (Clean path) = Clean path.
Proof.
destruct (decide (path = "")) as [->|Hne]; [done|].
rewrite (Clean_render path Hne).
rewrite Clean_render; [|apply render_nonempty].
destruct (cleanElements_render (isRooted path) (cleanElements path))
  as [Hr He]; [apply cleanElements_okStack|].
by rewrite Hr, He.
Qed.

Lemma Dir_Clean path : Clean (Dir path) = Dir path.
Proof. apply Clean_idempotent. Qed.

Lemma Join_nonempty a b : b <> "" -> Join [a; b] <> "".
Proof.
intros Hb. simpl. destruct (String.eqb a "").
- apply String.eqb_neq in Hb. rewrite Hb. apply Clean_nonempty.
- apply Clean_nonempty.
Qed.

Lemma Join_nonempty_l a b : a <> "" -> Join [a; b] <> "".
Proof.
intros Ha. cbn [Join]. apply String.eqb_neq in Ha. rewrite Ha.
apply Clean_nonempty.
Qed.

Lemma Join_Clean es : Join es <> "" -> Clean (Join es) = Join es.
Proof.
induction es as [|e es IH]; [done|]. simpl.
destruct (String.eqb e ""); [done|]. intros _. apply Clean_idempotent.
Qed.

End CleanFacts.

Section JoinFacts.
Import filepath.

Lemma append_cons x (a b : string) : String x a ++ b = String x (a ++ b).
Proof. reflexivity. Qed.

Lemma append_nil (b : string) : "" ++ b = b.
Proof. reflexivity. Qed.

Lemma append_assoc (a b c : string) : (a ++ b) ++ c = a ++ (b ++ c).
Proof.
induction a as [|x a IH]; [done|]. rewrite !append_cons. by f_equal.
Qed.

Lemma hasSeparator_append a b :
  hasSeparator (a ++ b) = hasSeparator a || hasSeparator b.
Proof.
induction a as [|x a IH]; [done|]. rewrite append_cons. simpl.
by rewrite IH, orb_assoc.
Qed.

Lemma isRooted_append a b : a <> "" -> isRooted (a ++ b) = isRooted a.
Proof. by destruct a. Qed.

Lemma joinElements_snoc es e :
  es <> [] ->
  joinElements (es ++ [e]) = joinElements es ++ String Separator e.
Proof.
induction es as [|x es IH]; [done|]. intros _.
destruct es as [|y es]; [done|].
change (joinElements ((x :: y :: es) ++ [e]))
  with (x ++ String Separator (joinElements ((y :: es) ++ [e]))).
rewrite IH; [|done].
change (joinElements (x :: y :: es))
  with (x ++ String Separator (joinElements (y :: es))).
by rewrite append_assoc.
Qed.

Lemma strip_append a n :
  n <> "" -> hasSeparator n = false ->
  stripTrailingSeparators (a ++ n) = a ++ n.
Proof.
intros Hn Hs. induction a as [|x a IH].
- by apply strip_no_separator.
- rewrite append_cons. simpl. rewrite IH. destruct (a ++ n) eqn:Han; [|done].
  destruct a; [done|discriminate].
Qed.

Lemma lastElement_append a n :
  hasSeparator n = false -> lastElement (a ++ String Separator n) = n.
Proof.
intros Hs. induction a as [|x a IH].
- rewrite append_nil. simpl. by rewrite Hs.
- rewrite append_cons. simpl. rewrite hasSeparator_append. simpl.
  by rewrite orb_true_r.
Qed.

Lemma uptoLastSeparator_append a n :
  hasSeparator n = false ->
  uptoLastSeparator (a ++ String Separator n) = a ++ String Separator "".
Proof.
intros Hs. induction a as [|x a IH].
- rewrite append_nil. simpl. by rewrite Hs.
- rewrite !append_cons. simpl. rewrite hasSeparator_append. simpl.
  by rewrite orb_true_r, IH.
Qed.

Lemma uptoLastSeparator_none n :
  hasSeparator n = false -> uptoLastSeparator n = "".
Proof.
destruct n as [|x n]; [done|]. simpl. intros H.
apply orb_false_iff in H as [-> ->]. done.
Qed.

Lemma Base_append a n :
  n <> "" -> hasSeparator n = false -> Base (a ++ String Separator n) = n.
Proof.
intros Hn Hs. unfold Base.
destruct (a ++ String Separator n) eqn:Hp; [by destruct a|].
rewrite <- Hp.
assert (Hstrip : stripTrailingSeparators (a ++ String Separator n)
                 = a ++ String Separator n).
{ replace (a ++ String Separator n) with ((a ++ String Separator "") ++ n)
    by (by rewrite append_assoc).
  by apply strip_append. }
rewrite Hstrip, lastElement_append; [|done].
by destruct n.
Qed.

Lemma Base_element n : n <> "" -> hasSeparator n = false -> Base n = n.
Proof. intros Hn Hs. apply Base_fixed_iff. by right. Qed.

(** A trailing separator is nothing to [Clean]. *)
Lemma Clean_trailing a :
  a <> "" -> Clean (a ++ String Separator "") = Clean a.
Proof.
intros Ha. rewrite !Clean_render; [|done|by destruct a].
unfold cleanElements. rewrite isRooted_append; [|done].
rewrite elements_app, fold_left_app. simpl.
by destruct a.
Qed.

(** The directory and the last element of a cleaned path that ends in
    an element [n]. *)
Lemma Dir_Base_render rooted es n :
  okStack rooted (rev es) = true ->
  n <> "" -> hasSeparator n = false ->
  Dir (render rooted (es ++ [n])) = render rooted es
  /\ Base (render rooted (es ++ [n])) = n.
Proof.
intros Hok Hn Hs.
destruct (cleanElements_render rooted es Hok) as [Hr He].
assert (Hclean : Clean (render rooted es) = render rooted es).
{ rewrite Clean_render; [|apply render_nonempty]. by rewrite Hr, He. }
destruct (decide (es = [])) as [->|Hes].
- destruct rooted.
  + unfold render, Dir. simpl. rewrite Hs. split; [done|].
    apply (Base_append "" n); done.
  + destruct n as [|x n]; [done|].
    change (render false ([] ++ [String x n])) with (String x n).
    unfold Dir. rewrite (uptoLastSeparator_none _ Hs). split; [done|].
    by apply Base_element.
- assert (Hj : joinElements (es ++ [n])
               = joinElements es ++ String Separator n)
    by (by apply joinElements_snoc).
  assert (Hne : joinElements es <> "").
  { intros H. apply joinElements_empty in H; [done|].
    pose proof (okStack_nonempty _ _ Hok) as Hall.
    apply Forall_rev in Hall. by rewrite rev_involutive in Hall. }
  unfold Dir. destruct rooted.
  + unfold render in *. cbv zeta in *. rewrite Hj.
    change (String Separator (joinElements es ++ String Separator n))
      with (String Separator (joinElements es) ++ String Separator n).
    rewrite uptoLastSeparator_append, Clean_trailing, Hclean; [|done..].
    split; [done|]. by apply Base_append.
  + assert (Hren : forall l, joinElements l <> "" ->
                     render false l = joinElements l).
    { intros l Hl. unfold render. cbv zeta. by destruct (joinElements l). }
    rewrite Hren in Hclean; [|done].
    rewrite !Hren; [|done|rewrite Hj; by destruct (joinElements es)].
    rewrite Hj, uptoLastSeparator_append, Clean_trailing, Hclean; [|done..].
    split; [done|]. by apply Base_append.
Qed.

(** [Join] of a directory and a name, through the elements [Clean]
    keeps of the directory. *)
Lemma Join_elements d f :
  d <> "" ->
  Join [d; f] =
    render (isRooted d)
      (rev (fold_left (cleanStep (isRooted d)) (elements f)
                      (rev (cleanElements d)))).
Proof.
intros Hd. simpl. apply String.eqb_neq in Hd as Hd'. rewrite Hd'.
rewrite Clean_render; [|by destruct d].
unfold cleanElements at 1. rewrite isRooted_append; [|done].
rewrite elements_app, fold_left_app. unfold cleanElements.
by rewrite rev_involutive.
Qed.

Lemma Join_empty f : f <> "" -> Join [""; f] = Clean f.
Proof. intros Hf. simpl. apply String.eqb_neq in Hf. by rewrite Hf. Qed.

Lemma realElement_okStack rooted out e :
  realElement e = true -> okStack rooted out = true ->
  okStack rooted (e :: out) = true.
Proof.
intros He Hok. cbn [okStack]. rewrite He, Hok.
apply realElement_spec in He as (_ & _ & He & _).
apply String.eqb_neq in He. by rewrite He.
Qed.

(** [Join] of a directory and one real element: the element is the
    last of the path, and the directory of the path is the directory
    given, cleaned. *)
Lemma Join_child d n :
  realElement n = true ->
  Base (Join [d; n]) = n /\ Dir (Join [d; n]) = Clean d.
Proof.
intros Hreal. pose proof Hreal as Hn.
apply realElement_spec in Hn as (Hn0 & Hn1 & Hn2 & Hs).
assert (Hstep : forall r out, cleanStep r out n = n :: out).
{ intros r out. unfold cleanStep. apply String.eqb_neq in Hn0, Hn1, Hn2.
  by rewrite Hn0, Hn1, Hn2. }
destruct (decide (d = "")) as [->|Hd].
- rewrite Join_empty; [|done]. rewrite Clean_render; [|done].
  assert (Hr : isRooted n = false).
  { destruct n as [|x n]; [done|]. simpl in *.
    by apply orb_false_iff in Hs as [-> _]. }
  unfold cleanElements. rewrite Hr, (elements_single n Hs). simpl.
  rewrite Hstep. simpl.
  destruct (Dir_Base_render false [] n) as [HD HB]; [done..|].
  simpl in HD, HB. by rewrite HD, HB.
- rewrite Join_elements; [|done]. rewrite (elements_single n Hs). simpl.
  rewrite Hstep. simpl. rewrite rev_involutive.
  destruct (Dir_Base_render (isRooted d) (cleanElements d) n) as [HD HB];
    [apply cleanElements_okStack|done..|].
  rewrite HD, HB. split; [done|]. by rewrite Clean_render.
Qed.

(** A path that ends in a slash. *)
Lemma hasSuffixSlash_append a n :
  n <> "" -> tar.hasSuffixSlash (a ++ n) = tar.hasSuffixSlash n.
Proof.
intros Hn. induction a as [|x a IH]; [done|].
rewrite append_cons. cbn [tar.hasSuffixSlash]. rewrite IH.
destruct (a ++ n) eqn:Han; [|done]. by destruct a.
Qed.

Lemma hasSuffixSlash_no_separator n :
  hasSeparator n = false -> tar.hasSuffixSlash n = false.
Proof.
induction n as [|x n IH]; [done|]. cbn [hasSeparator tar.hasSuffixSlash].
intros H. apply orb_false_iff in H as [Hx Hn].
destruct n; [exact Hx|by apply IH].
Qed.

Lemma hasSuffixSlash_joinElements es :
  es <> [] -> Forall (fun e => e <> "") es ->
  Forall (fun e => hasSeparator e = false) es ->
  tar.hasSuffixSlash (joinElements es) = false.
Proof.
induction es as [|e es IH]; [done|]. intros _ Hne Hsep.
apply Forall_cons in Hne as [He Hes]. apply Forall_cons in Hsep as [Hs Hss].
destruct es as [|e' es']; [by apply hasSuffixSlash_no_separator|].
change (joinElements (e :: e' :: es'))
  with (e ++ String Separator (joinElements (e' :: es'))).
replace (e ++ String Separator (joinElements (e' :: es')))
  with ((e ++ String Separator "") ++ joinElements (e' :: es'))
  by (by rewrite append_assoc).
rewrite hasSuffixSlash_append; [by apply IH|].
intros H. by apply joinElements_empty in H.
Qed.

(** A cleaned path ends in a slash when it is the root, and then
    only. *)
Lemma hasSuffixSlash_render rooted es :
  okStack rooted (rev es) = true ->
  tar.hasSuffixSlash (render rooted es) = true -> render rooted es = "/".
Proof.
intros Hok.
pose proof (okStack_no_separator _ _ Hok) as Hsep.
pose proof (okStack_nonempty _ _ Hok) as Hne.
apply Forall_rev in Hsep, Hne. rewrite rev_involutive in Hsep, Hne.
destruct (decide (es = [])) as [->|Hes]; [by destruct rooted|].
pose proof (hasSuffixSlash_joinElements es Hes Hne Hsep) as Hj.
assert (Hbody : joinElements es <> "").
{ intros H. by apply joinElements_empty in H. }
unfold render. cbv zeta. destruct rooted.
- change (String Separator (joinElements es))
    with (String Separator "" ++ joinElements es).
  rewrite hasSuffixSlash_append, Hj; done.
- destruct (joinElements es); [done|]. by rewrite Hj.
Qed.

Lemma hasSuffixSlash_Clean path :
  tar.hasSuffixSlash (Clean path) = true -> Clean path = "/".
Proof.
destruct (decide (path = "")) as [->|Hne]; [done|].
rewrite (Clean_render path Hne). apply hasSuffixSlash_render.
apply cleanElements_okStack.
Qed.

Lemma hasSuffixSlash_Join es :
  tar.hasSuffixSlash (Join es) = true -> Join es = "/".
Proof.
destruct (decide (Join es = "")) as [->|Hne]; [done|].
rewrite <- (Join_Clean es Hne). apply hasSuffixSlash_Clean.
Qed.

(** The path of a file whose name is a real element does not end in a
    slash. *)
Lemma hasSuffixSlash_Join_real d n :
  realElement n = true -> tar.hasSuffixSlash (Join [d; n]) = false.
Proof.
intros Hn. destruct (tar.hasSuffixSlash (Join [d; n])) eqn:Hs; [|done].
apply hasSuffixSlash_Join in Hs.
destruct (Join_child d n Hn) as [HB _]. rewrite Hs in HB.
apply realElement_spec in Hn as (_ & _ & _ & Hsep).
by rewrite <- HB in Hsep.
Qed.

(** [Join] below a directory keeps the path rooted, or relative. *)
Lemma isRooted_Join d f : d <> "" -> isRooted (Join [d; f]) = isRooted d.
Proof.
intros Hd. rewrite Join_elements; [|done].
apply cleanElements_render. rewrite rev_involutive.
apply fold_cleanStep_okStack; [apply elements_no_separator|].
apply cleanElements_okStack.
Qed.

Lemma isRooted_Clean path :
  path <> "" -> isRooted (Clean path) = isRooted path.
Proof.
intros Hne. rewrite (Clean_render path Hne).
apply cleanElements_render, cleanElements_okStack.
Qed.

Lemma isRooted_real n : realElement n = true -> isRooted n = false.
Proof.
intros Hn. apply realElement_spec in Hn as (Hne & _ & _ & Hs).
destruct n as [|x n]; [done|]. simpl in *.
by apply orb_false_iff in Hs as [-> _].
Qed.

(** The directory of a chart below a relative prefix is relative. *)
Lemma isRooted_Join_name prefix n :
  realElement n = true -> isRooted prefix = false ->
  Join [prefix; n] <> "" /\ isRooted (Join [prefix; n]) = false.
Proof.
intros Hn Hp.
assert (Hne : n <> "") by (by apply realElement_spec in Hn as (? & _)).
split; [by apply Join_nonempty|].
destruct (decide (prefix = "")) as [->|Hpre].
- rewrite Join_empty, isRooted_Clean; [|done..]. by apply isRooted_real.
- by rewrite isRooted_Join.
Qed.

Lemma hasSuffixSlash_Join_relative d f :
  d <> "" -> isRooted d = false -> tar.hasSuffixSlash (Join [d; f]) = false.
Proof.
intros Hd Hr. destruct (tar.hasSuffixSlash (Join [d; f])) eqn:Hs; [|done].
apply hasSuffixSlash_Join in Hs.
pose proof (isRooted_Join d f Hd) as H. by rewrite Hs, Hr in H.
Qed.

End JoinFacts.

Section Monad.
Context {S : Type}.

Lemma bind_inr {A B} (m : M S A) (k : A -> M S B) s b s' :
  bind m k s = (inr b, s') ->
  exists a s1, m s = (inr a, s1) /\ k a s1 = (inr b, s').
Proof.
unfold bind. destruct (m s) as [[e|a] s1]; [discriminate|]. eauto.
Qed.

Lemma bind_inl {A B} (m : M S A) (k : A -> M S B) s e s' :
  bind m k s = (inl e, s') ->
  m s = (inl e, s') \/
  exists a s1, m s = (inr a, s1) /\ k a s1 = (inl e, s').
Proof.
unfold bind. destruct (m s) as [[e0|a] s1]; [left; congruence|].
right; eauto.
Qed.

Context (R : S -> S -> Prop) `{!PreOrder R}.

Lemma always_ret {A} (a : A) : always R (ret a).
Proof. intros s. reflexivity. Qed.

Lemma always_fail {A} e : always R (@fail S A e).
Proof. intros s. reflexivity. Qed.

Lemma always_gets {A} (f : S -> A) : always R (gets f).
Proof. intros s. reflexivity. Qed.

Lemma always_check err : always R (@check S err).
Proof. destruct err; [apply always_fail|apply always_ret]. Qed.

Lemma always_marshalled r : always R (@marshalled S r).
Proof. destruct r; [apply always_fail|apply always_ret]. Qed.

Lemma always_bind {A B} (m : M S A) (k : A -> M S B) :
  always R m -> (forall a, always R (k a)) -> always R (bind m k).
Proof.
intros Hm Hk s. unfold bind. specialize (Hm s).
destruct (m s) as [[e|a] s1]; simpl in *; [done|].
etransitivity; [exact Hm|apply Hk].
Qed.

Lemma always_forM_ {A} (l : list A) (body : A -> M S unit) :
  (forall x, x ∈ l -> always R (body x)) -> always R (forM_ l body).
Proof.
induction l as [|x l IH]; intros H; [apply always_ret|].
apply always_bind; [apply H; left|].
intros _. apply IH. intros y Hy. apply H. by right.
Qed.

End Monad.

(** *** Chart trees *)

Lemma Chart_tree_ind (P : Chart -> Prop) :
  (forall raw metadata lock templates schema files deps,
      Forall P deps ->
      P (mkChart raw metadata lock templates schema files deps)) ->
  forall c, P c.
Proof.
intros step. fix IH 1. intros [raw metadata lock templates schema files deps].
apply step. induction deps as [|d ds IHds]; constructor; [apply IH|exact IHds].
Qed.

(** *** The tar writer *)

Section TarWriter.

Lemma time_Now_run w :
  exists t w1, time_Now w = (inr t, w1) /\
               fs w1 = fs w /\ faults w1 = faults w /\ trace w1 = trace w.
Proof.
unfold time_Now. destruct (clock w); eauto 10.
Qed.

Lemma fault_run w :
  (exists code w1, fault w = (inl (SysErr code), w1) /\
                   fs w1 = fs w /\ trace w1 = trace w /\ clock w1 = clock w /\
                   faults w = Some code :: faults w1)
  \/ (exists w1, fault w = (inr tt, w1) /\
                 fs w1 = fs w /\ trace w1 = trace w /\ clock w1 = clock w /\
                 (faults w = None :: faults w1 \/
                  (faults w = [] /\ w1 = w))).
Proof.
unfold fault. destruct (faults w) as [|[code|] rest] eqn:Hf.
- right. eexists; repeat split; eauto.
- left. do 2 eexists; repeat split; eauto.
- right. eexists; repeat split; eauto.
Qed.

Lemma WriteHeader_run h tw w :
  (exists nb, WriteHeader h (tw, w) = (inl (missedWriting nb), (tw, w)) /\
              ready tw = false)
  \/ (exists code w1, WriteHeader h (tw, w) = (inl (SysErr code), (tw, w1)) /\
                      sameDisk w w1 /\ faults w = Some code :: faults w1)
  \/ (exists w1, WriteHeader h (tw, w) =
                 (inr tt, (tar.mkWriter (tar.mkEntry h [] :: tar.stream tw), w1))
                 /\ sameDisk w w1 /\ ready tw = true /\
                 (faults w = None :: faults w1 \/ faults w = [] /\ w1 = w)).
Proof.
destruct tw as [st].
unfold WriteHeader, bind, gets, modify, inWorld, fail, ret, sameDisk, ready.
cbn.
destruct st as [|e0 es]; [|destruct (0 <? tar.remaining e0)%Z].
2: { left. eauto. }
all: destruct (fault_run w) as [(code & w2 & -> & Hfs2 & Htr2 & _ & Hf)
                               |(w2 & -> & Hfs2 & Htr2 & _ & Hf)];
  [right; left|right; right]; eauto 10.
Qed.

Lemma remaining_new h :
  tar.remaining (tar.mkEntry h []) = tar.capacity h.
Proof. unfold tar.remaining. simpl. lia. Qed.

(** [Write] of a payload the new entry takes. *)
Lemma Write_run h b es w :
  (Z.of_nat (length b) <= tar.capacity h)%Z ->
  let tw := tar.mkWriter (tar.mkEntry h [] :: es) in
  (exists code w1, Write b (tw, w) = (inl (SysErr code), (tw, w1)) /\
                   sameDisk w w1 /\ faults w = Some code :: faults w1)
  \/ (exists w1, Write b (tw, w) =
                 (inr tt, (tar.mkWriter (tar.mkEntry h b :: es), w1))
                 /\ sameDisk w w1 /\
                 (faults w = None :: faults w1 \/ w1 = w)).
Proof.
intros Hsz.
unfold Write, bind, gets, modify, inWorld, fail, ret, sameDisk.
cbn [fst snd tar.stream tar.header tar.payload]. rewrite !remaining_new.
destruct (Z.ltb_spec (tar.capacity h) (Z.of_nat (length b))); [lia|].
destruct b as [|b0 b]; [right; exists w; eauto 10|].
cbn [app].
destruct (fault_run w) as [(code & w2 & -> & Hfs2 & Htr2 & _ & Hf)
                          |(w2 & -> & Hfs2 & Htr2 & _ & Hf)];
  [left; eauto 10|right].
exists w2. repeat split; try done. destruct Hf as [Hf|[_ ->]]; auto.
Qed.

(** [Write] of a payload to a new entry that takes none: a
    directory. *)
Lemma Write_tooLong h b es w :
  tar.capacity h = 0%Z -> b <> [] ->
  Write b (tar.mkWriter (tar.mkEntry h [] :: es), w)
  = (inl ErrWriteTooLong, (tar.mkWriter (tar.mkEntry h [] :: es), w)).
Proof.
intros Hcap Hb.
unfold Write, bind, gets, modify, inWorld, fail, ret.
cbn [fst snd tar.stream tar.header tar.payload]. rewrite !remaining_new, Hcap.
destruct (Z.ltb_spec 0 (Z.of_nat (length b))) as [_|Hlen].
- reflexivity.
- destruct b; [done|]. simpl in Hlen. lia.
Qed.

Lemma capacity_cases h :
  (tar.isDirectory h = true /\ tar.capacity h = 0%Z)
  \/ (tar.isDirectory h = false /\ tar.capacity h = tar.Size h).
Proof. unfold tar.capacity. destruct (tar.isDirectory h); auto. Qed.

Lemma sameDisk_trans w w1 w2 : sameDisk w w1 -> sameDisk w1 w2 -> sameDisk w w2.
Proof. unfold sameDisk. intros [-> ->] [-> ->]. done. Qed.

(** What [writeToTar] leaves in the writer: on success, one more
    entry, complete; on failure, nothing more, or the header alone. A
    payload for a name that ends in a slash is too long. *)
Lemma writeToTarOn_run sep name body tw w :
  exists t r tw' w',
    writeToTarOn sep name body (tw, w) = (r, (tw', w')) /\
    sameDisk w w' /\
    let h := tar.mkHeader (filepath.ToSlashOn sep name) 420
                          (Z.of_nat (length body)) t in
    match r with
    | inr _ => tar.stream tw' = tar.mkEntry h body :: tar.stream tw /\
               ready tw = true /\
               (tar.isDirectory h = false \/ body = [])
    | inl e =>
        (tar.stream tw' = tar.stream tw /\
         ((exists nb, e = missedWriting nb) /\ ready tw = false
          \/ exists code, e = SysErr code /\ In (Some code) (faults w)))
        \/ (tar.stream tw' = tar.mkEntry h [] :: tar.stream tw /\
            ((exists code, e = SysErr code /\ In (Some code) (faults w))
             \/ (e = ErrWriteTooLong /\ tar.isDirectory h = true /\
                 body <> [] /\ ready tw = true)))
    end.
Proof.
unfold writeToTarOn, bind at 1, inWorld.
destruct (time_Now_run w) as (t & w1 & -> & Hfs1 & Hfl1 & Htr1).
exists t. unfold bind.
set (h := tar.mkHeader (filepath.ToSlashOn sep name) 420
                       (Z.of_nat (length body)) t).
destruct (WriteHeader_run h tw w1)
  as [(nb & -> & Hr)|[(code & w2 & -> & Hd & Hf)|(w2 & -> & Hd & Hr & Hf)]].
- do 3 eexists. split; [reflexivity|]. split; [done|]. left. eauto.
- do 3 eexists. split; [reflexivity|].
  split; [eapply sameDisk_trans; [split|]; eauto|].
  left. split; [done|]. right. eexists. split; [done|].
  rewrite <- Hfl1, Hf. by left.
- destruct (capacity_cases h) as [[Hdir Hcap]|[Hdir Hcap]].
  + destruct body as [|b0 body].
    * edestruct (Write_run h [] (tar.stream tw) w2)
        as [(code & w3 & -> & Hd3 & Hf3)|(w3 & -> & Hd3 & Hf3)];
        [rewrite Hcap; simpl; lia| |].
      -- do 3 eexists. split; [reflexivity|].
         split; [eapply sameDisk_trans; [split; eauto|];
                 eapply sameDisk_trans; eauto|].
         right. split; [done|]. left. eexists. split; [done|].
         rewrite <- Hfl1. destruct Hf as [Hf|[Hf ->]]; [|congruence].
         rewrite Hf, Hf3. simpl; auto.
      -- do 3 eexists. split; [reflexivity|].
         split; [eapply sameDisk_trans; [split; eauto|];
                 eapply sameDisk_trans; eauto|].
         split; [done|]. split; [done|]. by right.
    * rewrite (Write_tooLong h (b0 :: body) (tar.stream tw) w2 Hcap);
        [|done].
      do 3 eexists. split; [reflexivity|].
      split; [eapply sameDisk_trans; [split; eauto|]; eauto|].
      right. split; [done|]. right. done.
  + edestruct (Write_run h body (tar.stream tw) w2)
      as [(code & w3 & -> & Hd3 & Hf3)|(w3 & -> & Hd3 & Hf3)];
      [rewrite Hcap; simpl; lia| |].
    * do 3 eexists. split; [reflexivity|].
      split; [eapply sameDisk_trans; [split; eauto|];
              eapply sameDisk_trans; eauto|].
      right. split; [done|]. left. eexists. split; [done|].
      rewrite <- Hfl1. destruct Hf as [Hf|[Hf ->]]; [|congruence].
      rewrite Hf, Hf3. simpl; auto.
    * do 3 eexists. split; [reflexivity|].
      split; [eapply sameDisk_trans; [split; eauto|];
              eapply sameDisk_trans; eauto|].
      split; [done|]. split; [done|]. by left.
Qed.

End TarWriter.

(** *** Entries appended by the archive functions *)

Section Appends.

Lemma ToSlash_unix path : filepath.ToSlash path = path.
Proof. reflexivity. Qed.

Lemma appends_ret {A} (a : A) : appends (ret a) [].
Proof.
intros tw w a' tw' w' H. injection H as _ <- <-. by exists [].
Qed.

Lemma appends_fail {A} e items : appends (@fail Out A e) items.
Proof. intros tw w a tw' w' H. discriminate. Qed.

Lemma appends_check err : appends (check err) [].
Proof. destruct err; [apply appends_fail|apply appends_ret]. Qed.

Lemma appends_marshalled r : appends (marshalled r) [].
Proof. destruct r; [apply appends_fail|apply appends_ret]. Qed.

Lemma returns_marshalled {S} r (out : bytes) :
  returns (@marshalled S r) out -> r = inr out.
Proof.
intros (s & s' & H). destruct r; [discriminate|].
by injection H as -> _.
Qed.

Lemma appends_bind {A B} (m : M Out A) (k : A -> M Out B) l1 l2 :
  appends m l1 ->
  (forall a, returns m a -> appends (k a) l2) ->
  appends (bind m k) (l1 ++ l2)%list.
Proof.
intros Hm Hk tw w b tw' w' H.
apply bind_inr in H as (a & [tw1 w1] & H1 & H2).
destruct (Hm _ _ _ _ _ H1) as (ts1 & Hl1 & Hs1).
assert (Hr : returns m a) by (do 2 eexists; exact H1).
destruct (Hk a Hr _ _ _ _ _ H2) as (ts2 & Hl2 & Hs2).
exists (ts1 ++ ts2)%list. split.
- rewrite !length_app. lia.
- rewrite Hs2, Hs1, zip_with_app, rev_app_distr, app_assoc by done. done.
Qed.

Lemma appends_forM_ {A} (l : list A) (body : A -> M Out unit) g :
  Forall (fun x => appends (body x) (g x)) l ->
  appends (forM_ l body) (flat_map g l).
Proof.
induction 1 as [|x l Hx Hl IH]; [apply appends_ret|].
simpl. apply appends_bind; [exact Hx|]. intros _ _. exact IH.
Qed.

Lemma appends_writeToTar name body :
  appends (writeToTar name body) [(name, body)].
Proof.
intros tw w a tw' w' H.
destruct (writeToTarOn_run filepath.Separator name body tw w)
  as (t & r & tw1 & w1 & Hrun & _ & Hres).
unfold writeToTar in H. rewrite Hrun in H. injection H as -> -> ->.
simpl in Hres. destruct Hres as [Hres _].
exists [t]. split; [done|]. rewrite Hres. reflexivity.
Qed.

Lemma flat_map_singleton {A B} (f : A -> B) (l : list A) :
  flat_map (fun x => [f x]) l = map f l.
Proof. induction l; simpl; congruence. Qed.

Lemma appends_bind_nil {A B} (m : M Out A) (k : A -> M Out B) l :
  appends m [] ->
  (forall a, returns m a -> appends (k a) l) ->
  appends (bind m k) l.
Proof. apply (appends_bind m k [] l). Qed.

Lemma writeTarContents_eq E raw metadata lock templates schema files deps
      prefix :
  writeTarContents E (mkChart raw metadata lock templates schema files deps)
                   prefix =
  (check (validateName (Metadata.Name metadata)) ;;
   let base := filepath.Join [prefix; Metadata.Name metadata] in
   cdata <- marshalled (yamlMarshalMetadata E metadata) ;;
   writeToTar (filepath.Join [base; ChartfileName E]) cdata ;;
   match lock with
   | Some l =>
       ldata <- marshalled (yamlMarshalLock E l) ;;
       writeToTar (filepath.Join [base; "Chart.lock"]) ldata
   | None => ret tt
   end ;;
   forM_ raw (fun f =>
     if String.eqb (File.Name f) (ValuesfileName E)
     then writeToTar (filepath.Join [base; ValuesfileName E]) (File.Data f)
     else ret tt) ;;
   match schema with
   | Some sch =>
       if negb (json.Valid sch)
       then fail (ErrorString ("invalid JSON in " ++ SchemafileName E))
       else writeToTar (filepath.Join [base; SchemafileName E]) sch
   | None => ret tt
   end ;;
   forM_ templates (fun f =>
     writeToTar (filepath.Join [base; File.Name f]) (File.Data f)) ;;
   forM_ files (fun f =>
     writeToTar (filepath.Join [base; File.Name f]) (File.Data f)) ;;
   forM_ deps (fun dep =>
     writeTarContents E dep (filepath.Join [base; ChartsDir E]))).
Proof. reflexivity. Qed.

Lemma layout_eq E raw metadata lock templates schema files deps prefix :
  layout E (mkChart raw metadata lock templates schema files deps) prefix =
  (let base := filepath.Join [prefix; Metadata.Name metadata] in
   [(filepath.Join [base; ChartfileName E],
      document (yamlMarshalMetadata E metadata))]
    ++ match lock with
       | Some l => [(filepath.Join [base; "Chart.lock"],
                     document (yamlMarshalLock E l))]
       | None => []
       end
    ++ flat_map (fun f =>
         if String.eqb (File.Name f) (ValuesfileName E)
         then [(filepath.Join [base; ValuesfileName E], File.Data f)]
         else []) raw
    ++ match schema with
       | Some sch => [(filepath.Join [base; SchemafileName E], sch)]
       | None => []
       end
    ++ map (fun f => (filepath.Join [base; File.Name f], File.Data f))
           templates
    ++ map (fun f => (filepath.Join [base; File.Name f], File.Data f))
           files
    ++ flat_map (fun dep =>
         layout E dep (filepath.Join [base; ChartsDir E])) deps)%list.
Proof. reflexivity. Qed.

(** The entries of a successful [writeTarContents] are the layout of
    the chart, in its order. *)
Lemma writeTarContents_appends E c :
  forall prefix, appends (writeTarContents E c prefix) (layout E c prefix).
Proof.
induction c as [raw metadata lock templates schema files deps IH]
  using Chart_tree_ind.
intros prefix. rewrite writeTarContents_eq, layout_eq. cbv zeta.
apply appends_bind_nil; [apply appends_check|]. intros _ _.
apply appends_bind_nil; [apply appends_marshalled|]. intros cdata Hc.
apply returns_marshalled in Hc. rewrite Hc.
change (document (inr cdata)) with cdata.
apply appends_bind; [apply appends_writeToTar|]. intros _ _.
apply appends_bind.
{ destruct lock as [l|]; [|apply appends_ret].
  apply appends_bind_nil; [apply appends_marshalled|]. intros ldata Hl.
  apply returns_marshalled in Hl. rewrite Hl. apply appends_writeToTar. }
intros _ _. apply appends_bind.
{ apply appends_forM_. apply Forall_forall. intros f _.
  destruct (String.eqb _ _); [apply appends_writeToTar|apply appends_ret]. }
intros _ _. apply appends_bind.
{ destruct schema as [sch|]; [|apply appends_ret].
  destruct (json.Valid sch); [apply appends_writeToTar|apply appends_fail]. }
intros _ _. apply appends_bind.
{ rewrite <- flat_map_singleton. apply appends_forM_.
  apply Forall_forall. intros f _. apply appends_writeToTar. }
intros _ _. apply appends_bind.
{ rewrite <- flat_map_singleton. apply appends_forM_.
  apply Forall_forall. intros f _. apply appends_writeToTar. }
intros _ _. apply appends_forM_.
eapply Forall_impl; [exact IH|]. intros dep Hdep. apply Hdep.
Qed.

End Appends.

(** *** The file system *)

Section FileSystem.

Lemma sameDisk_madeDirs w w1 : sameDisk w w1 -> madeDirs w w1.
Proof.
intros [Hfs Htr]. unfold madeDirs, fileAt. rewrite Hfs, Htr.
repeat split; [done|]. exists []. by rewrite app_nil_r.
Qed.

Lemma always_weaken {S A} (R R' : S -> S -> Prop) (m : M S A) :
  (forall s s', R s s' -> R' s s') -> always R m -> always R' m.
Proof. intros H Hm s. apply H, Hm. Qed.

Lemma always_modify {S} (R : S -> S -> Prop) (f : S -> S) :
  (forall s, R s (f s)) -> always R (modify f).
Proof. intros H s. apply H. Qed.

Lemma always_fault : always sameDisk fault.
Proof.
intros w. unfold fault. by destruct (faults w) as [|[code|] rest].
Qed.

Lemma always_time_Now : always sameDisk time_Now.
Proof. intros w. unfold time_Now. by destruct (clock w). Qed.

Lemma always_absent {A} path : always sameDisk (@absent A path).
Proof. by intros w. Qed.

Lemma always_os_Stat path : always sameDisk (os_Stat path).
Proof.
unfold os_Stat. apply always_bind; [apply _|apply always_fault|].
intros _. destruct (String.eqb path ""); [apply always_fail; apply _|].
apply always_bind; [apply _|apply always_gets; apply _|].
intros [n|]; [apply always_ret; apply _|apply always_absent].
Qed.

Lemma always_parentIsDir key : always sameDisk (parentIsDir key).
Proof.
unfold parentIsDir.
apply always_bind; [apply _|apply always_gets; apply _|].
intros [[|]|];
  [apply always_ret; apply _|apply always_fail; apply _|apply always_absent].
Qed.

Lemma always_os_Mkdir path : always madeDirs (os_Mkdir path).
Proof.
unfold os_Mkdir.
apply always_bind; [apply _| |].
{ eapply always_weaken; [apply sameDisk_madeDirs|apply always_fault]. }
intros _. apply always_bind; [apply _| |].
{ eapply always_weaken; [apply sameDisk_madeDirs|apply always_parentIsDir]. }
intros _. intros w. unfold bind, gets, kindAt.
destruct (fs w !! filepath.Clean path) as [n|] eqn:Hn; [reflexivity|].
unfold modify, setFs, record, madeDirs, fileAt. simpl.
repeat split.
- intros q. destruct (decide (filepath.Clean path = q)) as [<-|Hq].
  + by rewrite lookup_insert_eq, Hn.
  + by rewrite lookup_insert_ne.
- intros q Hq. destruct (decide (filepath.Clean path = q)) as [<-|Hne].
  + by rewrite lookup_insert_eq.
  + by rewrite lookup_insert_ne.
- eexists. split; [reflexivity|]. by constructor.
Qed.

Lemma always_mkdirAllChain chain : always madeDirs (mkdirAllChain chain).
Proof.
induction chain as [|path parents IH]; [apply always_ret; apply _|].
intros w. simpl.
pose proof (always_os_Stat path w) as H1.
destruct (os_Stat path w) as [[e|[|]] w1]; simpl in H1;
  try (by apply sameDisk_madeDirs).
pose proof (IH w1) as H2.
destruct (mkdirAllChain parents w1) as [[e2|[]] w2]; simpl in H2.
{ etransitivity; [apply sameDisk_madeDirs; exact H1|exact H2]. }
pose proof (always_os_Mkdir path w2) as H3.
destruct (os_Mkdir path w2) as [[e3|[]] w3]; simpl in H3.
- pose proof (always_os_Stat path w3) as H4.
  assert (madeDirs w (snd (os_Stat path w3))) as H5.
  { etransitivity; [apply sameDisk_madeDirs; exact H1|].
    etransitivity; [exact H2|]. etransitivity; [exact H3|].
    apply sameDisk_madeDirs; exact H4. }
  by destruct (os_Stat path w3) as [[e4|[|]] w4].
- etransitivity; [apply sameDisk_madeDirs; exact H1|].
  etransitivity; [exact H2|exact H3].
Qed.

Lemma always_os_MkdirAll path : always madeDirs (os_MkdirAll path).
Proof. apply always_mkdirAllChain. Qed.

Lemma always_ensureDir dir : always madeDirs (ensureDir dir).
Proof.
intros w. unfold ensureDir.
pose proof (always_os_Stat dir w) as H1.
destruct (os_Stat dir w) as [[e|[|]] w1]; simpl in H1;
  try (by apply sameDisk_madeDirs).
destruct (isNotExist e); [|by apply sameDisk_madeDirs].
etransitivity; [apply sameDisk_madeDirs; exact H1|].
apply always_os_MkdirAll.
Qed.

End FileSystem.

(** *** The kinds of errors *)

Section Errors.
Context {S : Type} (P : error -> Prop).

Lemma failsOnly_ret {A} (a : A) : failsOnly P (@ret S A a).
Proof. intros s e H. discriminate. Qed.

Lemma failsOnly_fail {A} e : P e -> failsOnly P (@fail S A e).
Proof. intros He s e' H. by injection H as <-. Qed.

Lemma failsOnly_gets {A} (f : S -> A) : failsOnly P (gets f).
Proof. intros s e H. discriminate. Qed.

Lemma failsOnly_modify (f : S -> S) : failsOnly P (modify f).
Proof. intros s e H. discriminate. Qed.

Lemma failsOnly_bind {A B} (m : M S A) (k : A -> M S B) :
  failsOnly P m -> (forall a, failsOnly P (k a)) -> failsOnly P (bind m k).
Proof.
intros Hm Hk s e. unfold bind. specialize (Hm s).
destruct (m s) as [[e0|a] s1]; simpl in *.
- intros [= <-]. by apply Hm.
- apply Hk.
Qed.

Lemma failsOnly_forM_ {A} (l : list A) (body : A -> M S unit) :
  (forall x, failsOnly P (body x)) -> failsOnly P (forM_ l body).
Proof.
intros H. induction l as [|x l IH]; [apply failsOnly_ret|].
apply failsOnly_bind; [apply H|]. intros _. apply IH.
Qed.

End Errors.

Lemma failsOnly_forM__In {S A} (P : error -> Prop) (l : list A)
      (body : A -> M S unit) :
  (forall x, In x l -> failsOnly P (body x)) -> failsOnly P (forM_ l body).
Proof.
induction l as [|x l IH]; intros H; [apply failsOnly_ret|].
apply failsOnly_bind; [apply H; by left|].
intros _. apply IH. intros y Hy. apply H. by right.
Qed.

Lemma failsOnly_weaken {S A} (P Q : error -> Prop) (m : M S A) :
  (forall e, P e -> Q e) -> failsOnly P m -> failsOnly Q m.
Proof. intros H Hm s e He. apply H. by eapply Hm. Qed.

Lemma failsOnly_fault : failsOnly isOsError fault.
Proof.
intros w e. unfold fault. destruct (faults w) as [|[code|] rest]; simpl;
  try discriminate. by intros [= <-].
Qed.

Lemma failsOnly_absent {A} path : failsOnly isOsError (@absent A path).
Proof.
intros w e. unfold absent, missing. simpl.
by destruct (belowFile w path); intros [= <-].
Qed.

Lemma failsOnly_os_Stat path : failsOnly isOsError (os_Stat path).
Proof.
unfold os_Stat. apply failsOnly_bind; [apply failsOnly_fault|]. intros _.
destruct (String.eqb path ""); [by apply failsOnly_fail|].
apply failsOnly_bind; [apply failsOnly_gets|].
intros [n|]; [apply failsOnly_ret|apply failsOnly_absent].
Qed.

Lemma failsOnly_parentIsDir key : failsOnly isOsError (parentIsDir key).
Proof.
unfold parentIsDir. apply failsOnly_bind; [apply failsOnly_gets|].
intros [[|]|];
  [apply failsOnly_ret|by apply failsOnly_fail|apply failsOnly_absent].
Qed.

Lemma failsOnly_os_Mkdir path : failsOnly isOsError (os_Mkdir path).
Proof.
unfold os_Mkdir. apply failsOnly_bind; [apply failsOnly_fault|]. intros _.
apply failsOnly_bind; [apply failsOnly_parentIsDir|]. intros _.
apply failsOnly_bind; [apply failsOnly_gets|].
intros [n|]; [by apply failsOnly_fail|].
apply failsOnly_bind; [apply failsOnly_modify|]. intros _.
apply failsOnly_modify.
Qed.

Lemma failsOnly_mkdirAllChain chain : failsOnly isOsError (mkdirAllChain chain).
Proof.
induction chain as [|path parents IH]; [apply failsOnly_ret|].
intros w e. simpl.
destruct (os_Stat path w) as [[e1|[|]] w1]; simpl; try discriminate.
2: { by intros [= <-]. }
pose proof (IH w1 e) as H2.
destruct (mkdirAllChain parents w1) as [[e2|[]] w2]; simpl in *.
{ intros [= <-]. by apply H2. }
pose proof (failsOnly_os_Mkdir path w2 e) as H3.
destruct (os_Mkdir path w2) as [[e3|[]] w3]; simpl in *; [|discriminate].
destruct (os_Stat path w3) as [[e4|[|]] w4]; simpl; try discriminate;
  intros [= <-]; by apply H3.
Qed.

Lemma failsOnly_os_Create path : failsOnly isOsError (os_Create path).
Proof.
unfold os_Create. apply failsOnly_bind; [apply failsOnly_fault|]. intros _.
apply failsOnly_bind; [apply failsOnly_parentIsDir|]. intros _.
apply failsOnly_bind; [apply failsOnly_gets|].
assert (Hok : failsOnly isOsError
  (modify (setFs (insert (filepath.Clean path) (Regular (Plain [])))) ;;
   modify (record (EvCreate (filepath.Clean path))) ;;
   ret (filepath.Clean path))).
{ apply failsOnly_bind; [apply failsOnly_modify|]. intros _.
  apply failsOnly_bind; [apply failsOnly_modify|]. intros _.
  apply failsOnly_ret. }
intros [[|]|]; [by apply failsOnly_fail|exact Hok..].
Qed.

Lemma failsOnly_ensureDir dir : failsOnly isDirError (ensureDir dir).
Proof.
intros w e. unfold ensureDir.
destruct (os_Stat dir w) as [[e1|[|]] w1]; simpl; try discriminate.
- destruct (isNotExist e1).
  + intros H. apply (failsOnly_mkdirAllChain _ w1) in H. by destruct e.
  + by intros [= <-].
- by intros [= <-].
Qed.

(** *** [writeTarContents] writes to the writer only *)

Lemma always_writeToTar name body : always sameDiskOut (writeToTar name body).
Proof.
intros [tw w].
destruct (writeToTarOn_run filepath.Separator name body tw w)
  as (t & r & tw1 & w1 & Hrun & Hd & _).
unfold writeToTar. rewrite Hrun. exact Hd.
Qed.

Lemma always_writeTarContents E c :
  forall prefix, always sameDiskOut (writeTarContents E c prefix).
Proof.
induction c as [raw metadata lock templates schema files deps IH]
  using Chart_tree_ind.
intros prefix. rewrite writeTarContents_eq. cbv zeta.
apply always_bind; [apply _|apply always_check; apply _|]. intros _.
apply always_bind; [apply _|apply always_marshalled; apply _|]. intros cdata.
apply always_bind; [apply _|apply always_writeToTar|]. intros _.
apply always_bind; [apply _| |].
{ destruct lock as [l|]; [|apply always_ret; apply _].
  apply always_bind; [apply _|apply always_marshalled; apply _|].
  intros ldata. apply always_writeToTar. }
intros _. apply always_bind; [apply _| |].
{ apply always_forM_; [apply _|]. intros f _.
  destruct (String.eqb _ _); [apply always_writeToTar|apply always_ret; apply _]. }
intros _. apply always_bind; [apply _| |].
{ destruct schema as [sch|]; [|apply always_ret; apply _].
  destruct (negb _); [apply always_fail; apply _|apply always_writeToTar]. }
intros _. apply always_bind; [apply _| |].
{ apply always_forM_; [apply _|]. intros f _. apply always_writeToTar. }
intros _. apply always_bind; [apply _| |].
{ apply always_forM_; [apply _|]. intros f _. apply always_writeToTar. }
intros _. apply always_forM_; [apply _|]. intros dep Hdep.
rewrite Forall_forall in IH. apply IH, Hdep.
Qed.

(** *** [os.Create] and the deferred function *)

Lemma os_Create_run path w :
  let key := filepath.Clean path in
  (exists e w1, os_Create path w = (inl e, w1) /\ sameDisk w w1)
  \/ (exists w1, os_Create path w = (inr key, w1) /\
                 fs w1 = <[key := Regular (Plain [])]> (fs w) /\
                 trace w1 = (trace w ++ [EvCreate key])%list).
Proof.
intros key.
destruct (os_Create path w) as [r w'] eqn:Hrun.
unfold os_Create in Hrun. fold key in Hrun. unfold bind at 1 in Hrun.
pose proof (always_fault w) as Hf.
destruct (fault w) as [[e|[]] w1]; simpl in Hf.
{ injection Hrun as <- <-. left; eauto. }
unfold bind at 1 in Hrun.
pose proof (always_parentIsDir key w1) as Hp.
destruct (parentIsDir key w1) as [[e|[]] w2]; simpl in Hp.
{ injection Hrun as <- <-. left. do 2 eexists. split; [done|].
  by etransitivity. }
assert (Hw : sameDisk w w2) by (by etransitivity).
destruct Hw as [Hfs Htr].
unfold bind, gets, modify, ret, fail, setFs, record in Hrun. simpl in Hrun.
destruct (kindAt w2 key) as [[|]|]; injection Hrun as <- <-.
- left. do 2 eexists. split; [done|]. by split.
- right. eexists. split; [done|]. simpl. by rewrite Hfs, Htr.
- right. eexists. split; [done|]. simpl. by rewrite Hfs, Htr.
Qed.

(** After the deferred function the file a call has created holds the
    archive, or is gone when the call rolls back. *)
Lemma deferred_run rollback tw zipper filename w :
  let key := filepath.Clean filename in
  (exists content, fs w !! key = Some (Regular content)) ->
  let w' := deferred rollback tw zipper key filename w in
  (forall q, q <> key -> fs w' !! q = fs w !! q) /\
  fs w' !! key =
    (if rollback then None
     else Some (Regular (Tgz zipper (rev (tar.stream tw))))) /\
  trace w' = (trace w ++ EvFlush key ::
                if rollback then [EvRemove key] else [])%list.
Proof.
intros key [content Hk]. unfold deferred, closeAll, kindAt. rewrite Hk.
unfold os_Remove, kindAt. fold key.
destruct rollback; simpl.
- rewrite lookup_insert_eq. simpl. repeat split.
  + intros q Hq. by rewrite lookup_delete_ne, lookup_insert_ne.
  + by rewrite lookup_delete_eq.
  + by rewrite <- app_assoc.
- repeat split.
  + intros q Hq. by rewrite lookup_insert_ne.
  + by rewrite lookup_insert_eq.
Qed.

(** *** The four ways [Save] ends *)

Lemma Save_run E c outDir w :
  let filename := archivePath c outDir in
  let key := filepath.Clean filename in
  (* rejected by the validation *)
  (exists msg,
      Validate E c = Some msg /\
      Save E c outDir w =
        (("", Some (Wrapped "chart validation: " (ValidationErr msg))), w))
  (* no directory, or no file *)
  \/ (Validate E c = None /\
      exists err w1,
        Save E c outDir w = (("", Some err), w1) /\
        madeDirs w w1 /\ isDirError err)
  (* rolled back *)
  \/ (Validate E c = None /\
      exists err w1 w2 tw w3 w',
        madeDirs w w1 /\
        writeTarContents E c "" (tar.NewWriter, w2) = (inl err, (tw, w3)) /\
        Save E c outDir w = ((filename, Some err), w') /\
        (forall q, q <> key -> fs w' !! q = fs w1 !! q) /\
        fs w' !! key = None /\
        trace w' = (trace w1 ++ [EvCreate key; EvFlush key; EvRemove key])%list)
  (* committed *)
  \/ (Validate E c = None /\
      exists w1 w2 tw w3 w',
        madeDirs w w1 /\
        writeTarContents E c "" (tar.NewWriter, w2) = (inr tt, (tw, w3)) /\
        Save E c outDir w = ((filename, None), w') /\
        (forall q, q <> key -> fs w' !! q = fs w1 !! q) /\
        fs w' !! key = Some (Regular (Tgz helmGzip (rev (tar.stream tw)))) /\
        trace w' = (trace w1 ++ [EvCreate key; EvFlush key])%list).
Proof.
intros filename key. unfold Save.
destruct (Validate E c) as [msg|] eqn:Hv; [left; eauto|right].
change (filepath.Join [outDir; _]) with filename.
pose proof (always_ensureDir (filepath.Dir filename) w) as Hdirs.
pose proof (failsOnly_ensureDir (filepath.Dir filename) w) as Herr.
destruct (ensureDir (filepath.Dir filename) w) as [[err|[]] w1];
  simpl in Hdirs, Herr.
{ left. split; [done|]. do 2 eexists. split; [done|]. split; [done|].
  by apply Herr. }
destruct (os_Create_run filename w1)
  as [(err & w2 & Hc & Hd)|(w2 & Hc & Hfs2 & Htr2)].
{ pose proof (failsOnly_os_Create filename w1 err) as Herr2.
  rewrite Hc in *. left. split; [done|]. do 2 eexists.
  split; [done|]. split.
  - etransitivity; [exact Hdirs|by apply sameDisk_madeDirs].
  - specialize (Herr2 eq_refl). by destruct err. }
fold key in Hc, Hfs2, Htr2. rewrite Hc. right. fold helmGzip.
pose proof (always_writeTarContents E c "" (tar.NewWriter, w2)) as Hsame.
destruct (writeTarContents E c "" (tar.NewWriter, w2)) as [r [tw w3]] eqn:Hw.
unfold sameDiskOut in Hsame. simpl in Hsame. destruct Hsame as [Hfs3 Htr3].
assert (Hk : exists content, fs w3 !! key = Some (Regular content)).
{ rewrite Hfs3, Hfs2, lookup_insert_eq. eauto. }
assert (Hother : forall q, q <> key -> fs w3 !! q = fs w1 !! q).
{ intros q Hq. by rewrite Hfs3, Hfs2, lookup_insert_ne. }
destruct r as [err|[]].
- left. split; [done|].
  destruct (deferred_run true tw helmGzip filename w3 Hk)
    as (Hq & Hkey & Htr).
  fold key in Hq, Hkey, Htr.
  exists err, w1, w2, tw, w3. eexists. split; [done|]. split; [done|].
  split; [reflexivity|]. fold key. repeat split.
  + intros q Hne. rewrite Hq by done. by apply Hother.
  + exact Hkey.
  + rewrite Htr, Htr3, Htr2, <- app_assoc. reflexivity.
- right. split; [done|].
  destruct (deferred_run false tw helmGzip filename w3 Hk)
    as (Hq & Hkey & Htr).
  fold key in Hq, Hkey, Htr.
  exists w1, w2, tw, w3. eexists. split; [done|]. split; [done|].
  split; [reflexivity|]. fold key. repeat split.
  + intros q Hne. rewrite Hq by done. by apply Hother.
  + exact Hkey.
  + rewrite Htr, Htr3, Htr2, <- app_assoc. reflexivity.
Qed.

(* ===================================================================== *)
(** ** The name validator                                                 *)
(* ===================================================================== *)

Lemma validateName_ok_iff n : validateName n = None <-> filepath.Base n = n.
Proof.
unfold validateName.
destruct (String.eqb_spec (filepath.Base n) n) as [H|H]; simpl; split;
  congruence.
Qed.

(** C1, as the code has it. For every name other than [.], [..] and the
    bare separator, [validateName] succeeds exactly when the name is not
    empty and holds no path separator, which is exactly when
    [filepath.Base] gives the name back; when it fails, the error is
    [ErrInvalidChartName] with the offending name. *)
Theorem validateName_spec (n : string)
  (Hdot : n <> ".") (Hdotdot : n <> "..") (Hsep : n <> "/") :
  (validateName n = None <-> n <> "" /\ filepath.hasSeparator n = false)
  /\ (validateName n = None <-> filepath.Base n = n)
  /\ (validateName n <> None ->
      validateName n = Some (ErrInvalidChartName n)).
Proof.
split; [|split].
- rewrite validateName_ok_iff, Base_fixed_iff. intuition congruence.
- apply validateName_ok_iff.
- unfold validateName. by destruct (negb _).
Qed.

Lemma validateName_spec_witness :
  (validateName "nginx" = None <->
   "nginx" <> "" /\ filepath.hasSeparator "nginx" = false)
  /\ (validateName "nginx" = None <-> filepath.Base "nginx" = "nginx")
  /\ (validateName "nginx" <> None ->
      validateName "nginx" = Some (ErrInvalidChartName "nginx")).
Proof. apply (validateName_spec "nginx"); discriminate. Defined.

(** C1, as the claim has it, fails: the code accepts [..], [.] and the
    bare separator, and rejects the empty name, which holds no
    separator and is neither [.] nor [..]. *)
Lemma validateName_dots_and_empty :
  validateName ".." = None
  /\ validateName "." = None
  /\ validateName "/" = None /\ filepath.hasSeparator "/" = true
  /\ validateName "" = Some (ErrInvalidChartName "")
  /\ filepath.hasSeparator "" = false.
Proof. repeat split. Qed.

(** *** Runs without failures *)

Lemma always_inWorld {A} (R : World -> World -> Prop) (m : M World A) :
  always R m -> always (fun s s1 : Out => R (snd s) (snd s1)) (inWorld m).
Proof.
intros H [tw w]. unfold inWorld. specialize (H w).
by destruct (m w) as [r w1].
Qed.

Lemma always_quiet_fault : always quiet fault.
Proof.
intros w. unfold fault, quiet.
destruct (faults w) as [|[code|] rest] eqn:Hf; simpl; intros H;
  congruence.
Qed.

Lemma always_quiet_time_Now : always quiet time_Now.
Proof. intros w. unfold time_Now, quiet. by destruct (clock w). Qed.

Lemma always_quiet_WriteHeader h : always quietOut (WriteHeader h).
Proof.
unfold WriteHeader.
apply always_bind; [apply _|apply always_gets; apply _|]. intros tw.
apply always_bind; [apply _| |].
{ destruct (tar.stream tw) as [|e es]; [apply always_ret; apply _|].
  destruct (0 <? _)%Z; [apply always_fail|apply always_ret]; apply _. }
intros _. apply always_bind; [apply _| |].
{ apply (always_inWorld quiet), always_quiet_fault. }
intros _. apply always_modify. intros [tw' w] H. exact H.
Qed.

Lemma always_quiet_Write b : always quietOut (Write b).
Proof.
unfold Write.
apply always_bind; [apply _|apply always_gets; apply _|]. intros tw.
destruct (tar.stream tw) as [|e es].
{ destruct b; [apply always_ret|apply always_fail]; apply _. }
cbv zeta. destruct (_ <? _)%Z.
all: apply always_bind; [apply _| |intros _; first [apply always_fail|apply always_ret]; apply _].
all: match goal with |- always _ (match ?l with _ => _ end) => destruct l end;
  [apply always_ret; apply _|].
all: apply always_bind; [apply _| |].
1,3: apply (always_inWorld quiet), always_quiet_fault.
all: intros _; apply always_modify; intros [tw' w] H; exact H.
Qed.

Lemma always_quiet_writeToTar name body :
  always quietOut (writeToTar name body).
Proof.
unfold writeToTar, writeToTarOn.
apply always_bind; [apply _| |].
{ apply (always_inWorld quiet), always_quiet_time_Now. }
intros t. apply always_bind; [apply _|apply always_quiet_WriteHeader|].
intros _. apply always_quiet_Write.
Qed.

Lemma runsClean_ret {A} (a : A) : runsClean (ret a).
Proof. intros tw w Hf Hr. by exists a, tw, w. Qed.

Lemma runsClean_bind {A B} (m : M Out A) (k : A -> M Out B) :
  runsClean m -> (forall a, returns m a -> runsClean (k a)) ->
  runsClean (bind m k).
Proof.
intros Hm Hk tw w Hf Hr.
destruct (Hm tw w Hf Hr) as (a & tw1 & w1 & H1 & Hf1 & Hr1).
assert (Hret : returns m a) by (do 2 eexists; exact H1).
destruct (Hk a Hret tw1 w1 Hf1 Hr1) as (b & tw2 & w2 & H2 & Hf2 & Hr2).
exists b, tw2, w2. unfold bind. by rewrite H1.
Qed.

Lemma runsClean_forM_ {A} (l : list A) (body : A -> M Out unit) :
  Forall (fun x => runsClean (body x)) l -> runsClean (forM_ l body).
Proof.
induction 1 as [|x l Hx Hl IH]; [apply runsClean_ret|].
simpl. apply runsClean_bind; [exact Hx|]. intros _ _. exact IH.
Qed.

Lemma fits_app items1 items2 :
  fits (items1 ++ items2) = fits items1 && fits items2.
Proof. apply forallb_app. Qed.

Lemma fits_flat_map {A} (g : A -> list (string * bytes)) l :
  fits (flat_map g l) = true -> forall x, In x l -> fits (g x) = true.
Proof.
induction l as [|y l IH]; [done|]. simpl. rewrite fits_app.
intros H x [->|Hx]; apply andb_true_iff in H as [H1 H2]; auto.
Qed.

Lemma fits_flat_map_2 {A} (g : A -> list (string * bytes)) l :
  (forall x, In x l -> fits (g x) = true) -> fits (flat_map g l) = true.
Proof.
induction l as [|y l IH]; [done|]. simpl. rewrite fits_app. intros H.
apply andb_true_iff. split; [apply H; by left|].
apply IH. intros x Hx. apply H. by right.
Qed.

Lemma fits_map {A} (g : A -> string * bytes) l :
  fits (map g l) = true -> forall x, In x l -> takesPayload (g x) = true.
Proof.
unfold fits. rewrite forallb_forall. intros H x Hx. apply H.
by apply in_map.
Qed.

Lemma fits_single item : fits [item] = takesPayload item.
Proof. unfold fits. simpl. apply andb_true_r. Qed.

Lemma takesPayload_real base n data :
  realElement n = true ->
  takesPayload (filepath.Join [base; n], data) = true.
Proof.
intros Hn. unfold takesPayload. cbn [fst].
by rewrite hasSuffixSlash_Join_real.
Qed.

(** The file names of the package are real path elements. *)
Lemma fileNames_real E :
  realElement (ChartfileName E) = true
  /\ realElement (ValuesfileName E) = true
  /\ realElement (SchemafileName E) = true
  /\ realElement (ChartsDir E) = true.
Proof.
pose proof (fileNames E) as H.
apply andb_prop in H as [H H4]. apply andb_prop in H as [H H3].
by apply andb_prop in H as [H1 H2].
Qed.

Lemma runsClean_writeToTar name body :
  takesPayload (name, body) = true -> runsClean (writeToTar name body).
Proof.
intros Htakes tw w Hf Hr.
pose proof (always_quiet_writeToTar name body (tw, w)) as Hq.
destruct (writeToTarOn_run filepath.Separator name body tw w)
  as (t & r & tw1 & w1 & Hrun & _ & Hres).
fold (writeToTar name body) in Hrun. rewrite Hrun in Hq.
unfold quietOut, quiet in Hq. simpl in Hq. cbv zeta in Hres.
unfold tar.isDirectory in Hres. cbn [tar.Name] in Hres.
rewrite ToSlash_unix in Hres.
destruct r as [e|[]].
- exfalso.
  destruct Hres as [(_ & [[_ Hnr]|(code & _ & Hin)])
                   |(_ & [(code & _ & Hin)|(_ & Hdir & Hbody & _)])].
  + congruence.
  + by rewrite Hf in Hin.
  + by rewrite Hf in Hin.
  + unfold takesPayload in Htakes. simpl in Htakes. rewrite Hdir in Htakes.
    by destruct body.
- destruct Hres as (Hs & _ & Hdir). exists tt, tw1, w1. split; [done|].
  split; [by apply Hq|].
  unfold ready, tar.remaining, tar.capacity, tar.isDirectory.
  rewrite Hs. cbn [tar.header tar.payload tar.Name tar.Size].
  destruct Hdir as [->| ->]; [|by destruct (tar.hasSuffixSlash name)].
  rewrite Z.sub_diag. reflexivity.
Qed.

Lemma cleanFails_now {A B} (m : M Out A) (k : A -> M Out B) e :
  cleanFails m e -> cleanFails (bind m k) e.
Proof.
intros Hm tw w Hf Hr. specialize (Hm tw w Hf Hr). unfold bind.
destruct (m (tw, w)) as [[e0|a] s1]; simpl in *; congruence.
Qed.

Lemma cleanFails_later {A B} (m : M Out A) (k : A -> M Out B) e :
  runsClean m -> (forall a, cleanFails (k a) e) -> cleanFails (bind m k) e.
Proof.
intros Hm Hk tw w Hf Hr.
destruct (Hm tw w Hf Hr) as (a & tw1 & w1 & H1 & Hf1 & Hr1).
unfold bind. rewrite H1. by apply Hk.
Qed.

Lemma writeTarContents_runsClean E c :
  buildable E c = true ->
  forall prefix,
    fits (layout E c prefix) = true ->
    runsClean (writeTarContents E c prefix).
Proof.
induction c as [raw metadata lock templates schema files deps IH]
  using Chart_tree_ind.
intros Hb prefix Hfits. simpl in Hb.
apply andb_prop in Hb as [Hb Hdeps]. apply andb_prop in Hb as [Hb Hsch].
apply andb_prop in Hb as [Hb Hlock]. apply andb_prop in Hb as [Hname Hmd].
rewrite layout_eq in Hfits. cbv zeta in Hfits.
rewrite !fits_app in Hfits.
apply andb_prop in Hfits as [Hf1 Hfits]. apply andb_prop in Hfits as [Hf2 Hfits].
apply andb_prop in Hfits as [Hf3 Hfits]. apply andb_prop in Hfits as [Hf4 Hfits].
apply andb_prop in Hfits as [Hf5 Hfits]. apply andb_prop in Hfits as [Hf6 Hf7].
rewrite writeTarContents_eq. cbv zeta.
destruct (validateName (Metadata.Name metadata)); [discriminate|].
destruct (yamlMarshalMetadata E metadata) as [|cdata]; [discriminate|].
rewrite fits_single in Hf1.
apply runsClean_bind; [apply runsClean_ret|]. intros _ _.
apply runsClean_bind; [apply runsClean_ret|]. intros cdata' Hc.
apply (returns_marshalled (inr cdata)) in Hc. injection Hc as <-.
apply runsClean_bind; [by apply runsClean_writeToTar|]. intros _ _.
apply runsClean_bind.
{ destruct lock as [l|]; [|apply runsClean_ret].
  destruct (yamlMarshalLock E l) as [|ldata]; [discriminate|].
  rewrite fits_single in Hf2.
  apply runsClean_bind; [apply runsClean_ret|]. intros ldata' Hl.
  apply (returns_marshalled (inr ldata)) in Hl. injection Hl as <-.
  by apply runsClean_writeToTar. }
intros _ _. apply runsClean_bind.
{ apply runsClean_forM_, Forall_forall. intros f Hin.
  apply list_elem_of_In in Hin.
  pose proof (fits_flat_map _ _ Hf3 f Hin) as Hf. cbv beta in Hf.
  revert Hf. destruct (String.eqb _ _); intros Hf; [|apply runsClean_ret].
  rewrite fits_single in Hf. by apply runsClean_writeToTar. }
intros _ _. apply runsClean_bind.
{ destruct schema as [sch|]; [|apply runsClean_ret].
  rewrite Hsch. rewrite fits_single in Hf4. by apply runsClean_writeToTar. }
intros _ _. apply runsClean_bind.
{ apply runsClean_forM_, Forall_forall. intros f Hin.
  apply list_elem_of_In in Hin.
  apply runsClean_writeToTar. apply (fits_map _ _ Hf5 f Hin). }
intros _ _. apply runsClean_bind.
{ apply runsClean_forM_, Forall_forall. intros f Hin.
  apply list_elem_of_In in Hin.
  apply runsClean_writeToTar. apply (fits_map _ _ Hf6 f Hin). }
intros _ _. apply runsClean_forM_.
rewrite Forall_forall in IH. apply Forall_forall. intros dep Hdep.
apply IH; [done| |].
- rewrite forallb_forall in Hdeps. apply Hdeps.
  by apply list_elem_of_In.
- apply (fits_flat_map _ _ Hf7). by apply list_elem_of_In.
Qed.

Lemma realNames_eq raw metadata lock templates schema files deps :
  realNames (mkChart raw metadata lock templates schema files deps)
  = realElement (Metadata.Name metadata) && forallb realNames deps.
Proof.
unfold realNames. cbn [treeNames forallb]. f_equal.
induction deps as [|d ds IH]; [done|].
cbn [flat_map forallb]. by rewrite forallb_app, IH.
Qed.

(** The entries of a tree of charts with real names, below a relative
    prefix, have relative paths: none ends in a slash. *)
Lemma layout_fits E c :
  realNames c = true ->
  forall prefix,
    filepath.isRooted prefix = false -> fits (layout E c prefix) = true.
Proof.
induction c as [raw metadata lock templates schema files deps IH]
  using Chart_tree_ind.
intros Hreal prefix Hprefix. rewrite realNames_eq in Hreal.
apply andb_prop in Hreal as [Hname Hdeps].
destruct (isRooted_Join_name prefix _ Hname Hprefix) as [Hne Hrel].
rewrite layout_eq. cbv zeta.
set (base := filepath.Join [prefix; Metadata.Name metadata]) in *.
assert (Hentry : forall f (data : bytes),
           takesPayload (filepath.Join [base; f], data) = true).
{ intros f data. unfold takesPayload. cbn [fst].
  by rewrite hasSuffixSlash_Join_relative. }
assert (Hmap : forall fl : list File.t,
           fits (map (fun f => (filepath.Join [base; File.Name f],
                                File.Data f)) fl) = true).
{ intros fl. unfold fits. apply forallb_forall. intros item Hin.
  apply in_map_iff in Hin as (f & <- & _). apply Hentry. }
rewrite !fits_app, !Hmap, fits_single, Hentry. cbn [andb].
repeat (apply andb_true_iff; split).
- destruct lock; [|done]. by rewrite fits_single, Hentry.
- apply fits_flat_map_2. intros f _.
  destruct (String.eqb _ _); [|done]. by rewrite fits_single, Hentry.
- destruct schema; [|done]. by rewrite fits_single, Hentry.
- apply fits_flat_map_2. intros dep Hdep.
  rewrite Forall_forall in IH. rewrite forallb_forall in Hdeps.
  apply IH; [by apply list_elem_of_In|by apply Hdeps|].
  by rewrite isRooted_Join.
Qed.

(* ===================================================================== *)
(** ** The archive builder                                                *)
(* ===================================================================== *)

Lemma untimed_entryAt ts items :
  length ts = length items ->
  map untimed (zip_with entryAt ts items) = map untimedItem items.
Proof.
revert items. induction ts as [|t ts IH]; intros [|item items] Hlen;
  try discriminate; [done|].
simpl. f_equal. apply IH. by injection Hlen.
Qed.

(** An invalid name stops [writeTarContents] before anything is
    written. *)
Lemma writeTarContents_invalid_name E c prefix err st :
  validateName (Name c) = Some err ->
  writeTarContents E c prefix st = (inl err, st).
Proof.
destruct c as [raw metadata lock templates schema files deps].
intros H. rewrite writeTarContents_eq. unfold Name in H. simpl in H.
unfold bind at 1. by rewrite H.
Qed.

(** C2. [writeTarContents] validates the name of the chart first: with
    an invalid name it returns the error of [validateName] and leaves
    the writer as it was. When it succeeds, the entries it has appended
    are, in this order and with [base = prefix/name]: the metadata at
    [base/<ChartfileName>], the lock document at [base/Chart.lock] if
    there is one, the values file for the raw files of that name, the
    schema if there is one, the templates and the static files in
    collection order, and for every dependency in list order the
    entries of the recursive call at prefix [base/charts]: plain entries
    of the same stream. It does succeed when every chart of the tree has
    a valid name, documents that serialize and a schema that is absent
    or well-formed, no write fails, the writer takes a new entry, and
    every entry is taken whole: the tar writer makes a directory of an
    entry whose path ends in a slash, and a directory takes no payload.
    Every entry is taken whole when the names of the charts are real
    path elements and the prefix is relative. *)
Theorem writeTarContents_order E c prefix tw w :
  (forall err, validateName (Name c) = Some err ->
               writeTarContents E c prefix (tw, w) = (inl err, (tw, w)))
  /\ (forall tw' w',
         writeTarContents E c prefix (tw, w) = (inr tt, (tw', w')) ->
         validateName (Name c) = None /\
         exists ts,
           length ts = length (layout E c prefix) /\
           rev (tar.stream tw') =
             (rev (tar.stream tw)
                ++ zip_with entryAt ts (layout E c prefix))%list)
  /\ (forall raw metadata lock templates schema files deps,
         c = mkChart raw metadata lock templates schema files deps ->
         let base := filepath.Join [prefix; Metadata.Name metadata] in
         layout E c prefix =
           ([(filepath.Join [base; ChartfileName E],
              document (yamlMarshalMetadata E metadata))]
            ++ match lock with
               | Some l => [(filepath.Join [base; "Chart.lock"],
                             document (yamlMarshalLock E l))]
               | None => []
               end
            ++ flat_map (fun f =>
                 if String.eqb (File.Name f) (ValuesfileName E)
                 then [(filepath.Join [base; ValuesfileName E], File.Data f)]
                 else []) raw
            ++ match schema with
               | Some sch => [(filepath.Join [base; SchemafileName E], sch)]
               | None => []
               end
            ++ map (fun f => (filepath.Join [base; File.Name f], File.Data f))
                   templates
            ++ map (fun f => (filepath.Join [base; File.Name f], File.Data f))
                   files
            ++ flat_map (fun dep =>
                 layout E dep (filepath.Join [base; ChartsDir E])) deps)%list)
  /\ (buildable E c = true -> fits (layout E c prefix) = true ->
      faults w = [] -> ready tw = true ->
      exists tw' w',
        writeTarContents E c prefix (tw, w) = (inr tt, (tw', w')))
  /\ (realNames c = true -> filepath.isRooted prefix = false ->
      fits (layout E c prefix) = true).
Proof.
split; [|split; [|split; [|split]]];
  [| | | |intros Hn Hp; by apply layout_fits].
- intros err H. by apply writeTarContents_invalid_name.
- intros tw' w' H. split.
  + destruct (validateName (Name c)) as [err|] eqn:Hn; [|done].
    rewrite (writeTarContents_invalid_name E c prefix err _ Hn) in H.
    discriminate.
  + destruct (writeTarContents_appends E c prefix _ _ _ _ _ H)
      as (ts & Hlen & Hs).
    exists ts. split; [done|].
    by rewrite Hs, rev_app_distr, rev_involutive.
- intros raw metadata lock templates schema files deps ->. apply layout_eq.
- intros Hb Hfits Hf Hr.
  destruct (writeTarContents_runsClean E c Hb prefix Hfits tw w Hf Hr)
    as ([] & tw' & w' & H & _). eauto.
Qed.

(** The archive of the sample chart: nine entries, the dependency's
    under [app/charts/db]. *)
Example appChart_layout :
  map fst (layout helmEnv appChart "") =
    ["app/Chart.yaml"; "app/Chart.lock"; "app/values.yaml";
     "app/values.schema.json"; "app/templates/deploy.yaml"; "app/README.md";
     "app/charts/db/Chart.yaml"; "app/charts/db/values.yaml";
     "app/charts/db/templates/sts.yaml"].
Proof. reflexivity. Qed.

(* ===================================================================== *)
(** ** Save                                                               *)
(* ===================================================================== *)

Lemma fileAt_None w q : fs w !! q = None -> fileAt w q = None.
Proof. unfold fileAt. by intros ->. Qed.

Lemma fileAt_same w w1 q : fs w1 !! q = fs w !! q -> fileAt w1 q = fileAt w q.
Proof. unfold fileAt. by intros ->. Qed.

(** A failed [Save] leaves no regular file that was not there, and no
    file with other contents. *)
Lemma Save_failed_files E c outDir w p err w' :
  Save E c outDir w = ((p, Some err), w') ->
  forall q content, fileAt w' q = Some content -> fileAt w q = Some content.
Proof.
intros Hfail.
destruct (Save_run E c outDir w)
  as [(msg & Hv & Hs)
     |[(Hv & e & w1 & Hs & Hd & He)
      |[(Hv & e & w1 & w2 & tw & w3 & w4 & Hd & Hw & Hs & Hq & Hk & Ht)
       |(Hv & w1 & w2 & tw & w3 & w4 & Hd & Hw & Hs & Hq & Hk & Ht)]]];
  rewrite Hs in Hfail; try discriminate.
- by injection Hfail as <- <- <-.
- injection Hfail as <- <- <-. destruct Hd as (Hf & _).
  intros q content. by rewrite Hf.
- injection Hfail as <- <- <-. destruct Hd as (Hf & _).
  intros q content.
  destruct (decide (q = filepath.Clean (archivePath c outDir))) as [->|Hne].
  + by rewrite (fileAt_None _ _ Hk).
  + rewrite (fileAt_same w1 w4 q (Hq q Hne)). by rewrite Hf.
Qed.

(** Calls of [Save] one after the other that all fail leave no regular
    file that was not there. *)
Lemma saveTimes_failed_files E c outDir n w :
  Forall (fun err => err <> None) (fst (saveTimes E c outDir n w)) ->
  forall q content,
    fileAt (snd (saveTimes E c outDir n w)) q = Some content ->
    fileAt w q = Some content.
Proof.
revert w. induction n as [|n IH]; intros w Hall q content; [done|].
simpl in *. destruct (Save E c outDir w) as [[p err] w1] eqn:Hs.
destruct (saveTimes E c outDir n w1) as [errs w2] eqn:Hrest.
simpl in *. apply Forall_cons in Hall as [Herr Herrs].
destruct err as [err|]; [|done]. intros Hq.
eapply Save_failed_files; [exact Hs|].
specialize (IH w1). rewrite Hrest in IH. by apply IH.
Qed.

(** C3. When [Save] fails, whatever the step that failed, the regular
    files on disk afterwards were all there before, with the same
    contents: a failed call leaves no file behind, and calls that fail
    one after the other do not pile files up. What a failed call has
    done to the disk is either nothing but making directories (it
    failed before it created the archive), or making directories,
    creating the archive, closing it and removing it again, so that
    nothing is at the archive path when the call returns. *)
Theorem Save_failure_leaves_no_file E c outDir w p err w'
  (Hfail : Save E c outDir w = ((p, Some err), w')) :
  let key := filepath.Clean (archivePath c outDir) in
  (forall q content, fileAt w' q = Some content -> fileAt w q = Some content)
  /\ (exists dirs,
        Forall isMkdir dirs /\
        (trace w' = (trace w ++ dirs)%list
         \/ (trace w' =
               (trace w ++ dirs
                  ++ [EvCreate key; EvFlush key; EvRemove key])%list
             /\ fs w' !! key = None)))
  /\ (forall n,
         Forall (fun err => err <> None) (fst (saveTimes E c outDir n w)) ->
         forall q content,
           fileAt (snd (saveTimes E c outDir n w)) q = Some content ->
           fileAt w q = Some content).
Proof.
intros key. split; [by eapply Save_failed_files|].
split; [|intros n; apply saveTimes_failed_files].
destruct (Save_run E c outDir w)
  as [(msg & Hv & Hs)
     |[(Hv & e & w1 & Hs & Hd & He)
      |[(Hv & e & w1 & w2 & tw & w3 & w4 & Hd & Hw & Hs & Hq & Hk & Ht)
       |(Hv & w1 & w2 & tw & w3 & w4 & Hd & Hw & Hs & Hq & Hk & Ht)]]];
  rewrite Hs in Hfail; try discriminate.
- injection Hfail as <- <- <-.
  exists []. split; [done|]. left. by rewrite app_nil_r.
- injection Hfail as <- <- <-. destruct Hd as (_ & _ & evs & Ht & Hm).
  exists evs. split; [done|]. by left.
- injection Hfail as <- <- <-. destruct Hd as (_ & _ & evs & Ht1 & Hm).
  fold key in Hq, Hk, Ht.
  exists evs. split; [done|]. right. split; [|done].
  by rewrite Ht, Ht1, <- app_assoc.
Qed.

Lemma Save_failure_leaves_no_file_witness :
  let r := Save helmEnv badSchemaChart "/out" emptyDisk in
  let key := filepath.Clean (archivePath badSchemaChart "/out") in
  (forall q content,
      fileAt (snd r) q = Some content -> fileAt emptyDisk q = Some content)
  /\ (exists dirs,
        Forall isMkdir dirs /\
        (trace (snd r) = (trace emptyDisk ++ dirs)%list
         \/ (trace (snd r) =
               (trace emptyDisk ++ dirs
                  ++ [EvCreate key; EvFlush key; EvRemove key])%list
             /\ fs (snd r) !! key = None)))
  /\ (forall n,
         Forall (fun err => err <> None)
                (fst (saveTimes helmEnv badSchemaChart "/out" n emptyDisk)) ->
         forall q content,
           fileAt (snd (saveTimes helmEnv badSchemaChart "/out" n emptyDisk)) q
           = Some content ->
           fileAt emptyDisk q = Some content).
Proof.
apply (Save_failure_leaves_no_file helmEnv badSchemaChart "/out" emptyDisk
         "/out/web-1.0.0.tgz"
         (ErrorString "invalid JSON in values.schema.json")).
vm_compute. reflexivity.
Defined.

(** Three calls on the chart whose schema is no JSON: three errors, and
    a disk with the output directory and no regular file. *)
Example Save_three_failures :
  let r := saveTimes helmEnv badSchemaChart "/out" 3 emptyDisk in
  fst r = [Some (MalformedSchema helmEnv); Some (MalformedSchema helmEnv);
           Some (MalformedSchema helmEnv)]
  /\ map_to_list (fs (snd r))
     = [("/out", Directory); ("/", Directory); (".", Directory)].
Proof. split; vm_compute; reflexivity. Qed.

Lemma Clean_rooted path :
  filepath.isRooted path = true -> filepath.IsAbs (filepath.Clean path) = true.
Proof.
destruct path as [|c s]; [discriminate|]. intros H.
unfold filepath.Clean. rewrite H. reflexivity.
Qed.

Lemma Join_IsAbs dir name :
  filepath.IsAbs dir = true -> filepath.IsAbs (filepath.Join [dir; name]) = true.
Proof.
destruct dir as [|c s]; [discriminate|]. intros H.
change (filepath.Join [String c s; name])
  with (filepath.Clean (filepath.stringsJoin [String c s; name])).
apply Clean_rooted. exact H.
Qed.

(** What a committed archive holds: the layout of the chart from the
    empty prefix, each entry stamped with some time. *)
Lemma Save_committed E c outDir w p w' :
  Save E c outDir w = ((p, None), w') ->
  p = archivePath c outDir /\
  exists ts,
    length ts = length (layout E c "") /\
    fs w' !! filepath.Clean p =
      Some (Regular (Tgz helmGzip (zip_with entryAt ts (layout E c "")))).
Proof.
intros Hsave.
destruct (Save_run E c outDir w)
  as [(msg & Hv & Hs)
     |[(Hv & e & w1 & Hs & Hd & He)
      |[(Hv & e & w1 & w2 & tw & w3 & w4 & Hd & Hw & Hs & Hq & Hk & Ht)
       |(Hv & w1 & w2 & tw & w3 & w4 & Hd & Hw & Hs & Hq & Hk & Ht)]]];
  rewrite Hs in Hsave; try discriminate.
injection Hsave as <- <-. split; [done|].
destruct (writeTarContents_appends E c "" _ _ _ _ _ Hw) as (ts & Hlen & Hst).
exists ts. split; [done|]. rewrite Hk, Hst. simpl.
by rewrite app_nil_r, rev_involutive.
Qed.

(** C4, as the code has it, for an absolute output directory. The path
    [<outDir>/<name>-<version>.tgz] of the archive is absolute. On
    success [Save] returns that path, and the archive is then a file on
    disk. A failure before the archive file is there returns the error
    and the empty path: it is the rejection of the chart by its
    validation, with nothing done; or the error of finding or making
    the directory of the archive; or, the directory being there, the
    error of creating the file. No file has changed by then, and
    nothing but directories has been made. A failure of
    [writeTarContents], after the directory was found or made and the
    file created, returns the error of [writeTarContents] together
    with the path of the archive, and the file, created, flushed and
    removed, is not on disk any more. *)
Theorem Save_result E c outDir w
  (Habs : filepath.IsAbs outDir = true) :
  let filename := archivePath c outDir in
  let dir := filepath.Dir filename in
  let key := filepath.Clean filename in
  filepath.IsAbs filename = true
  /\ match Save E c outDir w with
     | ((p, None), w') =>
         p = filename
         /\ exists entries,
              fs w' !! key = Some (Regular (Tgz helmGzip entries))
     | ((p, Some err), w') =>
         (p = ""
          /\ ((exists msg,
                  Validate E c = Some msg
                  /\ err = Wrapped "chart validation: " (ValidationErr msg)
                  /\ w' = w)
              \/ (Validate E c = None /\ ensureDir dir w = (inl err, w'))
              \/ (Validate E c = None
                  /\ exists w1, ensureDir dir w = (inr tt, w1)
                                /\ os_Create filename w1 = (inl err, w')))
          /\ (forall q, fileAt w' q = fileAt w q)
          /\ exists dirs,
               Forall isMkdir dirs /\ trace w' = (trace w ++ dirs)%list)
         \/ (p = filename
             /\ Validate E c = None
             /\ exists w1 w2 tw w3,
                  ensureDir dir w = (inr tt, w1)
                  /\ os_Create filename w1 = (inr key, w2)
                  /\ writeTarContents E c "" (tar.NewWriter, w2)
                     = (inl err, (tw, w3))
                  /\ fs w2 !! key = Some (Regular (Plain []))
                  /\ fs w' !! key = None
                  /\ trace w' = (trace w1 ++ [EvCreate key; EvFlush key;
                                              EvRemove key])%list)
     end.
Proof.
intros filename dir key. split; [by apply Join_IsAbs|].
unfold Save. destruct (Validate E c) as [msg|] eqn:Hv.
{ left. split; [done|]. split; [left; eauto|]. split; [done|].
  exists []. by rewrite app_nil_r. }
change (filepath.Join [outDir; _]) with filename. fold dir.
pose proof (always_ensureDir dir w) as Hdirs.
destruct (ensureDir dir w) as [[err|[]] w1] eqn:He; simpl in Hdirs;
  destruct Hdirs as (Hfiles & _ & evs & Htr1 & Hevs).
{ left. split; [done|]. split; [by right; left|]. split; [done|]. eauto. }
destruct (os_Create_run filename w1)
  as [(err & w2 & Hc & Hfs2 & Htr2)|(w2 & Hc & Hfs2 & Htr2)];
  fold key in Hc, Hfs2, Htr2; rewrite Hc.
{ left. split; [done|]. split; [right; right; eauto|]. split.
  - intros q. unfold fileAt. rewrite Hfs2. apply Hfiles.
  - exists evs. by rewrite Htr2. }
fold helmGzip.
pose proof (always_writeTarContents E c "" (tar.NewWriter, w2)) as Hsame.
destruct (writeTarContents E c "" (tar.NewWriter, w2)) as [r [tw w3]] eqn:Hw.
unfold sameDiskOut in Hsame. simpl in Hsame. destruct Hsame as [Hfs3 Htr3].
assert (Hk : exists content, fs w3 !! key = Some (Regular content)).
{ rewrite Hfs3, Hfs2, lookup_insert_eq. eauto. }
destruct r as [err|[]].
- right. split; [done|]. split; [done|].
  destruct (deferred_run true tw helmGzip filename w3 Hk) as (_ & Hkey & Htr).
  fold key in Hkey, Htr.
  exists w1, w2, tw, w3. split; [done|]. split; [done|]. split; [done|].
  split; [by rewrite Hfs2, lookup_insert_eq|]. split; [exact Hkey|].
  by rewrite Htr, Htr3, Htr2, <- app_assoc.
- split; [done|].
  destruct (deferred_run false tw helmGzip filename w3 Hk) as (_ & Hkey & _).
  fold key in Hkey. eauto.
Qed.

(** The chart whose schema is no JSON, saved below [/out]: the path of
    the archive comes back with the error, and the archive is gone. *)
Lemma Save_result_witness :
  filepath.IsAbs "/out" = true
  /\ exists w',
       Save helmEnv badSchemaChart "/out" emptyDisk
       = (("/out/web-1.0.0.tgz", Some (MalformedSchema helmEnv)), w')
       /\ filepath.IsAbs "/out/web-1.0.0.tgz" = true
       /\ fs w' !! "/out/web-1.0.0.tgz" = None
       /\ trace w' = [EvMkdir "/out"; EvCreate "/out/web-1.0.0.tgz";
                      EvFlush "/out/web-1.0.0.tgz";
                      EvRemove "/out/web-1.0.0.tgz"].
Proof.
split; [reflexivity|].
pose proof (Save_result helmEnv badSchemaChart "/out" emptyDisk eq_refl)
  as [Habs Hres].
cbv zeta in Habs, Hres.
assert (Hfst : fst (Save helmEnv badSchemaChart "/out" emptyDisk)
               = ("/out/web-1.0.0.tgz", Some (MalformedSchema helmEnv)))
  by (vm_compute; reflexivity).
assert (Htrace : trace (snd (Save helmEnv badSchemaChart "/out" emptyDisk))
                 = [EvMkdir "/out"; EvCreate "/out/web-1.0.0.tgz";
                    EvFlush "/out/web-1.0.0.tgz";
                    EvRemove "/out/web-1.0.0.tgz"])
  by (vm_compute; reflexivity).
destruct (Save helmEnv badSchemaChart "/out" emptyDisk)
  as [[p err] w'] eqn:Hsave.
cbn [fst snd] in Hfst, Htrace. injection Hfst as -> ->. exists w'. split; [done|]. split; [exact Habs|].
split; [|exact Htrace].
destruct Hres as [(Hp & _)|(_ & _ & w1 & w2 & tw & w3 & _ & _ & _ & _ & Hgone & _)];
  [discriminate|exact Hgone].
Defined.

(** C4, as the claim has it, fails: when the schema is no JSON, [Save]
    returns the error together with the path of the archive, not the
    empty path. *)
Lemma Save_failure_returns_path :
  fst (Save helmEnv badSchemaChart "/out" emptyDisk) =
    ("/out/web-1.0.0.tgz",
     Some (ErrorString "invalid JSON in values.schema.json")).
Proof. vm_compute. reflexivity. Qed.

(** A relative output directory gives a relative path. *)
Example Save_relative_path :
  fst (Save helmEnv (plainChart "web" None) "out" emptyDisk) =
    ("out/web-1.0.0.tgz", None).
Proof. vm_compute. reflexivity. Qed.

(** C9. Two [Save] calls on the same chart and directory, one after the
    other, that both succeed return the same path, and the two archives
    hold the same entries in the same order: same paths, permissions,
    sizes and payloads. The modification times are all that can
    differ. *)
Theorem Save_twice_same_entries E c outDir w p1 w1 p2 w2
  (Hfirst : Save E c outDir w = ((p1, None), w1))
  (Hsecond : Save E c outDir w1 = ((p2, None), w2)) :
  p1 = p2 /\
  exists entries1 entries2,
    fs w1 !! filepath.Clean p1 = Some (Regular (Tgz helmGzip entries1)) /\
    fs w2 !! filepath.Clean p2 = Some (Regular (Tgz helmGzip entries2)) /\
    map untimed entries1 = map untimed entries2 /\
    map untimed entries1 = map untimedItem (layout E c "").
Proof.
destruct (Save_committed E c outDir w p1 w1 Hfirst) as (-> & ts1 & Hl1 & Hf1).
destruct (Save_committed E c outDir w1 p2 w2 Hsecond) as (-> & ts2 & Hl2 & Hf2).
split; [done|]. do 2 eexists. split; [exact Hf1|]. split; [exact Hf2|].
by rewrite !untimed_entryAt.
Qed.

Lemma Save_twice_same_entries_witness :
  let r1 := Save helmEnv appChart "/out" emptyDisk in
  let r2 := Save helmEnv appChart "/out" (snd r1) in
  fst (fst r1) = fst (fst r2) /\
  exists entries1 entries2,
    fs (snd r1) !! filepath.Clean (fst (fst r1))
      = Some (Regular (Tgz helmGzip entries1)) /\
    fs (snd r2) !! filepath.Clean (fst (fst r2))
      = Some (Regular (Tgz helmGzip entries2)) /\
    map untimed entries1 = map untimed entries2 /\
    map untimed entries1 = map untimedItem (layout helmEnv appChart "").
Proof.
apply (Save_twice_same_entries helmEnv appChart "/out" emptyDisk
         "/out/app-1.0.0.tgz"
         (snd (Save helmEnv appChart "/out" emptyDisk))
         "/out/app-1.0.0.tgz"
         (snd (Save helmEnv appChart "/out"
                 (snd (Save helmEnv appChart "/out" emptyDisk))))).
- vm_compute. reflexivity.
- vm_compute. reflexivity.
Defined.

(* ===================================================================== *)
(** ** The archive entry writer                                           *)
(* ===================================================================== *)

Lemma replaceSeparator_no_sep sep path :
  sep <> "/"%char ->
  filepath.occurs sep (filepath.replaceSeparator sep path) = false.
Proof.
intros Hsep. induction path as [|c s IH]; [done|]. simpl. rewrite IH.
destruct (Ascii.eqb_spec c sep) as [->|Hc].
- destruct (Ascii.eqb_spec "/"%char sep); [congruence|done].
- destruct (Ascii.eqb_spec c sep); [congruence|done].
Qed.

Lemma replaceSeparator_length sep path :
  String.length (filepath.replaceSeparator sep path) = String.length path.
Proof. induction path as [|c s IH]; simpl; congruence. Qed.

Lemma ToSlashOn_no_sep sep path :
  sep <> "/"%char -> filepath.occurs sep (filepath.ToSlashOn sep path) = false.
Proof.
intros Hsep. unfold filepath.ToSlashOn.
destruct (Ascii.eqb_spec sep "/"%char); [congruence|].
by apply replaceSeparator_no_sep.
Qed.

Lemma ToSlashOn_length sep path :
  String.length (filepath.ToSlashOn sep path) = String.length path.
Proof.
unfold filepath.ToSlashOn. destruct (Ascii.eqb sep "/"); [done|].
apply replaceSeparator_length.
Qed.

(** C8. For every host separator, path and payload, [writeToTar] builds
    the header [h] whose name is the path in forward-slash form (no host
    separator is left in it, and it is the path itself where the
    separator is the slash), whose mode is 0644 (read and write for the
    owner, no execute bit) and whose size is the length of the payload,
    with the current time. It writes [h], then the payload: when both
    succeed the stream has one more entry, [h] with the whole payload;
    when the header fails the call fails and the stream is as before;
    when the payload fails the call fails and the entry has no payload. *)
Theorem writeToTar_entry sep name body tw w :
  exists t w1 r tw' w',
    time_Now w = (inr t, w1) /\
    writeToTarOn sep name body (tw, w) = (r, (tw', w')) /\
    let h := tar.mkHeader (filepath.ToSlashOn sep name) 420
                          (Z.of_nat (length body)) t in
    (sep <> "/"%char -> filepath.occurs sep (tar.Name h) = false)
    /\ (sep = "/"%char -> tar.Name h = name)
    /\ String.length (tar.Name h) = String.length name
    /\ tar.Mode h = 420%Z
    /\ Z.land (tar.Mode h) 73 = 0%Z        (* 0111: no execute bit *)
    /\ Z.land (tar.Mode h) 384 = 384%Z     (* 0600: owner reads and writes *)
    /\ tar.Size h = Z.of_nat (length body)
    /\ (forall e out2, WriteHeader h (tw, w1) = (inl e, out2) ->
                       r = inl e /\ tar.stream tw' = tar.stream tw)
    /\ (forall out2 e out3,
           WriteHeader h (tw, w1) = (inr tt, out2) ->
           Write body out2 = (inl e, out3) ->
           r = inl e /\ tar.stream tw' = tar.mkEntry h [] :: tar.stream tw)
    /\ (r = inr tt <->
        exists out2, WriteHeader h (tw, w1) = (inr tt, out2) /\
                     Write body out2 = (inr tt, (tw', w')))
    /\ (r = inr tt -> tar.stream tw' = tar.mkEntry h body :: tar.stream tw).
Proof.
destruct (time_Now_run w) as (t & w1 & Ht & _).
destruct (writeToTarOn sep name body (tw, w)) as [r [tw' w']] eqn:Hrun.
exists t, w1, r, tw', w'. split; [done|]. split; [done|].
set (h := tar.mkHeader _ _ _ _). cbv zeta.
split; [apply ToSlashOn_no_sep|].
split; [by intros ->|].
split; [apply ToSlashOn_length|].
do 4 (split; [done|]).
unfold writeToTarOn, bind at 1, inWorld in Hrun. rewrite Ht in Hrun.
fold h in Hrun. unfold bind in Hrun.
destruct (WriteHeader_run h tw w1)
  as [(nb & Hh & _)|[(code & w2 & Hh & _)|(w2 & Hh & _)]];
  rewrite Hh in Hrun.
- injection Hrun as <- <- <-.
  split; [intros e' out2 H; rewrite Hh in H; by injection H as <- <-|].
  split; [intros out2 e' out3 H; rewrite Hh in H; discriminate|].
  split; [|discriminate].
  split; [discriminate|]. intros (out2 & H & _). rewrite Hh in H. discriminate.
- injection Hrun as <- <- <-.
  split; [intros e' out2 H; rewrite Hh in H; by injection H as <- <-|].
  split; [intros out2 e' out3 H; rewrite Hh in H; discriminate|].
  split; [|discriminate].
  split; [discriminate|]. intros (out2 & H & _). rewrite Hh in H. discriminate.
- assert (Hcases :
    (exists e w3,
        Write body (tar.mkWriter (tar.mkEntry h [] :: tar.stream tw), w2)
        = (inl e, (tar.mkWriter (tar.mkEntry h [] :: tar.stream tw), w3)))
    \/ (exists w3,
           Write body (tar.mkWriter (tar.mkEntry h [] :: tar.stream tw), w2)
           = (inr tt,
              (tar.mkWriter (tar.mkEntry h body :: tar.stream tw), w3)))).
  { destruct (capacity_cases h) as [[Hdir Hcap]|[Hdir Hcap]].
    - destruct body as [|b0 body].
      + destruct (Write_run h [] (tar.stream tw) w2)
          as [(code & w3 & Hw & _)|(w3 & Hw & _)];
          [rewrite Hcap; simpl; lia|left|right]; eauto.
      + left. do 2 eexists. by apply Write_tooLong.
    - destruct (Write_run h body (tar.stream tw) w2)
        as [(code & w3 & Hw & _)|(w3 & Hw & _)];
        [rewrite Hcap; simpl; lia|left|right]; eauto. }
  destruct Hcases as [(code & w3 & Hw)|(w3 & Hw)];
    rewrite Hw in Hrun; injection Hrun as <- <- <-.
  + split; [intros e' out2 H; rewrite Hh in H; discriminate|].
    split.
    { intros out2 e' out3 H. rewrite Hh in H. injection H as <-.
      rewrite Hw. by intros [= <- <-]. }
    split; [|discriminate].
    split; [discriminate|]. intros (out2 & H & H'). rewrite Hh in H.
    injection H as <-. rewrite Hw in H'. discriminate.
  + split; [intros e' out2 H; rewrite Hh in H; discriminate|].
    split.
    { intros out2 e' out3 H. rewrite Hh in H. injection H as <-.
      rewrite Hw. discriminate. }
    split; [|done].
    split; [|done]. intros _. eexists. split; [exact Hh|exact Hw].
Qed.

(* ===================================================================== *)
(** ** Names that are paths                                               *)
(* ===================================================================== *)

Lemma validateName_rejects n :
  filepath.Base n <> n -> validateName n = Some (ErrInvalidChartName n).
Proof.
intros H. unfold validateName.
destruct (String.eqb_spec (filepath.Base n) n); [done|reflexivity].
Qed.

Lemma SaveDir_invalid_name E c dest w :
  filepath.Base (Name c) <> Name c ->
  SaveDir E c dest w = (inl (ErrInvalidChartName (Name c)), w).
Proof.
intros H. unfold SaveDir, bind at 1.
by rewrite (validateName_rejects _ H).
Qed.

(** C5, as the code has it. Take a chart whose name [validateName]
    rejects and which the validation of the chart rejects, as the
    validation of Helm does for such a name. [SaveDir] fails with
    [ErrInvalidChartName]; [Save] fails with the validation error,
    wrapped as [chart validation: ...], and returns the empty path.
    Both fail before anything is done: the world is as it was, no file
    and no directory made, no system call issued. [writeTarContents],
    which [Save] does not get to, fails with [ErrInvalidChartName] too,
    with nothing written. *)
Theorem invalid_name_rejected E c msg
  (Hname : filepath.Base (Name c) <> Name c)
  (Hvalidate : Validate E c = Some msg) :
  (forall dest w,
      SaveDir E c dest w = (inl (ErrInvalidChartName (Name c)), w))
  /\ (forall outDir w,
         Save E c outDir w
         = (("", Some (Wrapped "chart validation: " (ValidationErr msg))),
            w))
  /\ (forall prefix out,
         writeTarContents E c prefix out
         = (inl (ErrInvalidChartName (Name c)), out)).
Proof.
split; [intros dest w; by apply SaveDir_invalid_name|]. split.
- intros outDir w. unfold Save. by rewrite Hvalidate.
- intros prefix out. apply writeTarContents_invalid_name.
  by apply validateName_rejects.
Qed.

Lemma invalid_name_rejected_witness :
  SaveDir strictEnv evilChart "/out" emptyDisk
  = (inl (ErrInvalidChartName "../evil"), emptyDisk)
  /\ Save strictEnv evilChart "/out" emptyDisk
     = (("", Some (Wrapped "chart validation: "
                     (ValidationErr "chart.metadata.name is invalid"))),
        emptyDisk)
  /\ writeTarContents strictEnv evilChart "" (tar.NewWriter, emptyDisk)
     = (inl (ErrInvalidChartName "../evil"), (tar.NewWriter, emptyDisk)).
Proof.
destruct (invalid_name_rejected strictEnv evilChart
            "chart.metadata.name is invalid")
  as (Hdir & Hsave & Htar); [discriminate|reflexivity|].
split; [apply Hdir|]. split; [apply Hsave|apply Htar].
Defined.

(** C5, as the claim has it, fails for [Save]: the error of [Save] for
    the chart named [../evil] is the validation error, which is what
    [errors.Unwrap] gives back from it, and not the
    [ErrInvalidChartName] of [validateName]. *)
Lemma Save_evil_name_error :
  let err := Wrapped "chart validation: "
                     (ValidationErr "chart.metadata.name is invalid") in
  validateName (Name evilChart) = Some (ErrInvalidChartName "../evil")
  /\ Save strictEnv evilChart "/out" emptyDisk = (("", Some err), emptyDisk)
  /\ err <> ErrInvalidChartName "../evil"
  /\ Unwrap err = Some (ValidationErr "chart.metadata.name is invalid").
Proof. by repeat split. Qed.

(* ===================================================================== *)
(** ** The schema check of the archive builder                            *)
(* ===================================================================== *)

Lemma failsOnly_writeToTar name body :
  failsOnly isTarError (writeToTar name body).
Proof.
intros [tw w] e.
destruct (writeToTarOn_run filepath.Separator name body tw w)
  as (t & r & tw1 & w1 & Hrun & _ & Hres).
unfold writeToTar. rewrite Hrun. simpl. intros ->.
destruct Hres as [(_ & [[[nb ->] _]|(code & -> & _)])
                 |(_ & [(code & -> & _)|(-> & _)])]; try done.
simpl. by exists nb.
Qed.

Lemma isTarError_notMalformedSchema E e :
  isTarError e -> notMalformedSchema E e.
Proof.
unfold notMalformedSchema, MalformedSchema.
destruct e; simpl; try done. intros [nb ->]. discriminate.
Qed.

Lemma failsOnly_check {S} (P : error -> Prop) err :
  (forall e, err = Some e -> P e) -> failsOnly P (@check S err).
Proof.
intros H. destruct err as [e|]; [apply failsOnly_fail; auto|apply failsOnly_ret].
Qed.

Lemma failsOnly_marshalled {S} (P : error -> Prop) r :
  (forall msg, P (MarshalErr msg)) -> failsOnly P (@marshalled S r).
Proof.
intros H. destruct r; [apply failsOnly_fail; auto|apply failsOnly_ret].
Qed.

Lemma validateName_error n e :
  validateName n = Some e -> e = ErrInvalidChartName n.
Proof. unfold validateName. destruct (negb _); congruence. Qed.

(** With well-formed schemas all over the tree, no error of
    [writeTarContents] is the one for a malformed schema. *)
Lemma writeTarContents_notMalformedSchema E c :
  schemasOk c = true ->
  forall prefix,
    failsOnly (notMalformedSchema E) (writeTarContents E c prefix).
Proof.
assert (Htar : forall name body,
           failsOnly (notMalformedSchema E) (writeToTar name body)).
{ intros name body. eapply failsOnly_weaken;
    [apply isTarError_notMalformedSchema|apply failsOnly_writeToTar]. }
induction c as [raw metadata lock templates schema files deps IH]
  using Chart_tree_ind.
intros Hok prefix. simpl in Hok. apply andb_prop in Hok as [Hsch Hdeps].
rewrite writeTarContents_eq. cbv zeta.
apply failsOnly_bind.
{ apply failsOnly_check. intros e He. apply validateName_error in He.
  by subst e. }
intros _. apply failsOnly_bind; [by apply failsOnly_marshalled|].
intros cdata. apply failsOnly_bind; [apply Htar|].
intros _. apply failsOnly_bind.
{ destruct lock as [l|]; [|apply failsOnly_ret].
  apply failsOnly_bind; [by apply failsOnly_marshalled|].
  intros ldata. apply Htar. }
intros _. apply failsOnly_bind.
{ apply failsOnly_forM_. intros f.
  destruct (String.eqb _ _); [apply Htar|apply failsOnly_ret]. }
intros _. apply failsOnly_bind.
{ destruct schema as [sch|]; [|apply failsOnly_ret].
  rewrite Hsch. apply Htar. }
intros _. apply failsOnly_bind; [apply failsOnly_forM_; intros f; apply Htar|].
intros _. apply failsOnly_bind; [apply failsOnly_forM_; intros f; apply Htar|].
intros _. clear Hsch. induction deps as [|dep deps IHdeps];
  [apply failsOnly_ret|].
simpl in Hdeps. apply andb_prop in Hdeps as [Hdep Hdeps].
apply Forall_cons in IH as [IHdep IH].
apply failsOnly_bind; [by apply IHdep|]. intros _. by apply IHdeps.
Qed.

(** A schema that is no JSON never lets [writeTarContents] succeed. *)
Lemma writeTarContents_malformed_fails E c sch prefix out :
  Schema c = Some sch -> json.Valid sch = false ->
  exists err out', writeTarContents E c prefix out = (inl err, out').
Proof.
destruct c as [raw metadata lock templates schema files deps]. simpl.
intros -> Hbad.
destruct (writeTarContents E
            (mkChart raw metadata lock templates (Some sch) files deps)
            prefix out) as [[err|[]] out'] eqn:H; [eauto|].
exfalso. rewrite writeTarContents_eq in H. cbv zeta in H.
apply bind_inr in H as (? & ? & _ & H).
apply bind_inr in H as (? & ? & _ & H).
apply bind_inr in H as (? & ? & _ & H).
apply bind_inr in H as (? & ? & _ & H).
apply bind_inr in H as (? & ? & _ & H).
apply bind_inr in H as (? & ? & H & _).
rewrite Hbad in H. discriminate.
Qed.

(** When the steps before the schema succeed, the error is the one for
    a malformed schema. *)
Lemma writeTarContents_malformed_error E c sch prefix :
  Schema c = Some sch -> json.Valid sch = false -> headOk E c = true ->
  cleanFails (writeTarContents E c prefix) (MalformedSchema E).
Proof.
destruct c as [raw metadata lock templates schema files deps].
intros Hsch Hbad Hhead. simpl in Hsch. subst schema.
unfold headOk, Name in Hhead. simpl in Hhead.
apply andb_prop in Hhead as [Hhead Hlock].
apply andb_prop in Hhead as [Hname Hmd].
destruct (fileNames_real E) as (Hchartfile & Hvalues & _).
rewrite writeTarContents_eq. cbv zeta.
destruct (validateName (Metadata.Name metadata)); [discriminate|].
destruct (yamlMarshalMetadata E metadata) as [|cdata]; [discriminate|].
apply cleanFails_later; [apply runsClean_ret|]. intros _.
apply cleanFails_later; [apply runsClean_ret|]. intros cdata'.
apply cleanFails_later;
  [by apply runsClean_writeToTar, takesPayload_real|]. intros _.
apply cleanFails_later.
{ destruct lock as [l|]; [|apply runsClean_ret].
  destruct (yamlMarshalLock E l) as [|ldata]; [discriminate|].
  apply runsClean_bind; [apply runsClean_ret|]. intros ldata' _.
  by apply runsClean_writeToTar, takesPayload_real. }
intros _. apply cleanFails_later.
{ apply runsClean_forM_, Forall_forall. intros f _.
  destruct (String.eqb _ _); [|apply runsClean_ret].
  by apply runsClean_writeToTar, takesPayload_real. }
intros _. apply cleanFails_now. rewrite Hbad. by intros tw w _ _.
Qed.

(** [Save] fails on it, whatever else happens. *)
Lemma Save_malformed_fails E c sch outDir w :
  Schema c = Some sch -> json.Valid sch = false ->
  exists p err w', Save E c outDir w = ((p, Some err), w').
Proof.
intros Hsch Hbad.
destruct (Save E c outDir w) as [[p [err|]] w'] eqn:Hs; [eauto|].
exfalso.
destruct (Save_run E c outDir w)
  as [(msg & Hv & Hs')
     |[(Hv & e & w1 & Hs' & Hd & He)
      |[(Hv & e & w1 & w2 & tw & w3 & w4 & Hd & Hw & Hs' & Hq & Hk & Ht)
       |(Hv & w1 & w2 & tw & w3 & w4 & Hd & Hw & Hs' & Hq & Hk & Ht)]]];
  rewrite Hs' in Hs; try discriminate.
destruct (writeTarContents_malformed_fails E c sch "" (tar.NewWriter, w2)
            Hsch Hbad) as (err & out' & Hfail).
congruence.
Qed.

(** C6, as the code has it. Take a chart whose schema is present and is
    no JSON. [writeTarContents] never succeeds on it; when the steps
    before the schema succeed (the name is valid, the metadata and the
    lock serialize, no write fails), its error is the one for a
    malformed schema; and [Save] fails, leaving no regular file on disk
    that was not there before. Conversely, when the schema of the chart
    and of every chart below it is absent or well-formed, no error of
    [writeTarContents] is the one for a malformed schema. *)
Theorem schema_well_formedness E c :
  (forall sch,
      Schema c = Some sch -> json.Valid sch = false ->
      (forall prefix out,
          exists err out', writeTarContents E c prefix out = (inl err, out'))
      /\ (headOk E c = true ->
          forall prefix tw w, faults w = [] -> ready tw = true ->
            fst (writeTarContents E c prefix (tw, w))
            = inl (MalformedSchema E))
      /\ (forall outDir w,
             exists p err w',
               Save E c outDir w = ((p, Some err), w') /\
               forall q content,
                 fileAt w' q = Some content -> fileAt w q = Some content))
  /\ (schemasOk c = true ->
      forall prefix out,
        fst (writeTarContents E c prefix out) <> inl (MalformedSchema E)).
Proof.
split.
- intros sch Hsch Hbad. split; [|split].
  + intros prefix out. by eapply writeTarContents_malformed_fails.
  + intros Hhead prefix.
    by apply (writeTarContents_malformed_error E c sch).
  + intros outDir w.
    destruct (Save_malformed_fails E c sch outDir w Hsch Hbad)
      as (p & err & w' & Hs).
    exists p, err, w'. split; [done|].
    by apply (Save_failed_files E c outDir w p err w').
- intros Hok prefix out H.
  by apply (writeTarContents_notMalformedSchema E c Hok prefix out) in H.
Qed.

(** C6, as the claim has it, fails both ways. A chart without schema
    over a dependency whose schema is no JSON: the build raises the
    error for a malformed schema. A chart whose schema is no JSON and
    whose name is a path: the build fails with [ErrInvalidChartName]. *)
Lemma schema_claim_fails :
  (Schema umbrellaChart = None
   /\ fst (writeTarContents helmEnv umbrellaChart "" (tar.NewWriter, emptyDisk))
      = inl (MalformedSchema helmEnv))
  /\ (Schema evilBadSchemaChart = Some (list_byte_of_string "{bad json")
      /\ json.Valid (list_byte_of_string "{bad json") = false
      /\ fst (writeTarContents helmEnv evilBadSchemaChart ""
                (tar.NewWriter, emptyDisk))
         = inl (ErrInvalidChartName "../evil")).
Proof. repeat split; vm_compute; reflexivity. Qed.

(** The schema of the test: the build fails with the error for a
    malformed schema, and [Save] leaves the disk without the archive. *)
Example bad_json_schema :
  json.Valid (list_byte_of_string "{bad json") = false
  /\ fst (Save helmEnv badSchemaChart "/out" emptyDisk)
     = ("/out/web-1.0.0.tgz", Some (MalformedSchema helmEnv))
  /\ fs (snd (Save helmEnv badSchemaChart "/out" emptyDisk))
       !! "/out/web-1.0.0.tgz" = None.
Proof. repeat split; vm_compute; reflexivity. Qed.

(* ===================================================================== *)
(** ** The dependencies of SaveDir                                        *)
(* ===================================================================== *)

Lemma bind_assoc_at {S A B C} (m : M S A) (k : A -> M S B) (h : B -> M S C) s :
  bind (bind m k) h s = bind m (fun a => bind (k a) h) s.
Proof. unfold bind. by destruct (m s) as [[e|a] s1]. Qed.

Lemma bind_ext_at {S A B} (m : M S A) (k k' : A -> M S B) s :
  (forall a s1, k a s1 = k' a s1) -> bind m k s = bind m k' s.
Proof. intros H. unfold bind. by destruct (m s) as [[e|a] s1]. Qed.

(** [SaveDir] is [SaveDir] of the chart without its dependencies, then
    the loop over the dependencies. *)
Lemma SaveDir_split E c dest w :
  SaveDir E c dest w =
  (SaveDir E (withDeps c []) dest ;;
   forM_ (Dependencies c)
     (saveDependency E
        (filepath.Join [filepath.Join [dest; Name c]; ChartsDir E]))) w.
Proof.
unfold SaveDir. cbv zeta.
change (Name (withDeps c [])) with (Name c).
cbn [withDeps Raw Metadata Schema Templates Files Dependencies dependencies].
rewrite bind_assoc_at. apply bind_ext_at. intros _ w1.
rewrite bind_assoc_at. apply bind_ext_at. intros _ w2.
rewrite bind_assoc_at. apply bind_ext_at. intros _ w3.
rewrite bind_assoc_at. apply bind_ext_at. intros _ w4.
rewrite bind_assoc_at. apply bind_ext_at. intros _ w5.
rewrite bind_assoc_at. apply bind_ext_at. intros _ w6.
rewrite bind_assoc_at. apply bind_ext_at. intros _ w7.
reflexivity.
Qed.

(** The same for any list of dependencies in the place of those of the
    chart. *)
Lemma SaveDir_withDeps E c deps dest w :
  SaveDir E (withDeps c deps) dest w =
  (SaveDir E (withDeps c []) dest ;;
   forM_ deps
     (saveDependency E
        (filepath.Join [filepath.Join [dest; Name c]; ChartsDir E]))) w.
Proof. by rewrite SaveDir_split. Qed.

Lemma forM__app {S A} (l1 l2 : list A) (body : A -> M S unit) s :
  forM_ (l1 ++ l2) body s = (forM_ l1 body ;; forM_ l2 body) s.
Proof.
revert s. induction l1 as [|x l1 IH]; intros s; [done|].
simpl. unfold bind.
destruct (body x s) as [[e|[]] s1]; [done|]. exact (IH s1).
Qed.

(** A failure of the loop is the failure of [Save] for the first
    dependency that fails, wrapped with its full path. *)
Lemma saveDependencies_failure E base deps w err w' :
  forM_ deps (saveDependency E base) w = (inl err, w') ->
  exists saved dep rest w0 p cause,
    deps = (saved ++ dep :: rest)%list /\
    forM_ saved (saveDependency E base) w = (inr tt, w0) /\
    Save E dep base w0 = ((p, Some cause), w') /\
    err = Wrapped ("saving " ++ ChartFullPath E dep ++ ": ") cause.
Proof.
revert w. induction deps as [|d ds IH]; intros w H; [discriminate|].
simpl in H. apply bind_inl in H as [H|([] & w1 & H1 & H2)].
- unfold saveDependency in H.
  destruct (Save E d base w) as [[p [cause|]] w1] eqn:Hs; [|discriminate].
  injection H as <- <-. exists [], d, ds, w, p, cause. done.
- destruct (IH w1 H2) as (saved & dep & rest & w0 & p & cause
                          & -> & Hsaved & Hs & ->).
  exists (d :: saved), dep, rest, w0, p, cause. repeat split; try done.
  simpl. unfold bind. by rewrite H1.
Qed.

Lemma Save_committed_others E c outDir w p w' q :
  Save E c outDir w = ((p, None), w') ->
  q <> filepath.Clean (archivePath c outDir) ->
  fileAt w' q = fileAt w q.
Proof.
intros Hsave Hq.
destruct (Save_run E c outDir w)
  as [(msg & Hv & Hs)
     |[(Hv & e & w1 & Hs & Hd & He)
      |[(Hv & e & w1 & w2 & tw & w3 & w4 & Hd & Hw & Hs & Hq' & Hk & Ht)
       |(Hv & w1 & w2 & tw & w3 & w4 & Hd & Hw & Hs & Hq' & Hk & Ht)]]];
  rewrite Hs in Hsave; try discriminate.
injection Hsave as <- <-. destruct Hd as (Hf & _).
rewrite <- Hf. apply fileAt_same. by apply Hq'.
Qed.

Lemma saveDependency_ok E base dep w w' :
  saveDependency E base dep w = (inr tt, w') ->
  exists p, Save E dep base w = ((p, None), w').
Proof.
unfold saveDependency.
destruct (Save E dep base w) as [[p [cause|]] w1]; [discriminate|].
intros [= <-]. eauto.
Qed.

(** The loop leaves alone the files that are no archive of a
    dependency. *)
Lemma saveDependencies_others E base deps w w' q :
  forM_ deps (saveDependency E base) w = (inr tt, w') ->
  Forall (fun dep => filepath.Clean (archivePath dep base) <> q) deps ->
  fileAt w' q = fileAt w q.
Proof.
revert w. induction deps as [|d ds IH]; intros w H Hq.
- by injection H as <-.
- simpl in H. apply bind_inr in H as ([] & w1 & H1 & H2).
  apply Forall_cons in Hq as [Hd Hds].
  apply saveDependency_ok in H1 as (p & H1).
  rewrite (IH w1 H2 Hds).
  eapply Save_committed_others; [exact H1|]. congruence.
Qed.

(** After the loop every dependency has its archive: a regular file
    that holds the layout of a dependency of that archive name, from
    the empty prefix. *)
Lemma saveDependencies_archives E base deps w w' :
  forM_ deps (saveDependency E base) w = (inr tt, w') ->
  forall dep, dep ∈ deps ->
    exists dep' ts,
      dep' ∈ deps /\
      filepath.Clean (archivePath dep' base)
      = filepath.Clean (archivePath dep base) /\
      length ts = length (layout E dep' "") /\
      fileAt w' (filepath.Clean (archivePath dep base))
      = Some (Tgz helmGzip (zip_with entryAt ts (layout E dep' ""))).
Proof.
revert w. induction deps as [|d ds IH]; intros w H dep Hin.
{ by apply elem_of_nil in Hin. }
simpl in H. apply bind_inr in H as ([] & w1 & H1 & H2).
apply saveDependency_ok in H1 as (p & H1).
set (q := filepath.Clean (archivePath dep base)).
destruct (decide (Exists (fun d' => filepath.Clean (archivePath d' base) = q)
                         ds)) as [Hex|Hno].
- apply Exists_exists in Hex as (d' & Hd' & Hq).
  destruct (IH w1 H2 d' Hd') as (dep' & ts & Hdep' & Hkey & Hlen & Hfile).
  exists dep', ts. split; [by right|]. split; [congruence|].
  split; [done|]. by rewrite <- Hq.
- assert (Hall : Forall (fun d' => filepath.Clean (archivePath d' base) <> q)
                        ds).
  { apply Forall_forall. intros d' Hd' Hq. apply Hno.
    apply Exists_exists. eauto. }
  apply elem_of_cons in Hin as [->|Hin].
  + destruct (Save_committed E d base w p w1 H1) as (-> & ts & Hlen & Hfs).
    exists d, ts. split; [by left|]. split; [done|]. split; [done|].
    rewrite (saveDependencies_others E base ds w1 w' q H2 Hall).
    unfold fileAt, q. by rewrite Hfs.
  + exfalso. rewrite Forall_forall in Hall. by apply (Hall dep Hin).
Qed.

Lemma fileAt_Some w q content :
  fileAt w q = Some content -> fs w !! q = Some (Regular content).
Proof.
unfold fileAt. destruct (fs w !! q) as [[|content']|]; congruence.
Qed.

(** C7. Take a run of [SaveDir]. When it succeeds, the dependencies
    have been saved one after the other, in the order of the list, each
    by a call of the archive form, [Save], with the directory
    [<dest>/<name>/charts]: the call for a dependency starts where
    [SaveDir] of the chart with the dependencies before it ends,
    succeeds, returns [<dest>/<name>/charts/<dep>-<version>.tgz], and
    leaves there a regular file, an archive of its own that holds the
    layout of the dependency from the empty prefix; [SaveDir] of the
    chart with the dependencies up to this one ends where that call
    ends. In the end every dependency has such a file, holding the
    layout of a dependency of that file name (of the dependency itself
    when no later one has the same file name): a file, never a
    directory. When it fails, either the chart without its dependencies
    fails that way, or the [Save] of a dependency has failed, after the
    dependencies before it were saved: [SaveDir] stops there and
    returns that error wrapped with the full path of the dependency,
    and the cause is what [errors.Unwrap] gives back. *)
Theorem SaveDir_dependencies E c dest w r w'
  (Hrun : SaveDir E c dest w = (r, w')) :
  let base := filepath.Join [filepath.Join [dest; Name c]; ChartsDir E] in
  match r with
  | inr _ =>
      (forall saved dep rest,
          Dependencies c = (saved ++ dep :: rest)%list ->
          exists w1 w2 ts,
            SaveDir E (withDeps c saved) dest w = (inr tt, w1)
            /\ Save E dep base w1 = ((archivePath dep base, None), w2)
            /\ SaveDir E (withDeps c (saved ++ [dep])) dest w = (inr tt, w2)
            /\ length ts = length (layout E dep "")
            /\ fs w2 !! dependencyArchive E c dest dep
               = Some (Regular
                         (Tgz helmGzip
                              (zip_with entryAt ts (layout E dep "")))))
      /\ (forall dep, dep ∈ Dependencies c ->
            exists dep' ts,
              dep' ∈ Dependencies c
              /\ dependencyArchive E c dest dep'
                 = dependencyArchive E c dest dep
              /\ length ts = length (layout E dep' "")
              /\ fs w' !! dependencyArchive E c dest dep
                 = Some (Regular
                           (Tgz helmGzip
                                (zip_with entryAt ts (layout E dep' "")))))
  | inl err =>
      SaveDir E (withDeps c []) dest w = (inl err, w')
      \/ exists saved dep rest w1 p cause,
           Dependencies c = (saved ++ dep :: rest)%list
           /\ SaveDir E (withDeps c saved) dest w = (inr tt, w1)
           /\ Save E dep base w1 = ((p, Some cause), w')
           /\ err = Wrapped ("saving " ++ ChartFullPath E dep ++ ": ") cause
           /\ Unwrap err = Some cause
  end.
Proof.
intros base. rewrite SaveDir_split in Hrun. fold base in Hrun.
destruct r as [err|[]].
- apply bind_inl in Hrun as [H|([] & w0 & H0 & H)]; [by left|right].
  destruct (saveDependencies_failure E base _ _ _ _ H)
    as (saved & dep & rest & w1 & p & cause & Hdeps & Hsaved & Hs & ->).
  exists saved, dep, rest, w1, p, cause. split; [done|]. split; [|done].
  rewrite SaveDir_withDeps. fold base. unfold bind. by rewrite H0.
- apply bind_inr in Hrun as ([] & w0 & H0 & H). split.
  + intros saved dep rest Hdeps. rewrite Hdeps in H.
    rewrite forM__app in H.
    apply bind_inr in H as ([] & w1 & Hsaved & H).
    simpl in H. apply bind_inr in H as ([] & w2 & Hdep & _).
    pose proof Hdep as Hstep.
    apply saveDependency_ok in Hdep as (p & Hsave).
    destruct (Save_committed E dep base w1 p w2 Hsave)
      as (-> & ts & Hlen & Hfs).
    exists w1, w2, ts. split.
    { rewrite SaveDir_withDeps. fold base. unfold bind. by rewrite H0. }
    split; [done|]. split; [|done].
    rewrite SaveDir_withDeps. fold base. unfold bind at 1. rewrite H0.
    rewrite forM__app. unfold bind at 1. rewrite Hsaved.
    simpl. unfold bind. by rewrite Hstep.
  + intros dep Hdep.
    destruct (saveDependencies_archives E base _ _ _ H dep Hdep)
      as (dep' & ts & Hdep' & Hkey & Hlen & Hfile).
    exists dep', ts. split; [done|]. split; [exact Hkey|]. split; [done|].
    by apply fileAt_Some.
Qed.

(** The sample chart, saved below [/out] on the empty disk: [SaveDir]
    succeeds; its one dependency is saved by [Save] with the directory
    [/out/app/charts], from the state the files of the chart leave, and
    its archive is a regular file there. *)
Lemma SaveDir_dependencies_witness :
  exists w1 w' ts,
    SaveDir helmEnv appChart "/out" emptyDisk = (inr tt, w')
    /\ SaveDir helmEnv (withDeps appChart []) "/out" emptyDisk = (inr tt, w1)
    /\ Save helmEnv dbChart "/out/app/charts" w1
       = (("/out/app/charts/db-0.1.0.tgz", None), w')
    /\ length ts = 3
    /\ fs w' !! "/out/app/charts/db-0.1.0.tgz"
       = Some (Regular
                 (Tgz helmGzip
                      (zip_with entryAt ts (layout helmEnv dbChart "")))).
Proof.
assert (Hfst : fst (SaveDir helmEnv appChart "/out" emptyDisk) = inr tt)
  by (vm_compute; reflexivity).
destruct (SaveDir helmEnv appChart "/out" emptyDisk) as [r w'] eqn:Hrun.
cbn [fst] in Hfst. subst r.
pose proof (SaveDir_dependencies helmEnv appChart "/out" emptyDisk
              (inr tt) w' Hrun) as [Hstep _].
destruct (Hstep [] dbChart [] eq_refl)
  as (w1 & w2 & ts & Hfiles & Hsave & Hall & Hlen & Hfile).
change (withDeps appChart ([] ++ [dbChart])) with appChart in Hall.
rewrite Hrun in Hall. injection Hall as <-.
by exists w1, w', ts.
Defined.

(** The sample chart as a directory: the files of the chart, and the
    dependency as an archive of its own below [charts]. *)
Example SaveDir_appChart :
  let r := SaveDir helmEnv appChart "/out" emptyDisk in
  fst r = inr tt
  /\ (fileAt (snd r) "/out/app/charts/db-0.1.0.tgz"
      ≫= (fun content =>
            match content with
            | Tgz _ entries =>
                Some (map (fun e => tar.Name (tar.header e)) entries)
            | Plain _ => None
            end))
     = Some ["db/Chart.yaml"; "db/values.yaml"; "db/templates/sts.yaml"]
  /\ kindAt (snd r) "/out/app/charts" = Some true
  /\ kindAt (snd r) "/out/app/charts/db" = None.
Proof. repeat split; vm_compute; reflexivity. Qed.

(** A dependency that cannot be archived: its error, wrapped. *)
Example SaveDir_umbrellaChart :
  fst (SaveDir helmEnv umbrellaChart "/out" emptyDisk)
  = inl (Wrapped "saving web: " (MalformedSchema helmEnv)).
Proof. vm_compute. reflexivity. Qed.

(* ===================================================================== *)
(** ** What the files hold does not steer the code                        *)
(* ===================================================================== *)

Section Related.
Context {S : Type} (R : S -> S -> Prop).

Lemma related_ret {A} (a : A) : related R (ret a) (ret a).
Proof. by intros s1 s2 H. Qed.

Lemma related_fail {A} e : related R (@fail S A e) (fail e).
Proof. by intros s1 s2 H. Qed.

Lemma related_check err : related R (check err) (check err).
Proof. destruct err; [apply related_fail|apply related_ret]. Qed.

Lemma related_marshalled r : related R (marshalled r) (marshalled r).
Proof. destruct r; [apply related_fail|apply related_ret]. Qed.

Lemma related_gets {A} (f : S -> A) :
  (forall s1 s2, R s1 s2 -> f s1 = f s2) -> related R (gets f) (gets f).
Proof. intros H s1 s2 Hs. simpl. split; [f_equal; by apply H|done]. Qed.

Lemma related_modify (f1 f2 : S -> S) :
  (forall s1 s2, R s1 s2 -> R (f1 s1) (f2 s2)) ->
  related R (modify f1) (modify f2).
Proof. intros H s1 s2 Hs. simpl. split; [done|by apply H]. Qed.

Lemma related_bind {A B} (m1 m2 : M S A) (k1 k2 : A -> M S B) :
  related R m1 m2 -> (forall a, related R (k1 a) (k2 a)) ->
  related R (bind m1 k1) (bind m2 k2).
Proof.
intros Hm Hk s1 s2 Hs. unfold bind. specialize (Hm s1 s2 Hs).
destruct (m1 s1) as [r1 s1'], (m2 s2) as [r2 s2']. simpl in Hm.
destruct Hm as [<- Hs']. destruct r1 as [e|a]; [done|]. by apply Hk.
Qed.

Lemma related_forM_ {A} (l : list A) (body1 body2 : A -> M S unit) :
  (forall x, x ∈ l -> related R (body1 x) (body2 x)) ->
  related R (forM_ l body1) (forM_ l body2).
Proof.
induction l as [|x l IH]; intros H; [apply related_ret|].
simpl. apply related_bind; [apply H; left|].
intros _. apply IH. intros y Hy. apply H. by right.
Qed.

End Related.

Lemma related_run {S A} (R : S -> S -> Prop) (m1 m2 : M S A) s1 s2 :
  related R m1 m2 -> R s1 s2 ->
  exists r s1' s2', m1 s1 = (r, s1') /\ m2 s2 = (r, s2') /\ R s1' s2'.
Proof.
intros Hm Hs. specialize (Hm s1 s2 Hs).
destruct (m1 s1) as [r1 s1'], (m2 s2) as [r2 s2']. simpl in Hm.
destruct Hm as [<- Hs']. by exists r1, s1', s2'.
Qed.

Lemma similar_insert w1 w2 key n1 n2 :
  similar w1 w2 -> isDir n1 = isDir n2 ->
  similar (setFs (insert key n1) w1) (setFs (insert key n2) w2).
Proof.
intros (Hf & Hc & Hk) Hn. repeat split; try done.
intros q. unfold kindAt, setFs. simpl.
destruct (decide (key = q)) as [<-|Hq].
- rewrite !lookup_insert_eq. simpl. by rewrite Hn.
- rewrite !lookup_insert_ne by done. apply Hk.
Qed.

Lemma similar_delete w1 w2 key :
  similar w1 w2 -> similar (setFs (delete key) w1) (setFs (delete key) w2).
Proof.
intros (Hf & Hc & Hk). repeat split; try done.
intros q. unfold kindAt, setFs. simpl.
destruct (decide (key = q)) as [<-|Hq].
- by rewrite !lookup_delete_eq.
- rewrite !lookup_delete_ne by done. apply Hk.
Qed.

Lemma similar_record w1 w2 ev1 ev2 :
  similar w1 w2 -> similar (record ev1 w1) (record ev2 w2).
Proof. by intros (Hf & Hc & Hk). Qed.

Lemma related_fault : related similar fault fault.
Proof.
intros w1 w2 (Hf & Hc & Hk). unfold fault. rewrite <- Hf.
destruct (faults w1) as [|[code|] rest] eqn:Hf1; simpl;
  (split; [done|]); repeat split; simpl; try done; congruence.
Qed.

Lemma related_time_Now : related similar time_Now time_Now.
Proof.
intros w1 w2 (Hf & Hc & Hk). unfold time_Now. rewrite <- Hc.
destruct (clock w1) as [|t rest] eqn:Hc1; simpl;
  (split; [done|]); repeat split; simpl; try done; congruence.
Qed.

Lemma related_kindAt path :
  related similar (gets (fun w => kindAt w path))
                  (gets (fun w => kindAt w path)).
Proof. apply related_gets. intros w1 w2 (_ & _ & Hk). apply Hk. Qed.

Lemma belowFile_kindAt w1 w2 path :
  (forall q, kindAt w1 q = kindAt w2 q) ->
  belowFile w1 path = belowFile w2 path.
Proof.
intros Hk. unfold belowFile.
induction (parentPrefixes path) as [|p l IH]; [done|].
simpl. by rewrite Hk, IH.
Qed.

Lemma related_absent {A} path :
  related similar (@absent A path) (@absent A path).
Proof.
intros w1 w2 Hw. split; [|done]. unfold absent, missing. cbn [fst].
destruct Hw as (_ & _ & Hk). by rewrite (belowFile_kindAt w1 w2 path Hk).
Qed.

Lemma related_os_Stat path : related similar (os_Stat path) (os_Stat path).
Proof.
unfold os_Stat. apply related_bind; [apply related_fault|]. intros _.
destruct (String.eqb path ""); [apply related_fail|].
apply related_bind; [apply related_kindAt|].
intros [dir|]; [apply related_ret|apply related_absent].
Qed.

Lemma related_parentIsDir key :
  related similar (parentIsDir key) (parentIsDir key).
Proof.
unfold parentIsDir. apply related_bind; [apply related_kindAt|].
intros [[|]|]; [apply related_ret|apply related_fail|apply related_absent].
Qed.

Lemma related_os_Mkdir path : related similar (os_Mkdir path) (os_Mkdir path).
Proof.
unfold os_Mkdir. apply related_bind; [apply related_fault|]. intros _.
apply related_bind; [apply related_parentIsDir|]. intros _.
apply related_bind; [apply related_kindAt|].
intros [k|]; [apply related_fail|].
apply related_bind.
- apply related_modify. intros w1 w2 H. by apply similar_insert.
- intros _. apply related_modify. intros w1 w2 H. by apply similar_record.
Qed.

Lemma related_mkdirAllChain chain :
  related similar (mkdirAllChain chain) (mkdirAllChain chain).
Proof.
induction chain as [|path parents IH]; [apply related_ret|].
intros w1 w2 Hw. simpl.
destruct (related_run _ _ _ _ _ (related_os_Stat path) Hw)
  as (r & w1a & w2a & -> & -> & Ha).
destruct r as [e|[|]]; [|done..].
destruct (related_run _ _ _ _ _ IH Ha) as (r & w1b & w2b & -> & -> & Hb).
destruct r as [e2|[]]; [done|].
destruct (related_run _ _ _ _ _ (related_os_Mkdir path) Hb)
  as (r & w1c & w2c & -> & -> & Hc).
destruct r as [e3|[]]; [|done].
destruct (related_run _ _ _ _ _ (related_os_Stat path) Hc)
  as (r & w1d & w2d & -> & -> & Hd).
by destruct r as [e4|[|]].
Qed.

Lemma related_os_WriteFile path data1 data2 :
  related similar (os_WriteFile path data1) (os_WriteFile path data2).
Proof.
unfold os_WriteFile. apply related_bind; [apply related_fault|]. intros _.
apply related_bind; [apply related_parentIsDir|]. intros _.
apply related_bind; [apply related_kindAt|].
assert (Hok : related similar
  (modify (setFs (insert (filepath.Clean path) (Regular (Plain data1)))) ;;
   modify (record (EvWriteFile (filepath.Clean path) data1)))
  (modify (setFs (insert (filepath.Clean path) (Regular (Plain data2)))) ;;
   modify (record (EvWriteFile (filepath.Clean path) data2)))).
{ apply related_bind.
  - apply related_modify. intros w1 w2 H. by apply similar_insert.
  - intros _. apply related_modify. intros w1 w2 H. by apply similar_record. }
intros [[|]|]; [apply related_fail|exact Hok..].
Qed.

Lemma related_writeFile name data1 data2 :
  related similar (writeFile name data1) (writeFile name data2).
Proof.
unfold writeFile. apply related_bind; [apply related_mkdirAllChain|].
intros _. apply related_os_WriteFile.
Qed.

Lemma related_os_Create path : related similar (os_Create path) (os_Create path).
Proof.
unfold os_Create. apply related_bind; [apply related_fault|]. intros _.
apply related_bind; [apply related_parentIsDir|]. intros _.
apply related_bind; [apply related_kindAt|].
assert (Hok : related similar
  (modify (setFs (insert (filepath.Clean path) (Regular (Plain [])))) ;;
   modify (record (EvCreate (filepath.Clean path))) ;;
   ret (filepath.Clean path))
  (modify (setFs (insert (filepath.Clean path) (Regular (Plain [])))) ;;
   modify (record (EvCreate (filepath.Clean path))) ;;
   ret (filepath.Clean path))).
{ apply related_bind.
  - apply related_modify. intros w1 w2 H. by apply similar_insert.
  - intros _. apply related_bind; [|intros _; apply related_ret].
    apply related_modify. intros w1 w2 H. by apply similar_record. }
intros [[|]|]; [apply related_fail|exact Hok..].
Qed.

Lemma related_ensureDir dir : related similar (ensureDir dir) (ensureDir dir).
Proof.
intros w1 w2 Hw. unfold ensureDir.
destruct (related_run _ _ _ _ _ (related_os_Stat dir) Hw)
  as (r & w1a & w2a & -> & -> & Ha).
destruct r as [e|[|]]; [|done..].
destruct (isNotExist e); [|done]. by apply related_mkdirAllChain.
Qed.

Lemma related_inWorld {A} (m : M World A) :
  related similar m m -> related similarOut (inWorld m) (inWorld m).
Proof.
intros Hm [tw1 w1] [tw2 w2] [Htw Hw]. simpl in Htw, Hw. subst tw2.
unfold inWorld.
destruct (related_run _ _ _ _ _ Hm Hw) as (r & w1a & w2a & -> & -> & Ha).
split; [done|]. by split.
Qed.

Lemma related_writer : related similarOut (gets fst) (gets fst).
Proof. apply related_gets. by intros s1 s2 [H _]. Qed.

Lemma related_WriteHeader h : related similarOut (WriteHeader h) (WriteHeader h).
Proof.
unfold WriteHeader. apply related_bind; [apply related_writer|]. intros tw.
apply related_bind.
{ destruct (tar.stream tw) as [|e es]; [apply related_ret|].
  destruct (0 <? _)%Z; [apply related_fail|apply related_ret]. }
intros _. apply related_bind; [apply related_inWorld, related_fault|].
intros _. apply related_modify.
intros [tw1 w1] [tw2 w2] [Htw Hw]. simpl in Htw. subst tw2. by split.
Qed.

Lemma related_Write b : related similarOut (Write b) (Write b).
Proof.
unfold Write. apply related_bind; [apply related_writer|]. intros tw.
destruct (tar.stream tw) as [|e es].
{ destruct b; [apply related_ret|apply related_fail]. }
cbv zeta. destruct (_ <? _)%Z.
all: apply related_bind; [|intros _; first [apply related_fail|apply related_ret]].
all: match goal with |- related _ (match ?l with _ => _ end) _ => destruct l end;
  [apply related_ret|].
all: apply related_bind; [apply related_inWorld, related_fault|].
all: intros _; apply related_modify.
all: intros [tw1 w1] [tw2 w2] [Htw Hw]; by split.
Qed.

Lemma related_writeToTar name body :
  related similarOut (writeToTar name body) (writeToTar name body).
Proof.
unfold writeToTar, writeToTarOn.
apply related_bind; [apply related_inWorld, related_time_Now|].
intros t. apply related_bind; [apply related_WriteHeader|].
intros _. apply related_Write.
Qed.

Lemma related_writeTarContents E c :
  forall prefix,
    related similarOut (writeTarContents E c prefix)
                       (writeTarContents E c prefix).
Proof.
induction c as [raw metadata lock templates schema files deps IH]
  using Chart_tree_ind.
intros prefix. rewrite writeTarContents_eq. cbv zeta.
apply related_bind; [apply related_check|]. intros _.
apply related_bind; [apply related_marshalled|]. intros cdata.
apply related_bind; [apply related_writeToTar|]. intros _.
apply related_bind.
{ destruct lock as [l|]; [|apply related_ret].
  apply related_bind; [apply related_marshalled|].
  intros ldata. apply related_writeToTar. }
intros _. apply related_bind.
{ apply related_forM_. intros f _.
  destruct (String.eqb _ _); [apply related_writeToTar|apply related_ret]. }
intros _. apply related_bind.
{ destruct schema as [sch|]; [|apply related_ret].
  destruct (negb _); [apply related_fail|apply related_writeToTar]. }
intros _. apply related_bind.
{ apply related_forM_. intros f _. apply related_writeToTar. }
intros _. apply related_bind.
{ apply related_forM_. intros f _. apply related_writeToTar. }
intros _. apply related_forM_. intros dep Hdep.
rewrite Forall_forall in IH. apply IH, Hdep.
Qed.

Lemma similar_deferred rollback tw zipper f filename w1 w2 :
  similar w1 w2 ->
  similar (deferred rollback tw zipper f filename w1)
          (deferred rollback tw zipper f filename w2).
Proof.
intros Hw. unfold deferred.
assert (Hclose : similar (closeAll tw zipper f w1) (closeAll tw zipper f w2)).
{ unfold closeAll. destruct Hw as (Hf & Hc & Hk). rewrite <- (Hk f).
  destruct (kindAt w1 f) as [[|]|]; try done.
  apply similar_record. by apply similar_insert. }
destruct rollback; [|done]. unfold os_Remove.
destruct Hclose as (Hf & Hc & Hk). rewrite <- (Hk (filepath.Clean filename)).
destruct (kindAt _ (filepath.Clean filename)) as [[|]|]; try done.
apply similar_record. by apply similar_delete.
Qed.

(** [Save] returns the same in worlds the system calls cannot tell
    apart. *)
Lemma Save_similar E c outDir w1 w2 :
  similar w1 w2 ->
  fst (Save E c outDir w1) = fst (Save E c outDir w2)
  /\ similar (snd (Save E c outDir w1)) (snd (Save E c outDir w2)).
Proof.
intros Hw. unfold Save. destruct (Validate E c) as [msg|]; [done|].
set (filename := filepath.Join _).
destruct (related_run _ _ _ _ _ (related_ensureDir (filepath.Dir filename)) Hw)
  as (r & w1a & w2a & -> & -> & Ha).
destruct r as [e|[]]; [done|].
destruct (related_run _ _ _ _ _ (related_os_Create filename) Ha)
  as (r & w1b & w2b & -> & -> & Hb).
destruct r as [e|f]; [done|].
assert (Hout : similarOut (tar.NewWriter, w1b) (tar.NewWriter, w2b))
  by (by split).
destruct (related_run _ _ _ _ _ (related_writeTarContents E c "") Hout)
  as (r & [tw1 w1c] & [tw2 w2c] & -> & -> & [Htw Hc]).
simpl in Htw, Hc. subst tw2.
destruct r as [e|[]].
- split; [done|]. by apply (similar_deferred true).
- split; [done|]. by apply (similar_deferred false).
Qed.

Lemma related_saveDependency E base dep :
  related similar (saveDependency E base dep) (saveDependency E base dep).
Proof.
intros w1 w2 Hw. unfold saveDependency.
destruct (Save_similar E dep base w1 w2 Hw) as [Hr Hs].
destruct (Save E dep base w1) as [[p1 r1] w1'],
         (Save E dep base w2) as [[p2 r2] w2'].
simpl in Hr, Hs. injection Hr as <- <-. by destruct r1.
Qed.

(** [SaveDir] on a chart and on the same chart with other schema bytes:
    the same result, in worlds the system calls cannot tell apart. *)
Lemma related_SaveDir E c sch sch' dest :
  Schema c = Some sch ->
  related similar (SaveDir E c dest) (SaveDir E (withSchema c (Some sch')) dest).
Proof.
destruct c as [raw metadata lock templates schema files deps].
simpl. intros ->. unfold SaveDir, withSchema, Name, Dependencies.
cbn [Raw Metadata Lock Templates Schema Files dependencies].
set (outdir := filepath.Join [dest; _]).
apply related_bind; [apply related_check|]. intros _.
apply related_bind.
{ intros w1 w2 Hw.
  destruct (related_run _ _ _ _ _ (related_os_Stat outdir) Hw)
    as (r & w1a & w2a & -> & -> & Ha).
  by destruct r as [e|[|]]. }
intros _. apply related_bind; [apply related_mkdirAllChain|].
intros _. apply related_bind.
{ unfold SaveChartfile. apply related_bind; [apply related_marshalled|].
  intros out. apply related_os_WriteFile. }
intros _. apply related_bind.
{ apply related_forM_. intros f _.
  destruct (String.eqb _ _); [apply related_writeFile|apply related_ret]. }
intros _. apply related_bind; [apply related_writeFile|].
intros _. apply related_bind.
{ apply related_forM_. intros o _. apply related_forM_. intros f _.
  apply related_writeFile. }
intros _. apply related_forM_. intros dep _. apply related_saveDependency.
Qed.

Lemma similar_refl w : similar w w.
Proof. by repeat split. Qed.

(* ===================================================================== *)
(** ** The schema in SaveDir                                              *)
(* ===================================================================== *)

Lemma sameDisk_traceGrows w w1 : sameDisk w w1 -> traceGrows w w1.
Proof. intros [_ H]. exists []. by rewrite app_nil_r. Qed.

Lemma madeDirs_traceGrows w w1 : madeDirs w w1 -> traceGrows w w1.
Proof. intros (_ & _ & evs & H & _). by exists evs. Qed.

Lemma always_traceGrows_os_WriteFile path data :
  always traceGrows (os_WriteFile path data).
Proof.
unfold os_WriteFile. apply always_bind; [apply _| |].
{ eapply always_weaken; [apply sameDisk_traceGrows|apply always_fault]. }
intros _. apply always_bind; [apply _| |].
{ eapply always_weaken; [apply sameDisk_traceGrows|apply always_parentIsDir]. }
intros _. apply always_bind; [apply _|apply always_gets; apply _|].
assert (Hok : always traceGrows
  (modify (setFs (insert (filepath.Clean path) (Regular (Plain data)))) ;;
   modify (record (EvWriteFile (filepath.Clean path) data)))).
{ apply always_bind; [apply _| |].
  - apply always_modify. intros w. exists []. simpl. by rewrite app_nil_r.
  - intros _. apply always_modify. intros w. by eexists. }
intros [[|]|]; [apply always_fail; apply _|exact Hok..].
Qed.

Lemma always_traceGrows_writeFile name data :
  always traceGrows (writeFile name data).
Proof.
unfold writeFile. apply always_bind; [apply _| |].
{ eapply always_weaken; [apply madeDirs_traceGrows|apply always_os_MkdirAll]. }
intros _. apply always_traceGrows_os_WriteFile.
Qed.

Lemma always_traceGrows_saveDependency E base dep :
  always traceGrows (saveDependency E base dep).
Proof.
intros w. unfold saveDependency.
assert (H : traceGrows w (snd (Save E dep base w))).
{ destruct (Save_run E dep base w)
    as [(msg & Hv & Hs)
       |[(Hv & e & w1 & Hs & Hd & He)
        |[(Hv & e & w1 & w2 & tw & w3 & w4 & Hd & Hw & Hs & Hq & Hk & Ht)
         |(Hv & w1 & w2 & tw & w3 & w4 & Hd & Hw & Hs & Hq & Hk & Ht)]]];
    rewrite Hs; simpl.
  - reflexivity.
  - by apply madeDirs_traceGrows.
  - etransitivity; [apply madeDirs_traceGrows; exact Hd|by eexists].
  - etransitivity; [apply madeDirs_traceGrows; exact Hd|by eexists]. }
by destruct (Save E dep base w) as [[p [err|]] w1].
Qed.

(** A file written is in the trace, with the bytes it was given. *)
Lemma writeFile_ok name data w w' :
  writeFile name data w = (inr tt, w') ->
  In (EvWriteFile (filepath.Clean name) data) (trace w').
Proof.
unfold writeFile. intros H. apply bind_inr in H as ([] & w1 & _ & H).
unfold os_WriteFile in H.
apply bind_inr in H as ([] & w2 & _ & H).
apply bind_inr in H as ([] & w3 & _ & H).
apply bind_inr in H as (k & w4 & Hk & H).
injection Hk as _ <-.
assert (Hok : (modify (setFs (insert (filepath.Clean name)
                                     (Regular (Plain data)))) ;;
               modify (record (EvWriteFile (filepath.Clean name) data))) w3
              = (inr tt, w') ->
              In (EvWriteFile (filepath.Clean name) data) (trace w')).
{ intros [= <-]. simpl. apply in_or_app. right. by left. }
destruct k as [[|]|]; [discriminate|by apply Hok..].
Qed.

Lemma failsOnly_os_WriteFile path data :
  failsOnly isOsError (os_WriteFile path data).
Proof.
unfold os_WriteFile. apply failsOnly_bind; [apply failsOnly_fault|]. intros _.
apply failsOnly_bind; [apply failsOnly_parentIsDir|]. intros _.
apply failsOnly_bind; [apply failsOnly_gets|].
assert (Hok : failsOnly isOsError
  (modify (setFs (insert (filepath.Clean path) (Regular (Plain data)))) ;;
   modify (record (EvWriteFile (filepath.Clean path) data)))).
{ apply failsOnly_bind; [apply failsOnly_modify|]. intros _.
  apply failsOnly_modify. }
intros [[|]|]; [by apply failsOnly_fail|exact Hok..].
Qed.

Lemma failsOnly_writeFile name data : failsOnly isOsError (writeFile name data).
Proof.
unfold writeFile. apply failsOnly_bind; [apply failsOnly_mkdirAllChain|].
intros _. apply failsOnly_os_WriteFile.
Qed.

Lemma isOsError_notMalformedSchema E e :
  isOsError e -> notMalformedSchema E e.
Proof. unfold notMalformedSchema, MalformedSchema. by destruct e. Qed.

(** No error of [SaveDir] is the one for a malformed schema. *)
Lemma SaveDir_notMalformedSchema E c dest :
  failsOnly (notMalformedSchema E) (SaveDir E c dest).
Proof.
assert (Hfile : forall name data,
           failsOnly (notMalformedSchema E) (writeFile name data)).
{ intros name data. eapply failsOnly_weaken;
    [apply isOsError_notMalformedSchema|apply failsOnly_writeFile]. }
unfold SaveDir. apply failsOnly_bind.
{ apply failsOnly_check. intros e He. apply validateName_error in He.
  by subst e. }
intros _. set (outdir := filepath.Join [dest; Name c]).
apply failsOnly_bind.
{ intros w e. destruct (os_Stat outdir w) as [[e1|[|]] w1]; simpl;
    try discriminate. intros [= <-]. discriminate. }
intros _. apply failsOnly_bind.
{ eapply failsOnly_weaken;
    [apply isOsError_notMalformedSchema|apply failsOnly_mkdirAllChain]. }
intros _. apply failsOnly_bind.
{ unfold SaveChartfile. apply failsOnly_bind; [by apply failsOnly_marshalled|].
  intros out. eapply failsOnly_weaken;
    [apply isOsError_notMalformedSchema|apply failsOnly_os_WriteFile]. }
intros _. apply failsOnly_bind.
{ apply failsOnly_forM_. intros f.
  destruct (String.eqb _ _); [apply Hfile|apply failsOnly_ret]. }
intros _. apply failsOnly_bind.
{ destruct (Schema c); [apply Hfile|apply failsOnly_ret]. }
intros _. apply failsOnly_bind.
{ apply failsOnly_forM_. intros o. apply failsOnly_forM_. intros f.
  apply Hfile. }
intros _. apply failsOnly_forM_. intros dep w e. unfold saveDependency.
destruct (Save E dep _ w) as [[p [err|]] w1]; simpl; [|discriminate].
intros [= <-]. discriminate.
Qed.

(** When [SaveDir] succeeds, the schema has been written as it is. *)
Lemma SaveDir_writes_schema E c sch dest w w' :
  Schema c = Some sch ->
  SaveDir E c dest w = (inr tt, w') ->
  In (EvWriteFile
        (filepath.Clean
           (filepath.Join [filepath.Join [dest; Name c]; SchemafileName E]))
        sch) (trace w').
Proof.
intros Hsch H. unfold SaveDir in H. rewrite Hsch in H.
apply bind_inr in H as ([] & w1 & _ & H).
apply bind_inr in H as ([] & w2 & _ & H).
apply bind_inr in H as ([] & w3 & _ & H).
apply bind_inr in H as ([] & w4 & _ & H).
apply bind_inr in H as ([] & w5 & _ & H).
apply bind_inr in H as ([] & w6 & Hwrite & H).
apply writeFile_ok in Hwrite.
assert (Hrest : traceGrows w6 w').
{ match type of H with
  | ?m w6 = _ => assert (Hm : always traceGrows m)
  end.
  { apply always_bind; [apply _| |].
    - apply always_forM_; [apply _|]. intros o _.
      apply always_forM_; [apply _|]. intros f _.
      apply always_traceGrows_writeFile.
    - intros _. apply always_forM_; [apply _|]. intros dep _.
      apply always_traceGrows_saveDependency. }
  specialize (Hm w6). by rewrite H in Hm. }
destruct Hrest as [evs ->]. apply in_or_app. by left.
Qed.

(** C10. Take a chart whose schema is present and is no JSON, and a
    run of [SaveDir] that succeeds on the chart with any other bytes in
    the place of the schema: the other steps succeed. Then [SaveDir]
    succeeds on the chart itself, from the same state, and has written
    the bytes of the schema as they are to
    [<dest>/<name>/<SchemafileName>]; the two runs end in states with
    the same nodes. Whatever the directory and the state, the result of
    [SaveDir] is the same for any schema bytes, and no error of
    [SaveDir] is the one for a malformed schema. The archive form
    differs: on this chart [writeTarContents] never succeeds, and fails
    with the error for a malformed schema when the steps before the
    schema succeed. *)
Theorem SaveDir_schema_unchecked E c sch sch0 dest w w0
  (Hsch : Schema c = Some sch)
  (Hbad : json.Valid sch = false)
  (Hother : SaveDir E (withSchema c (Some sch0)) dest w = (inr tt, w0)) :
  (exists w',
      SaveDir E c dest w = (inr tt, w')
      /\ In (EvWriteFile
               (filepath.Clean
                  (filepath.Join [filepath.Join [dest; Name c];
                                  SchemafileName E]))
               sch) (trace w')
      /\ similar w' w0)
  /\ (forall sch' dest' w1,
         fst (SaveDir E c dest' w1)
         = fst (SaveDir E (withSchema c (Some sch')) dest' w1))
  /\ (forall dest' w1,
         fst (SaveDir E c dest' w1) <> inl (MalformedSchema E))
  /\ (forall prefix out,
         exists err out', writeTarContents E c prefix out = (inl err, out'))
  /\ (headOk E c = true ->
      forall prefix tw w1, faults w1 = [] -> ready tw = true ->
        fst (writeTarContents E c prefix (tw, w1))
        = inl (MalformedSchema E)).
Proof.
split; [|split; [|split; [|split]]].
- destruct (related_SaveDir E c sch sch0 dest Hsch w w (similar_refl w))
    as [Hres Hsim].
  rewrite Hother in Hres, Hsim. cbn [fst snd] in Hres, Hsim.
  destruct (SaveDir E c dest w) as [r w'] eqn:Hrun.
  cbn [fst snd] in Hres, Hsim. subst r. exists w'.
  split; [done|]. split; [|done]. by apply (SaveDir_writes_schema E c sch dest w).
- intros sch' dest' w1.
  apply (related_SaveDir E c sch sch' dest' Hsch w1 w1 (similar_refl w1)).
- intros dest' w1 H.
  by apply (SaveDir_notMalformedSchema E c dest' w1) in H.
- intros prefix out. by eapply writeTarContents_malformed_fails.
- intros Hhead prefix. by apply (writeTarContents_malformed_error E c sch).
Qed.

(** The chart whose schema is no JSON, saved below [/out] on the empty
    disk: [SaveDir] succeeds, as it does with [{}] for the schema, and
    writes the bytes; [writeTarContents] fails with the error for a
    malformed schema. *)
Lemma SaveDir_schema_unchecked_witness :
  json.Valid (list_byte_of_string "{bad json") = false
  /\ (exists w',
         SaveDir helmEnv badSchemaChart "/out" emptyDisk = (inr tt, w')
         /\ In (EvWriteFile "/out/web/values.schema.json"
                            (list_byte_of_string "{bad json")) (trace w'))
  /\ fst (writeTarContents helmEnv badSchemaChart ""
            (tar.NewWriter, emptyDisk))
     = inl (MalformedSchema helmEnv).
Proof.
assert (Hbad : json.Valid (list_byte_of_string "{bad json") = false)
  by (vm_compute; reflexivity).
assert (Hfst : fst (SaveDir helmEnv
                      (withSchema badSchemaChart
                                  (Some (list_byte_of_string "{}")))
                      "/out" emptyDisk) = inr tt)
  by (vm_compute; reflexivity).
destruct (SaveDir helmEnv
            (withSchema badSchemaChart (Some (list_byte_of_string "{}")))
            "/out" emptyDisk) as [r0 w0] eqn:Hother.
cbn [fst] in Hfst. subst r0.
destruct (SaveDir_schema_unchecked helmEnv badSchemaChart
            (list_byte_of_string "{bad json") (list_byte_of_string "{}")
            "/out" emptyDisk w0 eq_refl Hbad Hother)
  as ((w' & Hrun & Hin & _) & _ & _ & _ & Herr).
split; [exact Hbad|]. split; [by exists w'|].
by apply Herr.
Defined.

(** The chart whose schema is no JSON, as a directory: [SaveDir]
    succeeds and the schema file holds the bytes; as an archive: [Save]
    fails. *)
Example SaveDir_bad_json_schema :
  let r := SaveDir helmEnv badSchemaChart "/out" emptyDisk in
  json.Valid (list_byte_of_string "{bad json") = false
  /\ fst r = inr tt
  /\ fileAt (snd r) "/out/web/values.schema.json"
     = Some (Plain (list_byte_of_string "{bad json"))
  /\ snd (fst (Save helmEnv badSchemaChart "/out" emptyDisk))
     = Some (MalformedSchema helmEnv).
Proof. repeat split; vm_compute; reflexivity. Qed.

(* ===================================================================== *)
(** ** More on the archive builder                                        *)
(* ===================================================================== *)

Lemma forM__ok {S A} (l : list A) (body : A -> M S unit) s s' :
  forM_ l body s = (inr tt, s') ->
  Forall (fun x => exists s1 s2, body x s1 = (inr tt, s2)) l.
Proof.
revert s. induction l as [|x l IH]; intros s H; [constructor|].
simpl in H. apply bind_inr in H as ([] & s1 & H1 & H2).
constructor; [eauto|]. by eapply IH.
Qed.

(** A tree [writeTarContents] has archived is one it can archive: valid
    names, documents that serialize, schemas that are JSON, all over
    the tree. *)
Lemma writeTarContents_ok_buildable E c :
  forall prefix out out',
    writeTarContents E c prefix out = (inr tt, out') -> buildable E c = true.
Proof.
induction c as [raw metadata lock templates schema files deps IH]
  using Chart_tree_ind.
intros prefix out out' H. rewrite writeTarContents_eq in H. cbv zeta in H.
apply bind_inr in H as ([] & s1 & Hname & H).
apply bind_inr in H as (cdata & s2 & Hmd & H).
apply bind_inr in H as ([] & s3 & _ & H).
apply bind_inr in H as ([] & s4 & Hlock & H).
apply bind_inr in H as ([] & s5 & _ & H).
apply bind_inr in H as ([] & s6 & Hsch & H).
apply bind_inr in H as ([] & s7 & _ & H).
apply bind_inr in H as ([] & s8 & _ & H).
apply forM__ok in H. simpl.
destruct (validateName (Metadata.Name metadata)); [discriminate|].
destruct (yamlMarshalMetadata E metadata); [discriminate|]. simpl.
assert (Hl : match lock with
             | Some l => isInr (yamlMarshalLock E l)
             | None => true
             end = true).
{ destruct lock as [lk|]; [|done].
  apply bind_inr in Hlock as (ldata & s' & Hlk & _).
  by destruct (yamlMarshalLock E lk). }
rewrite Hl. simpl.
assert (Hs : match schema with
             | Some sch => json.Valid sch
             | None => true
             end = true).
{ destruct schema as [sch|]; [|done].
  by destruct (json.Valid sch). }
rewrite Hs. simpl.
apply forallb_forall. intros dep Hdep.
rewrite Forall_forall in IH, H. apply list_elem_of_In in Hdep.
destruct (H dep Hdep) as (s1' & s2' & Hrun).
by eapply IH.
Qed.













(** X3. [writeTarContents] writes to the archive stream and to nothing
    else: whatever it returns, the file system and the trace of its
    mutations are afterwards what they were, and two worlds that differ
    in what their files hold only give the same result and the same
    stream. *)
Theorem writeTarContents_leaves_disk E c prefix tw w :
  let r := writeTarContents E c prefix (tw, w) in
  fs (snd (snd r)) = fs w
  /\ trace (snd (snd r)) = trace w
  /\ (forall w2,
         similar w w2 ->
         fst (writeTarContents E c prefix (tw, w2)) = fst r
         /\ fst (snd (writeTarContents E c prefix (tw, w2))) = fst (snd r)).
Proof.
intros r.
destruct (always_writeTarContents E c prefix (tw, w)) as [Hfs Htr].
split; [exact Hfs|]. split; [exact Htr|].
intros w2 Hw.
assert (Hout : similarOut (tw, w) (tw, w2)) by (by split).
destruct (related_writeTarContents E c prefix _ _ Hout) as [Hr [Htw _]].
by split.
Qed.



(* ===================================================================== *)
(** ** [Save] and [SaveDir] at the destination                            *)
(* ===================================================================== *)

Lemma fault_next w :
  fault w = (match nextFault w with
             | Some code => inl (SysErr code)
             | None => inr tt
             end, afterFault w).
Proof.
unfold fault, nextFault, afterFault.
destruct w as [f fl cl tr]. simpl. by destruct fl as [|[code|] rest].
Qed.



Lemma kindAt_afterFault w q : kindAt (afterFault w) q = kindAt w q.
Proof. done. Qed.

(** [os.Stat] when the call itself does not fail. *)
Lemma os_Stat_next path w :
  nextFault w = None -> path <> "" ->
  os_Stat path w =
    (match kindAt w (filepath.Clean path) with
     | Some d => inr d
     | None => inl (missing w path)
     end, afterFault w).
Proof.
intros Hq Hp. unfold os_Stat, bind. rewrite fault_next, Hq.
apply String.eqb_neq in Hp. rewrite Hp. unfold gets.
rewrite kindAt_afterFault. by destruct (kindAt w _).
Qed.


Lemma archiveName_nonempty c : archiveName c <> "".
Proof. unfold archiveName. by destruct (Name c). Qed.

Lemma archivePath_nonempty c outDir : archivePath c outDir <> "".
Proof. apply Join_nonempty, archiveName_nonempty. Qed.

Lemma archivePath_Clean c outDir :
  filepath.Clean (archivePath c outDir) = archivePath c outDir.
Proof. apply Join_Clean, archivePath_nonempty. Qed.

(** X4. A regular file where [Save] wants the directory of the archive
    makes it fail with [is not a directory: <dir>] and the empty path,
    and nothing on disk changes, when the chart is valid and [Stat]
    itself does not fail. *)
Theorem Save_destination_not_directory E c outDir w
  (Hvalid : Validate E c = None)
  (Hstat : nextFault w = None)
  (Hfile : kindAt w (filepath.Dir (archivePath c outDir)) = Some false) :
  Save E c outDir w =
    (("", Some (ErrorString
                  ("is not a directory: "
                   ++ filepath.Dir (archivePath c outDir)))),
     afterFault w).
Proof.
unfold Save. rewrite Hvalid. fold (archivePath c outDir).
unfold ensureDir.
rewrite os_Stat_next; [|done|apply Clean_nonempty].
by rewrite Dir_Clean, Hfile.
Qed.

Lemma Save_destination_not_directory_witness :
  Save helmEnv (plainChart "web" None) "/out" blockedDisk =
    (("", Some (ErrorString "is not a directory: /out")), blockedDisk).
Proof.
apply (Save_destination_not_directory helmEnv (plainChart "web" None)
         "/out" blockedDisk); reflexivity.
Defined.



Lemma validateName_nonempty n : validateName n = None -> n <> "".
Proof. intros H ->. discriminate. Qed.

(** X6. A regular file where [SaveDir] wants the directory of the
    chart makes it fail with [file <outdir> already exists and is not a
    directory], and nothing on disk changes, when the name is accepted
    and [Stat] itself does not fail. *)
Theorem SaveDir_destination_not_directory E c dest w
  (Hname : validateName (Name c) = None)
  (Hstat : nextFault w = None)
  (Hfile : kindAt w (filepath.Join [dest; Name c]) = Some false) :
  SaveDir E c dest w =
    (inl (ErrorString ("file " ++ filepath.Join [dest; Name c]
                       ++ " already exists and is not a directory")),
     afterFault w).
Proof.
pose proof (Join_nonempty dest (Name c) (validateName_nonempty _ Hname))
  as Hne.
unfold SaveDir. rewrite Hname. cbv zeta. unfold check, bind at 1, ret.
unfold bind at 1.
rewrite os_Stat_next; [|done..].
by rewrite Join_Clean, Hfile.
Qed.

Lemma SaveDir_destination_not_directory_witness :
  SaveDir helmEnv (plainChart "out" None) "/" blockedDisk =
    (inl (ErrorString
            "file /out already exists and is not a directory"),
     blockedDisk).
Proof.
apply (SaveDir_destination_not_directory helmEnv (plainChart "out" None)
         "/" blockedDisk); reflexivity.
Defined.

(* ===================================================================== *)
(** ** What [Save] leaves alone, and when it succeeds                     *)
(* ===================================================================== *)

Lemma sameDisk_keepsDirs w w1 : sameDisk w w1 -> keepsDirs w w1.
Proof. intros [Hfs _] q. by rewrite Hfs. Qed.

Lemma madeDirs_keepsDirs w w1 : madeDirs w w1 -> keepsDirs w w1.
Proof. by intros (_ & Hd & _). Qed.

Lemma keepsDirs_insert_file w key content :
  kindAt w key <> Some true ->
  keepsDirs w (setFs (insert key (Regular content)) w).
Proof.
intros Hk q Hq. simpl.
destruct (decide (q = key)) as [->|Hne]; [|by rewrite lookup_insert_ne].
exfalso. apply Hk. unfold kindAt. by rewrite Hq.
Qed.

Lemma keepsDirs_record ev w : keepsDirs w (record ev w).
Proof. by intros q. Qed.

Lemma always_keepsDirs_os_Create path : always keepsDirs (os_Create path).
Proof.
unfold os_Create. cbv zeta.
apply always_bind; [apply _| |].
{ eapply always_weaken; [apply sameDisk_keepsDirs|apply always_fault]. }
intros _. apply always_bind; [apply _| |].
{ eapply always_weaken; [apply sameDisk_keepsDirs|apply always_parentIsDir]. }
intros _ w. unfold bind, gets.
destruct (kindAt w (filepath.Clean path)) as [[|]|] eqn:Hk; simpl.
- done.
- etransitivity; [|apply keepsDirs_record].
  apply keepsDirs_insert_file. by rewrite Hk.
- etransitivity; [|apply keepsDirs_record].
  apply keepsDirs_insert_file. by rewrite Hk.
Qed.

Lemma keepsDirs_closeAll tw zipper f w : keepsDirs w (closeAll tw zipper f w).
Proof.
unfold closeAll. destruct (kindAt w f) as [[|]|] eqn:Hk; [done| |done].
etransitivity; [|apply keepsDirs_record].
apply keepsDirs_insert_file. by rewrite Hk.
Qed.

Lemma keepsDirs_os_Remove path w : keepsDirs w (os_Remove path w).
Proof.
unfold os_Remove. cbv zeta.
destruct (kindAt w (filepath.Clean path)) as [[|]|] eqn:Hk; [done| |done].
etransitivity; [|apply keepsDirs_record].
intros q Hq. simpl.
destruct (decide (q = filepath.Clean path)) as [->|Hne];
  [|by rewrite lookup_delete_ne].
unfold kindAt in Hk. by rewrite Hq in Hk.
Qed.

Lemma keepsDirs_deferred rollback tw zipper f filename w :
  keepsDirs w (deferred rollback tw zipper f filename w).
Proof.
unfold deferred. cbv zeta. destruct rollback; [|apply keepsDirs_closeAll].
etransitivity; [apply keepsDirs_closeAll|apply keepsDirs_os_Remove].
Qed.

Lemma keepsDirs_Save E c outDir w : keepsDirs w (snd (Save E c outDir w)).
Proof.
unfold Save. destruct (Validate E c) as [msg|]; [done|].
fold (archivePath c outDir). cbv zeta.
pose proof (always_ensureDir (filepath.Dir (archivePath c outDir)) w) as H1.
destruct (ensureDir _ w) as [[err|[]] w1]; simpl in H1;
  apply madeDirs_keepsDirs in H1; [done|].
pose proof (always_keepsDirs_os_Create (archivePath c outDir) w1) as H2.
destruct (os_Create _ w1) as [[err|f] w2]; simpl in H2;
  [by etransitivity|].
pose proof (always_writeTarContents E c "" (tar.NewWriter, w2)) as H3.
destruct (writeTarContents E c "" _) as [[err|[]] [tw w3]];
  apply sameDisk_keepsDirs in H3; simpl in H3; cbn [snd];
  (etransitivity; [exact H1|]); (etransitivity; [exact H2|]);
  (etransitivity; [exact H3|]); apply keepsDirs_deferred.
Qed.

(** X7. Whatever way [Save] ends, it touches one regular file at most,
    the archive at [<outDir>/<name>-<version>.tgz]: every other
    regular file is afterwards what it was, every directory there was
    is still a directory, and the trace of mutations only grows. *)
Theorem Save_frame E c outDir w :
  let w' := snd (Save E c outDir w) in
  (forall q, q <> archivePath c outDir -> fileAt w' q = fileAt w q)
  /\ (forall q, fs w !! q = Some Directory -> fs w' !! q = Some Directory)
  /\ (exists evs, trace w' = (trace w ++ evs)%list).
Proof.
intros w'. split; [|split; [apply keepsDirs_Save|]].
- intros q Hq. rewrite <- archivePath_Clean in Hq. subst w'.
  destruct (Save_run E c outDir w)
    as [(msg & Hv & Hs)
       |[(Hv & e & w1 & Hs & Hd & He)
        |[(Hv & e & w1 & w2 & tw & w3 & w4 & Hd & Hw & Hs & Hp & Hk & Ht)
         |(Hv & w1 & w2 & tw & w3 & w4 & Hd & Hw & Hs & Hp & Hk & Ht)]]];
    rewrite Hs; simpl.
  + done.
  + destruct Hd as (Hf & _). apply Hf.
  + destruct Hd as (Hf & _).
    rewrite (fileAt_same w1 w4 q (Hp q Hq)). apply Hf.
  + destruct Hd as (Hf & _).
    rewrite (fileAt_same w1 w4 q (Hp q Hq)). apply Hf.
- subst w'.
  destruct (Save_run E c outDir w)
    as [(msg & Hv & Hs)
       |[(Hv & e & w1 & Hs & Hd & He)
        |[(Hv & e & w1 & w2 & tw & w3 & w4 & Hd & Hw & Hs & Hp & Hk & Ht)
         |(Hv & w1 & w2 & tw & w3 & w4 & Hd & Hw & Hs & Hp & Hk & Ht)]]];
    rewrite Hs; simpl.
  + exists []. by rewrite app_nil_r.
  + destruct Hd as (_ & _ & evs & Hevs & _). eauto.
  + destruct Hd as (_ & _ & evs & Hevs & _). rewrite Ht, Hevs.
    rewrite <- app_assoc. eauto.
  + destruct Hd as (_ & _ & evs & Hevs & _). rewrite Ht, Hevs.
    rewrite <- app_assoc. eauto.
Qed.




Lemma os_Create_ok path w f w1 :
  os_Create path w = (inr f, w1) ->
  f = filepath.Clean path
  /\ kindAt w1 (filepath.Dir (filepath.Clean path)) = Some true
  /\ kindAt w1 (filepath.Clean path) = Some false.
Proof.
unfold os_Create. cbv zeta. intros H.
apply bind_inr in H as ([] & w2 & _ & H).
apply bind_inr in H as ([] & w3 & Hp & H).
unfold parentIsDir, bind, gets in Hp.
destruct (kindAt w2 (filepath.Dir (filepath.Clean path))) as [[|]|] eqn:Hdir;
  try discriminate.
injection Hp as <-.
unfold bind, gets, modify, ret in H.
assert (Hne : filepath.Dir (filepath.Clean path) <> filepath.Clean path
              \/ kindAt w2 (filepath.Clean path) = Some true).
{ destruct (decide (filepath.Dir (filepath.Clean path) = filepath.Clean path))
    as [Heq|Hne]; [right; by rewrite <- Heq at 1|by left]. }
destruct (kindAt w2 (filepath.Clean path)) as [[|]|] eqn:Hk;
  try discriminate; injection H as <- <-;
  destruct Hne as [Hne|Hne]; try discriminate;
  (split; [done|]); unfold kindAt in *; simpl;
  by rewrite lookup_insert_ne, lookup_insert_eq.
Qed.

(** After a success of [Save] there is a regular file at the path of
    the archive, in a directory. *)
Lemma Save_ok_nodes E c outDir w p w' :
  Save E c outDir w = ((p, None), w') ->
  buildable E c = true
  /\ kindAt w' (filepath.Dir (archivePath c outDir)) = Some true
  /\ kindAt w' (archivePath c outDir) = Some false.
Proof.
intros Hsave. unfold Save in Hsave.
destruct (Validate E c) as [msg|]; [discriminate|].
fold (archivePath c outDir) in Hsave. cbv zeta in Hsave.
destruct (ensureDir _ w) as [[err|[]] w1]; [discriminate|].
destruct (os_Create _ w1) as [[err|f] w2] eqn:Hcreate; [discriminate|].
destruct (writeTarContents E c "" _) as [[err|[]] [tw w3]] eqn:Hw;
  [discriminate|].
injection Hsave as <- <-.
apply os_Create_ok in Hcreate as (-> & Hdir & Hfile).
rewrite archivePath_Clean in *.
destruct (always_writeTarContents E c "" (tar.NewWriter, w2)) as [Hfs _].
rewrite Hw in Hfs. simpl in Hfs.
split; [by eapply writeTarContents_ok_buildable|].
assert (Hfile3 : kindAt w3 (archivePath c outDir) = Some false)
  by (unfold kindAt in *; by rewrite Hfs).
split.
- pose proof (keepsDirs_closeAll tw (gzip.mkWriter headerBytes "Helm")
                (archivePath c outDir) w3
                (filepath.Dir (archivePath c outDir))) as Hkeep.
  unfold kindAt in *. rewrite Hkeep; [done|].
  rewrite Hfs. by destruct (fs w2 !! _) as [[|]|].
- unfold closeAll. rewrite Hfile3. unfold kindAt. simpl.
  by rewrite lookup_insert_eq.
Qed.

Lemma Save_ok_valid E c outDir w p w' :
  Save E c outDir w = ((p, None), w') -> Validate E c = None.
Proof.
unfold Save. destruct (Validate E c); [discriminate|done].
Qed.

(** X9. What a success of [Save] means: the chart was valid and every
    chart of the tree could be archived; the path returned is the
    cleaned path of the archive; there is a regular file at it, in a
    directory. *)
Theorem Save_success_means E c outDir w p w'
  (Hsave : Save E c outDir w = ((p, None), w')) :
  Validate E c = None
  /\ buildable E c = true
  /\ p = archivePath c outDir
  /\ filepath.Clean p = p
  /\ kindAt w' (filepath.Dir p) = Some true
  /\ kindAt w' p = Some false.
Proof.
destruct (Save_committed E c outDir w p w' Hsave) as [-> _].
destruct (Save_ok_nodes E c outDir w _ w' Hsave) as (Hb & Hdir & Hfile).
split; [by eapply Save_ok_valid|]. split; [done|]. split; [done|].
split; [apply archivePath_Clean|]. by split.
Qed.

Lemma Save_success_means_witness :
  Validate helmEnv appChart = None
  /\ buildable helmEnv appChart = true
  /\ "/out/app-1.0.0.tgz" = archivePath appChart "/out"
  /\ filepath.Clean "/out/app-1.0.0.tgz" = "/out/app-1.0.0.tgz"
  /\ kindAt (snd (Save helmEnv appChart "/out" emptyDisk))
            (filepath.Dir "/out/app-1.0.0.tgz") = Some true
  /\ kindAt (snd (Save helmEnv appChart "/out" emptyDisk))
            "/out/app-1.0.0.tgz" = Some false.
Proof.
apply (Save_success_means helmEnv appChart "/out" emptyDisk).
vm_compute. reflexivity.
Defined.

Lemma length_append (a b : string) :
  String.length (a ++ b) = (String.length a + String.length b)%nat.
Proof.
induction a as [|x a IH]; [done|]. rewrite append_cons. simpl.
by rewrite IH.
Qed.

Lemma archiveName_real c :
  filepath.hasSeparator (Name c) = false ->
  filepath.hasSeparator (Metadata.Version (Metadata c)) = false ->
  realElement (archiveName c) = true.
Proof.
intros Hn Hv. apply realElement_spec.
assert (Hlen : (5 <= String.length (archiveName c))%nat).
{ unfold archiveName. rewrite !length_append. simpl. lia. }
repeat split.
- intros H. rewrite H in Hlen. simpl in Hlen. lia.
- intros H. rewrite H in Hlen. simpl in Hlen. lia.
- intros H. rewrite H in Hlen. simpl in Hlen. lia.
- unfold archiveName. rewrite !hasSeparator_append, Hn, Hv. done.
Qed.

(** X10. The archive lies directly in [outDir]: when neither the name
    nor the version of the chart holds a separator, the last element of
    the path [Save] returns is [<name>-<version>.tgz], its directory is
    [outDir], cleaned, and that directory is there after a success. *)
Theorem Save_archive_in_outDir E c outDir w p w'
  (Hsave : Save E c outDir w = ((p, None), w'))
  (Hname : filepath.hasSeparator (Name c) = false)
  (Hversion : filepath.hasSeparator (Metadata.Version (Metadata c)) = false) :
  filepath.Base p = Name c ++ "-" ++ Metadata.Version (Metadata c) ++ ".tgz"
  /\ filepath.Dir p = filepath.Clean outDir
  /\ kindAt w' (filepath.Clean outDir) = Some true.
Proof.
destruct (Save_committed E c outDir w p w' Hsave) as [-> _].
destruct (Save_ok_nodes E c outDir w _ w' Hsave) as (_ & Hdir & _).
destruct (Join_child outDir (archiveName c) (archiveName_real c Hname Hversion))
  as [HB HD].
fold (archiveName c). unfold archivePath in *. fold (archiveName c) in *.
rewrite HB, HD in *. done.
Qed.

Lemma Save_archive_in_outDir_witness :
  filepath.Base "/out/app-1.0.0.tgz" = "app" ++ "-" ++ "1.0.0" ++ ".tgz"
  /\ filepath.Dir "/out/app-1.0.0.tgz" = filepath.Clean "/out/"
  /\ kindAt (snd (Save helmEnv appChart "/out/" emptyDisk))
            (filepath.Clean "/out/") = Some true.
Proof.
apply (Save_archive_in_outDir helmEnv appChart "/out/" emptyDisk);
  vm_compute; reflexivity.
Defined.

(* ===================================================================== *)
(** ** Where the entries of an archive lie                                *)
(* ===================================================================== *)

Section Inside.
Import filepath.

Lemma okStack_real rooted out :
  Forall (fun e => realElement e = true) out -> okStack rooted out = true.
Proof.
induction 1 as [|e out He _ IH]; [done|]. by apply realElement_okStack.
Qed.

Lemma fold_cleanStep_noDotDot rooted es out :
  Forall (fun e => hasSeparator e = false) es ->
  forallb (fun e => negb (String.eqb e "..")) es = true ->
  fold_left (cleanStep rooted) es out
  = (rev (List.filter realElement es) ++ out)%list.
Proof.
revert out. induction es as [|e es IH]; intros out Hsep Hdd; [done|].
apply Forall_cons in Hsep as [He Hes].
cbn [forallb] in Hdd. apply andb_true_iff in Hdd as [Hd Hdds].
cbn [fold_left List.filter]. rewrite IH; [|done..].
unfold cleanStep, realElement. rewrite He.
destruct (String.eqb e ""); [done|].
destruct (String.eqb e "."); [done|].
destruct (String.eqb e ".."); [done|]. simpl.
by rewrite <- app_assoc.
Qed.

Lemma render_joinElements es :
  es <> [] -> Forall (fun e => realElement e = true) es ->
  render false es = joinElements es.
Proof.
intros Hne Hall. unfold render. cbv zeta.
destruct (joinElements es) eqn:Hj; [|done].
apply joinElements_empty in Hj; [done|].
eapply Forall_impl; [exact Hall|]. intros e He.
by apply realElement_spec in He as (? & _).
Qed.

Lemma real_no_separator es :
  Forall (fun e => realElement e = true) es ->
  Forall (fun e => hasSeparator e = false) es.
Proof.
intros H. eapply Forall_impl; [exact H|]. intros e He.
by apply realElement_spec in He as (_ & _ & _ & ?).
Qed.

Lemma real_nonempty es :
  Forall (fun e => realElement e = true) es -> Forall (fun e => e <> "") es.
Proof.
intros H. eapply Forall_impl; [exact H|]. intros e He.
by apply realElement_spec in He as (? & _).
Qed.

Lemma filter_real es :
  Forall (fun e => realElement e = true) (List.filter realElement es).
Proof.
apply List.Forall_forall. intros e He. by apply filter_In in He as [_ He].
Qed.

(** [Join] of a clean relative directory and a name with no [..]
    element: the elements of the directory, then the real elements of
    the name. *)
Lemma Join_under pl f :
  pl <> [] -> Forall (fun e => realElement e = true) pl ->
  noDotDot f = true ->
  Join [joinElements pl; f]
  = joinElements (pl ++ List.filter realElement (elements f)).
Proof.
intros Hne Hall Hdd.
assert (Hok : okStack false (rev pl) = true)
  by (by apply okStack_real, Forall_rev).
destruct (cleanElements_render false pl Hok) as [Hr He].
rewrite (render_joinElements pl Hne Hall) in Hr, He.
rewrite Join_elements.
2:{ intros H. apply joinElements_empty in H; [done|by apply real_nonempty]. }
rewrite Hr, He, fold_cleanStep_noDotDot;
  [|apply elements_no_separator|exact Hdd].
rewrite rev_app_distr, !rev_involutive.
apply render_joinElements; [by destruct pl|].
apply Forall_app. split; [done|apply filter_real].
Qed.

Lemma Clean_real n : realElement n = true -> Clean n = n.
Proof.
intros Hreal. pose proof Hreal as Hn.
apply realElement_spec in Hn as (Hn0 & Hn1 & Hn2 & Hs).
rewrite Clean_render; [|done].
assert (Hr : isRooted n = false).
{ destruct n as [|x n]; [done|]. simpl in *.
  by apply orb_false_iff in Hs as [-> _]. }
unfold cleanElements. rewrite Hr, (elements_single n Hs). simpl.
unfold cleanStep. apply String.eqb_neq in Hn0, Hn1, Hn2.
rewrite Hn0, Hn1, Hn2. simpl. by destruct n.
Qed.

Lemma filter_real_single n :
  realElement n = true -> List.filter realElement (elements n) = [n].
Proof.
intros Hn. pose proof Hn as Hs.
apply realElement_spec in Hs as (_ & _ & _ & Hs).
rewrite (elements_single n Hs). simpl. by rewrite Hn.
Qed.

Lemma noDotDot_real n : realElement n = true -> noDotDot n = true.
Proof.
intros Hn. pose proof Hn as Hs.
apply realElement_spec in Hs as (_ & _ & Hdd & Hs).
unfold noDotDot. rewrite (elements_single n Hs). simpl.
apply String.eqb_neq in Hdd. by rewrite Hdd.
Qed.

(** The directory of a chart below a prefix. *)
Lemma Join_prefix_name pl n :
  Forall (fun e => realElement e = true) pl -> realElement n = true ->
  Join [joinElements pl; n] = joinElements (pl ++ [n]).
Proof.
intros Hall Hn. destruct (decide (pl = [])) as [->|Hne].
- change (joinElements []) with "". rewrite Join_empty.
  + by apply Clean_real.
  + by apply realElement_spec in Hn as (? & _).
- rewrite Join_under; [|done|done|by apply noDotDot_real].
  by rewrite filter_real_single.
Qed.

Lemma inside_Join pl n f :
  Forall (fun e => realElement e = true) pl -> realElement n = true ->
  noDotDot f = true ->
  exists rest,
    Forall (fun e => realElement e = true) rest
    /\ Join [joinElements (pl ++ [n]); f] = joinElements (pl ++ n :: rest).
Proof.
intros Hall Hn Hf. exists (List.filter realElement (elements f)).
split; [apply filter_real|].
rewrite Join_under; [|by destruct pl| |done].
- by rewrite <- app_assoc.
- apply Forall_app. split; [done|by constructor].
Qed.

Lemma tidy_name c : tidy c = true -> realElement (Name c) = true.
Proof.
destruct c. cbn [tidy]. intros H.
do 3 apply andb_true_iff in H as [H _]. exact H.
Qed.

Lemma layout_inside E c :
  localEnv E = true -> tidy c = true ->
  forall pl,
    Forall (fun e => realElement e = true) pl ->
    Forall (fun item =>
              exists rest,
                Forall (fun e => realElement e = true) rest
                /\ fst item = joinElements (pl ++ Name c :: rest))
           (layout E c (joinElements pl)).
Proof.
intros HE. unfold localEnv in HE.
apply andb_true_iff in HE as [HE Hcharts].
apply andb_true_iff in HE as [HE Hschema].
apply andb_true_iff in HE as [Hchartfile Hvalues].
induction c as [raw metadata lock templates schema files deps IH]
  using Chart_tree_ind.
intros Htidy pl Hpl. cbn [tidy] in Htidy.
apply andb_true_iff in Htidy as [Htidy Hdeps].
apply andb_true_iff in Htidy as [Htidy Hfiles].
apply andb_true_iff in Htidy as [Hname Htemplates].
rewrite layout_eq. cbv zeta. unfold Name. cbn [Metadata].
rewrite (Join_prefix_name pl _ Hpl Hname).
set (n := Metadata.Name metadata) in *.
assert (Hentry : forall f (data : bytes),
           noDotDot f = true ->
           exists rest,
             Forall (fun e => realElement e = true) rest
             /\ fst (Join [joinElements (pl ++ [n]); f], data)
                = joinElements (pl ++ n :: rest)).
{ intros f data Hf. by apply inside_Join. }
assert (Hmap : forall fl : list File.t,
           forallb (fun f => noDotDot (File.Name f)) fl = true ->
           Forall (fun item =>
              exists rest,
                Forall (fun e => realElement e = true) rest
                /\ fst item = joinElements (pl ++ n :: rest))
             (map (fun f => (Join [joinElements (pl ++ [n]); File.Name f],
                             File.Data f)) fl)).
{ intros fl Hfl. apply List.Forall_forall. intros item Hin.
  apply in_map_iff in Hin as (f & <- & Hin).
  apply Hentry. rewrite forallb_forall in Hfl. by apply Hfl. }
repeat apply Forall_app_2.
- constructor; [by apply Hentry|constructor].
- destruct lock as [lk|]; [|constructor].
  constructor; [by apply Hentry|constructor].
- apply List.Forall_forall. intros item Hin.
  apply in_flat_map in Hin as (f & _ & Hin).
  destruct (String.eqb _ _); [|done].
  destruct Hin as [<-|[]]. by apply Hentry.
- destruct schema as [sch|]; [|constructor].
  constructor; [by apply Hentry|constructor].
- by apply Hmap.
- by apply Hmap.
- apply List.Forall_forall. intros item Hin.
  apply in_flat_map in Hin as (dep & Hdep & Hin).
  rewrite List.Forall_forall in IH.
  rewrite forallb_forall in Hdeps.
  assert (Hpl' : Forall (fun e => realElement e = true)
                   ((pl ++ [n]) ++ List.filter realElement (elements (ChartsDir E)))).
  { apply Forall_app. split; [|apply filter_real].
    apply Forall_app. split; [done|by constructor]. }
  rewrite Join_under in Hin; [|by destruct pl| |done].
  2:{ apply Forall_app. split; [done|by constructor]. }
  specialize (IH dep Hdep (Hdeps dep Hdep) _ Hpl').
  rewrite List.Forall_forall in IH.
  destruct (IH item Hin) as (rest & Hrest & ->).
  exists (List.filter realElement (elements (ChartsDir E))
            ++ Name dep :: rest)%list.
  split.
  + apply Forall_app. split; [apply filter_real|].
    constructor; [|done].
    by apply tidy_name, Hdeps.
  + by rewrite <- !app_assoc.
Qed.

End Inside.

(** X11. No entry leaves the directory of the chart: when the names of
    the charts of a tree are real path elements, and no name of a
    template or static file and no file name of the environment has a
    [..] element, the path of every entry [writeTarContents] writes
    from the empty prefix is the name of the chart followed by real
    elements; it is relative and has no [..] in it. *)
Theorem writeTarContents_entries_inside E c w tw w'
  (Henv : localEnv E = true)
  (Htidy : tidy c = true)
  (Hrun : writeTarContents E c "" (tar.NewWriter, w) = (inr tt, (tw, w'))) :
  Forall (fun e => inside (Name c) (tar.Name (tar.header e)))
         (tar.stream tw).
Proof.
destruct (writeTarContents_appends E c "" _ _ _ _ _ Hrun)
  as (ts & Hlen & Hst).
rewrite Hst. simpl. rewrite app_nil_r. apply Forall_rev.
pose proof (layout_inside E c Henv Htidy [] (List.Forall_nil _)) as Hall.
simpl in Hall. clear Hst Hrun. revert ts Hlen.
induction Hall as [|item items Hitem _ IH]; intros ts Hlen.
- by destruct ts.
- destruct ts as [|t ts]; [discriminate|]. simpl.
  constructor; [|apply IH; simpl in Hlen; lia].
  destruct Hitem as (rest & Hrest & Hpath). by exists rest.
Qed.

Lemma writeTarContents_entries_inside_witness :
  Forall (fun e => inside (Name appChart) (tar.Name (tar.header e)))
         (tar.stream
            (fst (snd (writeTarContents helmEnv appChart ""
                         (tar.NewWriter, emptyDisk))))).
Proof.
apply (writeTarContents_entries_inside helmEnv appChart emptyDisk _
         (snd (snd (writeTarContents helmEnv appChart ""
                      (tar.NewWriter, emptyDisk)))));
  vm_compute; reflexivity.
Defined.

(* ===================================================================== *)
(** ** More on [SaveDir]                                                  *)
(* ===================================================================== *)

Lemma forM__filter {S A} (p : A -> bool) (body : A -> M S unit) l s :
  forM_ (List.filter p l) (fun x => if p x then body x else ret tt) s
  = forM_ l (fun x => if p x then body x else ret tt) s.
Proof.
revert s. induction l as [|x l IH]; intros s; [done|].
cbn [List.filter]. destruct (p x) eqn:Hp.
- cbn [forM_]. rewrite Hp. unfold bind. destruct (body x s) as [[e|[]] s1]; [done|].
  apply IH.
- cbn [forM_]. rewrite Hp. unfold bind, ret. apply IH.
Qed.

(** X12. Of the raw files of a chart only those named as the values
    file are written, by [SaveDir] and by [writeTarContents] alike, and
    [SaveDir] does not write the lock: without the other raw files, and
    with any lock or none, [SaveDir] does the same; without the other
    raw files [writeTarContents] does the same. *)
Theorem raw_files_and_lock_ignored E c :
  (forall lock dest w,
      SaveDir E (stripped E c lock) dest w = SaveDir E c dest w)
  /\ (forall prefix out,
         writeTarContents E (stripped E c (Lock c)) prefix out
         = writeTarContents E c prefix out).
Proof.
destruct c as [raw metadata lk templates schema files deps].
unfold stripped, valuesOnly.
cbn [Raw Metadata Lock Templates Schema Files dependencies].
split.
- intros lock dest w. unfold SaveDir, Name, Dependencies.
  cbn [Raw Metadata Lock Templates Schema Files dependencies]. cbv zeta.
  apply bind_ext_at. intros _ w1.
  apply bind_ext_at. intros _ w2.
  apply bind_ext_at. intros _ w3.
  apply bind_ext_at. intros _ w4.
  unfold bind at 1 5.
  by rewrite (forM__filter
                (fun f => String.eqb (File.Name f) (ValuesfileName E))).
- intros prefix out. rewrite !writeTarContents_eq. cbv zeta.
  apply bind_ext_at. intros _ o1.
  apply bind_ext_at. intros cdata o2.
  apply bind_ext_at. intros _ o3.
  apply bind_ext_at. intros _ o4.
  unfold bind at 1 5.
  by rewrite (forM__filter
                (fun f => String.eqb (File.Name f) (ValuesfileName E))).
Qed.

Lemma always_keepsDirs_os_WriteFile path data :
  always keepsDirs (os_WriteFile path data).
Proof.
unfold os_WriteFile. cbv zeta.
apply always_bind; [apply _| |].
{ eapply always_weaken; [apply sameDisk_keepsDirs|apply always_fault]. }
intros _. apply always_bind; [apply _| |].
{ eapply always_weaken; [apply sameDisk_keepsDirs|apply always_parentIsDir]. }
intros _ w. unfold bind, gets.
destruct (kindAt w (filepath.Clean path)) as [[|]|] eqn:Hk; simpl.
- done.
- etransitivity; [|apply keepsDirs_record].
  apply keepsDirs_insert_file. by rewrite Hk.
- etransitivity; [|apply keepsDirs_record].
  apply keepsDirs_insert_file. by rewrite Hk.
Qed.

Lemma always_keepsDirs_os_MkdirAll path : always keepsDirs (os_MkdirAll path).
Proof.
eapply always_weaken; [apply madeDirs_keepsDirs|apply always_os_MkdirAll].
Qed.

Lemma always_keepsDirs_writeFile name data :
  always keepsDirs (writeFile name data).
Proof.
unfold writeFile. apply always_bind; [apply _| |].
- apply always_keepsDirs_os_MkdirAll.
- intros _. apply always_keepsDirs_os_WriteFile.
Qed.

Lemma always_keepsDirs_saveDependency E base dep :
  always keepsDirs (saveDependency E base dep).
Proof.
intros w. unfold saveDependency.
pose proof (keepsDirs_Save E dep base w) as H.
by destruct (Save E dep base w) as [[p [err|]] w1].
Qed.

Lemma always_keepsDirs_SaveDir E c dest : always keepsDirs (SaveDir E c dest).
Proof.
unfold SaveDir. cbv zeta.
apply always_bind; [apply _|apply always_check; apply _|]. intros _.
apply always_bind; [apply _| |].
{ intros w. pose proof (always_os_Stat (filepath.Join [dest; Name c]) w) as H.
  apply sameDisk_keepsDirs in H.
  by destruct (os_Stat _ w) as [[e|[|]] w1]. }
intros _. apply always_bind; [apply _|apply always_keepsDirs_os_MkdirAll|].
intros _. apply always_bind; [apply _| |].
{ unfold SaveChartfile.
  apply always_bind; [apply _|apply always_marshalled; apply _|].
  intros out. apply always_keepsDirs_os_WriteFile. }
intros _. apply always_bind; [apply _| |].
{ apply always_forM_; [apply _|]. intros f _.
  destruct (String.eqb _ _);
    [apply always_keepsDirs_writeFile|apply always_ret; apply _]. }
intros _. apply always_bind; [apply _| |].
{ destruct (Schema c);
    [apply always_keepsDirs_writeFile|apply always_ret; apply _]. }
intros _. apply always_bind; [apply _| |].
{ apply always_forM_; [apply _|]. intros o _. apply always_forM_; [apply _|]. intros f _.
  apply always_keepsDirs_writeFile. }
intros _. apply always_forM_; [apply _|]. intros dep _.
apply always_keepsDirs_saveDependency.
Qed.

Lemma os_Stat_ok path w d w1 :
  os_Stat path w = (inr d, w1) ->
  kindAt w1 (filepath.Clean path) = Some d.
Proof.
unfold os_Stat. intros H.
apply bind_inr in H as ([] & w2 & Hf & H).
destruct (String.eqb path ""); [discriminate|].
unfold bind, gets in H.
destruct (kindAt w2 (filepath.Clean path)) as [k|] eqn:Hk; [|discriminate].
by injection H as <- <-.
Qed.

Lemma os_Mkdir_ok path w w1 :
  os_Mkdir path w = (inr tt, w1) ->
  kindAt w1 (filepath.Clean path) = Some true.
Proof.
unfold os_Mkdir. cbv zeta. intros H.
apply bind_inr in H as ([] & w2 & _ & H).
apply bind_inr in H as ([] & w3 & _ & H).
unfold bind, gets, modify in H.
destruct (kindAt w3 (filepath.Clean path)); [discriminate|].
injection H as <-. unfold kindAt. simpl. by rewrite lookup_insert_eq.
Qed.

(** After a success of [os.MkdirAll] the directory is there. *)
Lemma os_MkdirAll_ok path w w1 :
  os_MkdirAll path w = (inr tt, w1) ->
  kindAt w1 (filepath.Clean path) = Some true.
Proof.
unfold os_MkdirAll. cbn [mkdirAllChain].
destruct (os_Stat path w) as [[e|[|]] w0] eqn:Hstat.
- destruct (mkdirAllChain _ w0) as [[e2|[]] w2]; [discriminate|].
  destruct (os_Mkdir path w2) as [[e3|[]] w3] eqn:Hmk.
  + destruct (os_Stat path w3) as [[e4|[|]] w4] eqn:Hstat2;
      try discriminate.
    intros [= <-]. by apply os_Stat_ok in Hstat2.
  + intros [= <-]. by apply os_Mkdir_ok in Hmk.
- intros [= <-]. by apply os_Stat_ok in Hstat.
- discriminate.
Qed.

(** X13. [SaveDir] never removes a directory and never puts a file in
    its place; after a success the directory of the chart is there;
    and when the name of the chart is a real path element, that
    directory is the child of [dest] that has the name of the chart. *)
Theorem SaveDir_directories E c dest w :
  let outdir := filepath.Join [dest; Name c] in
  let r := SaveDir E c dest w in
  (forall q, fs w !! q = Some Directory -> fs (snd r) !! q = Some Directory)
  /\ (fst r = inr tt -> kindAt (snd r) outdir = Some true)
  /\ (realElement (Name c) = true ->
      filepath.Base outdir = Name c
      /\ filepath.Dir outdir = filepath.Clean dest).
Proof.
intros outdir r. split; [apply always_keepsDirs_SaveDir|].
split; [|apply Join_child].
subst r. intros Hok.
destruct (SaveDir E c dest w) as [[e|[]] w'] eqn:Hrun; [discriminate|].
clear Hok. cbn [snd]. unfold SaveDir in Hrun. cbv zeta in Hrun.
fold outdir in Hrun.
apply bind_inr in Hrun as ([] & w1 & Hname & Hrun).
apply bind_inr in Hrun as ([] & w2 & _ & Hrun).
apply bind_inr in Hrun as ([] & w3 & Hmk & Hrun).
apply os_MkdirAll_ok in Hmk.
assert (Hne : outdir <> "").
{ apply Join_nonempty. apply validateName_nonempty.
  by destruct (validateName (Name c)). }
unfold outdir in Hmk at 1. rewrite Join_Clean in Hmk; [|done].
fold outdir in Hmk.
assert (Hkeep : keepsDirs w3 w').
{ assert (Hrest : forall rest : M World unit,
            always keepsDirs rest -> rest w3 = (inr tt, w') ->
            keepsDirs w3 w').
  { intros rest Hal Heq. specialize (Hal w3). by rewrite Heq in Hal. }
  eapply Hrest; [|exact Hrun].
  apply always_bind; [apply _| |].
  { unfold SaveChartfile.
    apply always_bind; [apply _|apply always_marshalled; apply _|].
    intros out. apply always_keepsDirs_os_WriteFile. }
  intros _. apply always_bind; [apply _| |].
  { apply always_forM_; [apply _|]. intros f _.
    destruct (String.eqb _ _);
      [apply always_keepsDirs_writeFile|apply always_ret; apply _]. }
  intros _. apply always_bind; [apply _| |].
  { destruct (Schema c);
      [apply always_keepsDirs_writeFile|apply always_ret; apply _]. }
  intros _. apply always_bind; [apply _| |].
  { apply always_forM_; [apply _|]. intros o _. apply always_forM_; [apply _|]. intros f _.
    apply always_keepsDirs_writeFile. }
  intros _. apply always_forM_; [apply _|]. intros dep _.
  apply always_keepsDirs_saveDependency. }
unfold kindAt in *.
destruct (fs w3 !! outdir) as [[|content]|] eqn:Hat; try discriminate.
by rewrite (Hkeep outdir Hat).
Qed.


Lemma isOsError_isSaveDirError E c dest e :
  isOsError e -> isSaveDirError E c dest e.
Proof. by destruct e. Qed.

Lemma SaveDir_failsOnly E c dest :
  failsOnly (isSaveDirError E c dest) (SaveDir E c dest).
Proof.
assert (Hfile : forall name data,
           failsOnly (isSaveDirError E c dest) (writeFile name data)).
{ intros name data. eapply failsOnly_weaken;
    [apply isOsError_isSaveDirError|apply failsOnly_writeFile]. }
unfold SaveDir. cbv zeta. apply failsOnly_bind.
{ apply failsOnly_check. intros e He.
  pose proof (validateName_error _ _ He) as ->. simpl. split; [done|].
  intros Hb. apply validateName_ok_iff in Hb. congruence. }
intros _. apply failsOnly_bind.
{ intros w e. destruct (os_Stat _ w) as [[e1|[|]] w1]; simpl;
    try discriminate. by intros [= <-]. }
intros _. apply failsOnly_bind.
{ eapply failsOnly_weaken;
    [apply isOsError_isSaveDirError|apply failsOnly_mkdirAllChain]. }
intros _. apply failsOnly_bind.
{ unfold SaveChartfile. apply failsOnly_bind;
    [by apply failsOnly_marshalled|].
  intros out. eapply failsOnly_weaken;
    [apply isOsError_isSaveDirError|apply failsOnly_os_WriteFile]. }
intros _. apply failsOnly_bind.
{ apply failsOnly_forM_. intros f.
  destruct (String.eqb _ _); [apply Hfile|apply failsOnly_ret]. }
intros _. apply failsOnly_bind.
{ destruct (Schema c); [apply Hfile|apply failsOnly_ret]. }
intros _. apply failsOnly_bind.
{ apply failsOnly_forM_. intros o. apply failsOnly_forM_. intros f.
  apply Hfile. }
intros _. apply failsOnly_forM__In. intros dep Hdep w e.
unfold saveDependency.
destruct (Save E dep _ w) as [[p [err|]] w1]; simpl; [|discriminate].
intros [= <-]. simpl. eauto.
Qed.

(** X14. The errors of [SaveDir] are of five kinds and no other: the
    rejection of the name of the chart; [file <outdir> already exists
    and is not a directory]; a metadata document that does not
    serialize; an error of the operating system; and the error of
    [Save] for a dependency of the chart, wrapped as [saving <path of
    the dependency>: ...]. A wrapped error is the wrapping of what
    [Save] has returned for a dependency, in the state [SaveDir] ends
    in. An error of a dependency never comes back bare: an error that
    is not a wrapped one is the error, with the same final state, of
    saving the chart without its dependencies. And the error for a
    schema that is no JSON never comes back from [SaveDir] itself. *)
Theorem SaveDir_errors E c dest w err w'
  (Hfail : SaveDir E c dest w = (inl err, w')) :
  isSaveDirError E c dest err
  /\ err <> MalformedSchema E
  /\ (forall msg cause, err = Wrapped msg cause ->
        exists dep w1 p,
          In dep (Dependencies c)
          /\ msg = "saving " ++ ChartFullPath E dep ++ ": "
          /\ Save E dep
                (filepath.Join [filepath.Join [dest; Name c]; ChartsDir E])
                w1
             = ((p, Some cause), w'))
  /\ ((forall msg cause, err <> Wrapped msg cause) ->
      SaveDir E (withDeps c []) dest w = (inl err, w')).
Proof.
assert (Herr : isSaveDirError E c dest err).
{ apply (SaveDir_failsOnly E c dest w). by rewrite Hfail. }
split; [done|]. split.
{ apply (SaveDir_notMalformedSchema E c dest w). by rewrite Hfail. }
rewrite SaveDir_split in Hfail. unfold bind in Hfail.
pose proof (SaveDir_failsOnly E (withDeps c []) dest w) as Hbare.
destruct (SaveDir E (withDeps c []) dest w) as [[e|[]] w1] eqn:Hfiles.
- injection Hfail as <- <-. split; [|done].
  intros msg cause ->. destruct (Hbare _ eq_refl) as (dep & [] & _).
- apply saveDependencies_failure in Hfail
    as (saved & dep & rest & w0 & p & cause & Hdeps & _ & Hsave & ->).
  split.
  + intros msg cause' [= <- <-]. exists dep, w0, p.
    split; [|done]. rewrite Hdeps. apply in_elt.
  + intros Hno. by destruct (Hno _ _ eq_refl).
Qed.

Lemma SaveDir_errors_witness :
  let err := Wrapped "saving web: " (MalformedSchema helmEnv) in
  exists w',
    SaveDir helmEnv umbrellaChart "/out" emptyDisk = (inl err, w')
    /\ isSaveDirError helmEnv umbrellaChart "/out" err
    /\ err <> MalformedSchema helmEnv
    /\ exists dep w1 p,
         In dep (Dependencies umbrellaChart)
         /\ Save helmEnv dep "/out/umbrella/charts" w1
            = ((p, Some (MalformedSchema helmEnv)), w').
Proof.
cbv zeta.
destruct (SaveDir helmEnv umbrellaChart "/out" emptyDisk) as [res w'] eqn:Hrun.
assert (Hres : res = inl (Wrapped "saving web: " (MalformedSchema helmEnv))).
{ apply (f_equal fst) in Hrun. by vm_compute in Hrun. }
subst res. exists w'. split; [done|].
destruct (SaveDir_errors helmEnv umbrellaChart "/out" emptyDisk _ _ Hrun)
  as (Hkind & Hne & Hdep & _).
split; [done|]. split; [done|].
destruct (Hdep _ _ eq_refl) as (dep & w1 & p & Hin & _ & Hsave).
by exists dep, w1, p.
Defined.

(** X15. What [filepath.Base] returns is a name [validateName]
    accepts, whatever the name it is taken of: a rejected name is
    accepted once [Base] has been applied to it. *)
Theorem validateName_Base n : validateName (filepath.Base n) = None.
Proof.
apply validateName_ok_iff, Base_fixed_iff.
unfold filepath.Base. destruct n as [|c s]; [by right|].
destruct (filepath.lastElement _) as [|c' s'] eqn:Hlast; [by left|].
right. split; [done|]. rewrite <- Hlast. apply lastElement_has_none.
Qed.

(* ===================================================================== *)
(** ** The files [SaveDir] writes                                         *)
(* ===================================================================== *)

Lemma writes_app evs1 evs2 :
  writes (evs1 ++ evs2) = (writes evs1 ++ writes evs2)%list.
Proof.
induction evs1 as [|ev evs1 IH]; [done|].
destruct ev; simpl; by rewrite IH.
Qed.

Lemma writes_mkdirs evs : Forall isMkdir evs -> writes evs = [].
Proof. induction 1 as [|ev evs Hev _ IH]; [done|]. by destruct ev. Qed.

Lemma wrote_ret {A} (a : A) : wrote (ret a) [].
Proof. intros w a' w' [= _ <-]. by rewrite app_nil_r. Qed.

Lemma wrote_bind {A B} (m : M World A) (k : A -> M World B) items1 items2 :
  wrote m items1 -> (forall a, wrote (k a) items2) ->
  wrote (bind m k) (items1 ++ items2).
Proof.
intros Hm Hk w b w' H. apply bind_inr in H as (a & w1 & H1 & H2).
rewrite (Hk a _ _ _ H2), (Hm _ _ _ H1). by rewrite app_assoc.
Qed.

Lemma wrote_forM_ {A} (l : list A) (body : A -> M World unit)
      (items : A -> list (string * bytes)) :
  (forall x, wrote (body x) (items x)) ->
  wrote (forM_ l body) (flat_map items l).
Proof.
intros H. induction l as [|x l IH]; [apply wrote_ret|].
apply (wrote_bind (body x)); [apply H|]. intros _. apply IH.
Qed.

Lemma wrote_sameDisk {A} (m : M World A) :
  always sameDisk m -> wrote m [].
Proof.
intros Hm w a w' H. specialize (Hm w). rewrite H in Hm.
destruct Hm as [_ Htr]. simpl in Htr. by rewrite Htr, app_nil_r.
Qed.

Lemma wrote_madeDirs {A} (m : M World A) :
  always madeDirs m -> wrote m [].
Proof.
intros Hm w a w' H. specialize (Hm w). rewrite H in Hm.
destruct Hm as (_ & _ & evs & Htr & Hevs). simpl in Htr.
by rewrite Htr, writes_app, (writes_mkdirs evs Hevs).
Qed.

Lemma wrote_os_WriteFile path data :
  wrote (os_WriteFile path data) [(filepath.Clean path, data)].
Proof.
intros w a w' H. unfold os_WriteFile in H. cbv zeta in H.
pose proof (always_fault w) as Hf.
apply bind_inr in H as ([] & w1 & H1 & H). rewrite H1 in Hf.
pose proof (always_parentIsDir (filepath.Clean path) w1) as Hp.
apply bind_inr in H as ([] & w2 & H2 & H). rewrite H2 in Hp.
destruct Hf as [_ Hf], Hp as [_ Hp]. simpl in Hf, Hp.
unfold bind, gets, modify in H.
destruct (kindAt w2 (filepath.Clean path)) as [[|]|]; try discriminate;
  injection H as <- <-; simpl; by rewrite writes_app, Hp, Hf.
Qed.

Lemma wrote_writeFile name data :
  name <> "" -> filepath.Clean name = name ->
  wrote (writeFile name data) [(name, data)].
Proof.
intros Hne Hclean. unfold writeFile.
apply (wrote_bind _ _ [] [(name, data)]).
- apply wrote_madeDirs, always_os_MkdirAll.
- intros _. rewrite <- Hclean at 2. apply wrote_os_WriteFile.
Qed.

Lemma wrote_saveDependency E base dep : wrote (saveDependency E base dep) [].
Proof.
intros w a w' H. unfold saveDependency in H.
destruct (Save_run E dep base w)
  as [(msg & Hv & Hs)
     |[(Hv & e & w1 & Hs & Hd & He)
      |[(Hv & e & w1 & w2 & tw & w3 & w4 & Hd & Hw & Hs & Hp & Hk & Ht)
       |(Hv & w1 & w2 & tw & w3 & w4 & Hd & Hw & Hs & Hp & Hk & Ht)]]];
  rewrite Hs in H; try discriminate.
injection H as <- <-. destruct Hd as (_ & _ & evs & Htr & Hevs).
rewrite Ht, Htr, !writes_app, (writes_mkdirs evs Hevs). simpl.
by rewrite !app_nil_r.
Qed.

(** X16. The files a successful [SaveDir] writes, read off the trace of
    the file system: the metadata document at [<outdir>/Chart.yaml],
    then the values files among the raw files, the schema, the
    templates and the static files, each at its name below [outdir]
    with its bytes, in this order and no other file; the archives of
    the dependencies are created, not written as files. *)
Theorem SaveDir_writes E c dest w w'
  (Hok : SaveDir E c dest w = (inr tt, w')) :
  writes (trace w') = (writes (trace w) ++ dirLayout E c dest)%list.
Proof.
assert (Hname : Name c <> "").
{ unfold SaveDir in Hok. apply bind_inr in Hok as ([] & w1 & Hn & _).
  apply validateName_nonempty. by destruct (validateName (Name c)). }
pose proof (Join_nonempty dest (Name c) Hname) as Hout.
assert (Hfile : forall name data,
          wrote (writeFile (filepath.Join [filepath.Join [dest; Name c]; name])
                           data)
                [(filepath.Join [filepath.Join [dest; Name c]; name], data)]).
{ intros name data.
  assert (Hne : filepath.Join [filepath.Join [dest; Name c]; name] <> "")
    by (by apply Join_nonempty_l).
  apply wrote_writeFile; [done|by apply Join_Clean]. }
cut (wrote (SaveDir E c dest) (dirLayout E c dest));
  [intros Hall; exact (Hall w tt w' Hok)|].
clear w w' Hok.
unfold SaveDir, dirLayout. cbv zeta.
apply (wrote_bind _ _ []).
{ intros w a w' H. destruct (validateName _); [discriminate|].
  injection H as _ <-. by rewrite app_nil_r. }
intros _. apply (wrote_bind _ _ []).
{ intros w a w' H.
  pose proof (always_os_Stat (filepath.Join [dest; Name c]) w) as Hs.
  destruct (os_Stat _ w) as [[e|[|]] w1]; try discriminate;
    injection H as _ <-; destruct Hs as [_ Hs]; simpl in Hs;
    by rewrite Hs, app_nil_r. }
intros _. apply (wrote_bind _ _ []).
{ apply wrote_madeDirs, always_os_MkdirAll. }
intros _.
replace (flat_map _ (Raw c) ++ _)%list
  with ((flat_map (fun f =>
           if String.eqb (File.Name f) (ValuesfileName E)
           then [(filepath.Join [filepath.Join [dest; Name c]; ValuesfileName E],
                  File.Data f)]
           else []) (Raw c)
         ++ match Schema c with
            | Some sch =>
                [(filepath.Join [filepath.Join [dest; Name c]; SchemafileName E],
                  sch)]
            | None => []
            end
         ++ (map (fun f => (filepath.Join [filepath.Join [dest; Name c];
                                           File.Name f], File.Data f))
                 (Templates c)
             ++ map (fun f => (filepath.Join [filepath.Join [dest; Name c];
                                              File.Name f], File.Data f))
                    (Files c))
         ++ [])%list)
  by (by rewrite app_nil_r).
apply (wrote_bind _ _ [(_, _)]).
{ unfold SaveChartfile. intros w a w' H.
  apply bind_inr in H as (out & w1 & Hm & H).
  destruct (yamlMarshalMetadata E (Metadata c)) as [msg|doc];
    [discriminate|]. injection Hm as <- <-.
  rewrite (wrote_os_WriteFile _ _ _ _ _ H).
  rewrite Join_Clean; [done|]. by apply Join_nonempty_l. }
intros _. apply wrote_bind.
{ apply wrote_forM_. intros f.
  destruct (String.eqb _ _); [apply Hfile|apply wrote_ret]. }
intros _. apply wrote_bind.
{ destruct (Schema c); [apply Hfile|apply wrote_ret]. }
intros _. apply wrote_bind.
{ replace (map _ (Templates c) ++ map _ (Files c))%list
    with (flat_map (fun o : list File.t =>
            flat_map (fun f => [(filepath.Join [filepath.Join [dest; Name c];
                                                File.Name f], File.Data f)]) o)
            [Templates c; Files c]).
  2:{ simpl. by rewrite app_nil_r, !flat_map_singleton. }
  apply wrote_forM_. intros o. apply wrote_forM_. intros f. apply Hfile. }
intros _.
replace (@nil (string * bytes))
  with (flat_map (fun _ : Chart => @nil (string * bytes)) (Dependencies c)).
2:{ induction (Dependencies c); [done|]. done. }
apply wrote_forM_. intros dep. apply wrote_saveDependency.
Qed.

Lemma SaveDir_writes_witness :
  writes (trace (snd (SaveDir helmEnv appChart "/out" emptyDisk)))
  = (writes (trace emptyDisk) ++ dirLayout helmEnv appChart "/out")%list.
Proof.
apply (SaveDir_writes helmEnv appChart "/out" emptyDisk).
vm_compute. reflexivity.
Defined.

(* ===================================================================== *)
(** ** [Save] and what the disk held                                      *)
(* ===================================================================== *)

(** X17. [Save] does not read the disk: in two worlds that have the
    same kind of node at every path, the same failures ahead and the
    same clock, it returns the same path and the same error, whatever
    the files hold; and when it gets as far as the archive file, it
    leaves the same at the path of the archive, the new archive or
    nothing: an archive that was there is replaced, not added to. *)
Theorem Save_ignores_contents E c outDir w1 w2
  (Hsim : similar w1 w2) :
  let r1 := Save E c outDir w1 in
  let r2 := Save E c outDir w2 in
  fst r1 = fst r2
  /\ similar (snd r1) (snd r2)
  /\ (fst (fst r1) <> "" ->
      fs (snd r1) !! archivePath c outDir
      = fs (snd r2) !! archivePath c outDir).
Proof.
intros r1 r2. subst r1 r2. unfold Save.
destruct (Validate E c) as [msg|]; [done|].
fold (archivePath c outDir). cbv zeta.
destruct (related_run _ _ _ _ _
            (related_ensureDir (filepath.Dir (archivePath c outDir))) Hsim)
  as (r & w1a & w2a & -> & -> & Ha).
destruct r as [e|[]]; [done|].
destruct (related_run _ _ _ _ _
            (related_os_Create (archivePath c outDir)) Ha)
  as (r & w1b & w2b & Hc1 & Hc2 & Hb).
rewrite Hc1, Hc2.
destruct r as [e|f]; [done|].
apply os_Create_ok in Hc1 as (-> & _ & Hk1).
apply os_Create_ok in Hc2 as (_ & _ & Hk2).
rewrite archivePath_Clean in *.
assert (Hout : similarOut (tar.NewWriter, w1b) (tar.NewWriter, w2b))
  by (by split).
pose proof (always_writeTarContents E c "" (tar.NewWriter, w1b)) as Hs1.
pose proof (always_writeTarContents E c "" (tar.NewWriter, w2b)) as Hs2.
destruct (related_run _ _ _ _ _ (related_writeTarContents E c "") Hout)
  as (r & [tw1 w1c] & [tw2 w2c] & Hr1 & Hr2 & [Htw Hc]).
rewrite Hr1 in *. rewrite Hr2 in *.
simpl in Htw, Hc. subst tw2.
destruct Hs1 as [Hfs1 _], Hs2 as [Hfs2 _]. simpl in Hfs1, Hfs2.
assert (Hat1 : exists content,
           fs w1c !! filepath.Clean (archivePath c outDir)
           = Some (Regular content)).
{ rewrite archivePath_Clean, Hfs1. unfold kindAt in Hk1.
  destruct (fs w1b !! _) as [[|content]|]; try discriminate. eauto. }
assert (Hat2 : exists content,
           fs w2c !! filepath.Clean (archivePath c outDir)
           = Some (Regular content)).
{ rewrite archivePath_Clean, Hfs2. unfold kindAt in Hk2.
  destruct (fs w2b !! _) as [[|content]|]; try discriminate. eauto. }
assert (Hdef : forall rollback,
  fs (deferred rollback tw1 (gzip.mkWriter headerBytes "Helm")
        (archivePath c outDir) (archivePath c outDir) w1c)
     !! archivePath c outDir
  = fs (deferred rollback tw1 (gzip.mkWriter headerBytes "Helm")
          (archivePath c outDir) (archivePath c outDir) w2c)
       !! archivePath c outDir).
{ intros rollback.
  pose proof (deferred_run rollback tw1 (gzip.mkWriter headerBytes "Helm")
                (archivePath c outDir) w1c Hat1) as (_ & H1 & _).
  pose proof (deferred_run rollback tw1 (gzip.mkWriter headerBytes "Helm")
                (archivePath c outDir) w2c Hat2) as (_ & H2 & _).
  rewrite archivePath_Clean in H1, H2. by rewrite H1, H2. }
destruct r as [e|[]]; cbn [fst snd].
- split; [done|]. split; [by apply (similar_deferred true)|].
  intros _. apply (Hdef true).
- split; [done|]. split; [by apply (similar_deferred false)|].
  intros _. apply (Hdef false).
Qed.

Lemma Save_ignores_contents_witness :
  let r1 := Save helmEnv appChart "/" (staleDisk (Plain headerBytes)) in
  let r2 := Save helmEnv appChart "/" (staleDisk (Plain [])) in
  fst r1 = fst r2
  /\ similar (snd r1) (snd r2)
  /\ (fst (fst r1) <> "" ->
      fs (snd r1) !! archivePath appChart "/"
      = fs (snd r2) !! archivePath appChart "/").
Proof.
apply (Save_ignores_contents helmEnv appChart "/"
         (staleDisk (Plain headerBytes)) (staleDisk (Plain []))).
split; [reflexivity|]. split; [reflexivity|].
intros q. unfold kindAt, staleDisk, setFs. simpl.
destruct (decide (q = "/app-1.0.0.tgz")) as [->|Hne].
- by rewrite !lookup_insert_eq.
- by rewrite !(lookup_insert_ne _ "/app-1.0.0.tgz" q).
Defined.

(* ===================================================================== *)
(** ** The modification times of the entries                              *)
(* ===================================================================== *)

Lemma always_sameClock_fault : always sameClock fault.
Proof. intros w. unfold fault. by destruct (faults w) as [|[code|] rest]. Qed.

Lemma always_sameClock_WriteHeader h : always sameClockOut (WriteHeader h).
Proof.
unfold WriteHeader.
apply always_bind; [apply _|apply always_gets; apply _|]. intros tw.
apply always_bind; [apply _| |].
{ destruct (tar.stream tw) as [|e es]; [apply always_ret; apply _|].
  destruct (0 <? _)%Z; [apply always_fail|apply always_ret]; apply _. }
intros _. apply always_bind; [apply _| |].
{ apply (always_inWorld sameClock), always_sameClock_fault. }
intros _. apply always_modify. by intros [tw' w].
Qed.

Lemma always_sameClock_Write b : always sameClockOut (Write b).
Proof.
unfold Write.
apply always_bind; [apply _|apply always_gets; apply _|]. intros tw.
destruct (tar.stream tw) as [|e es].
{ destruct b; [apply always_ret|apply always_fail]; apply _. }
cbv zeta. destruct (_ <? _)%Z.
all: apply always_bind; [apply _| |intros _; first [apply always_fail|apply always_ret]; apply _].
all: match goal with |- always _ (match ?l with _ => _ end) => destruct l end;
  [apply always_ret; apply _|].
all: apply always_bind; [apply _| |].
1,3: apply (always_inWorld sameClock), always_sameClock_fault.
all: intros _; apply always_modify; by intros [tw' w].
Qed.

Lemma drop_tl {A} n (l : list A) : drop (S n) l = drop n (tl l).
Proof. destruct l; [by destruct n|done]. Qed.

Lemma stamped_app clock items1 items2 :
  stamped clock (items1 ++ items2)
  = (stamped clock items1
     ++ stamped (drop (length items1) clock) items2)%list.
Proof.
revert clock. induction items1 as [|item items1 IH]; intros clock; [done|].
cbn [app stamped length]. by rewrite IH, drop_tl.
Qed.

Lemma stamps_ret {A} (a : A) : stamps (ret a) [].
Proof. intros tw w a' tw' w' H. by injection H as _ <- <-. Qed.

Lemma stamps_fail {A} e items : stamps (@fail Out A e) items.
Proof. intros tw w a tw' w' H. discriminate. Qed.

Lemma stamps_check err : stamps (check err) [].
Proof. destruct err; [apply stamps_fail|apply stamps_ret]. Qed.

Lemma stamps_marshalled r : stamps (marshalled r) [].
Proof. destruct r; [apply stamps_fail|apply stamps_ret]. Qed.

Lemma stamps_bind {A B} (m : M Out A) (k : A -> M Out B) l1 l2 :
  stamps m l1 ->
  (forall a, returns m a -> stamps (k a) l2) ->
  stamps (bind m k) (l1 ++ l2)%list.
Proof.
intros Hm Hk tw w b tw' w' H.
apply bind_inr in H as (a & [tw1 w1] & H1 & H2).
destruct (Hm _ _ _ _ _ H1) as (Hs1 & Hc1).
assert (Hr : returns m a) by (do 2 eexists; exact H1).
destruct (Hk a Hr _ _ _ _ _ H2) as (Hs2 & Hc2).
split.
- rewrite Hs2, Hs1, Hc1, stamped_app, rev_app_distr, app_assoc. done.
- rewrite Hc2, Hc1, drop_drop, length_app. done.
Qed.

Lemma stamps_bind_nil {A B} (m : M Out A) (k : A -> M Out B) l :
  stamps m [] ->
  (forall a, returns m a -> stamps (k a) l) ->
  stamps (bind m k) l.
Proof. apply (stamps_bind m k [] l). Qed.

Lemma stamps_forM_ {A} (l : list A) (body : A -> M Out unit) g :
  Forall (fun x => stamps (body x) (g x)) l ->
  stamps (forM_ l body) (flat_map g l).
Proof.
induction 1 as [|x l Hx Hl IH]; [apply stamps_ret|].
simpl. apply stamps_bind; [exact Hx|]. intros _ _. exact IH.
Qed.

(** [writeToTar] reads the clock once, for the entry it writes. *)
Lemma stamps_writeToTar name body :
  stamps (writeToTar name body) [(name, body)].
Proof.
intros tw w a tw' w' H. unfold writeToTar, writeToTarOn in H.
apply bind_inr in H as (now & [tw1 w1] & Hnow & H).
assert (Hclock : now = hd 0%Z (clock w) /\ tw1 = tw
                 /\ clock w1 = tl (clock w)).
{ unfold inWorld, time_Now in Hnow.
  destruct (clock w) as [|t rest] eqn:Hcl; by injection Hnow as <- <- <-. }
destruct Hclock as (-> & -> & Hc1).
apply bind_inr in H as ([] & [tw2 w2] & Hh & Hw).
pose proof (always_sameClock_WriteHeader
              (tar.mkHeader (filepath.ToSlashOn filepath.Separator name) 420
                            (Z.of_nat (length body)) (hd 0%Z (clock w)))
              (tw, w1)) as Hc2.
rewrite Hh in Hc2.
pose proof (always_sameClock_Write body (tw2, w2)) as Hc3.
rewrite Hw in Hc3. unfold sameClockOut, sameClock in Hc2, Hc3.
simpl in Hc2, Hc3.
destruct (WriteHeader_run
            (tar.mkHeader (filepath.ToSlashOn filepath.Separator name) 420
                          (Z.of_nat (length body)) (hd 0%Z (clock w)))
            tw w1)
  as [(e & He & _)|[(code & w3 & He & _)|(w3 & He & _)]];
  rewrite He in Hh; try discriminate.
injection Hh as <- <-.
set (h := tar.mkHeader (filepath.ToSlashOn filepath.Separator name) 420
                       (Z.of_nat (length body)) (hd 0%Z (clock w))) in *.
assert (Hcap : (Z.of_nat (length body) <= tar.capacity h)%Z).
{ destruct (capacity_cases h) as [[_ Hcap]|[_ Hcap]]; rewrite Hcap;
    [|simpl; lia].
  destruct body as [|b0 body]; [simpl; lia|].
  rewrite (Write_tooLong h (b0 :: body) (tar.stream tw) w3 Hcap) in Hw;
    [discriminate|done]. }
destruct (Write_run h body (tar.stream tw) w3 Hcap)
  as [(code & w4 & He4 & _)|(w4 & He4 & _)];
  cbv zeta in He4; rewrite He4 in Hw; try discriminate.
injection Hw as <- <-. split; [done|].
rewrite Hc3, Hc2, Hc1. by destruct (clock w).
Qed.

Lemma writeTarContents_stamps E c :
  forall prefix, stamps (writeTarContents E c prefix) (layout E c prefix).
Proof.
induction c as [raw metadata lock templates schema files deps IH]
  using Chart_tree_ind.
intros prefix. rewrite writeTarContents_eq, layout_eq. cbv zeta.
apply stamps_bind_nil; [apply stamps_check|]. intros _ _.
apply stamps_bind_nil; [apply stamps_marshalled|]. intros cdata Hc.
apply returns_marshalled in Hc. rewrite Hc.
change (document (inr cdata)) with cdata.
apply stamps_bind; [apply stamps_writeToTar|]. intros _ _.
apply stamps_bind.
{ destruct lock as [lk|]; [|apply stamps_ret].
  apply stamps_bind_nil; [apply stamps_marshalled|]. intros ldata Hl.
  apply returns_marshalled in Hl. rewrite Hl. apply stamps_writeToTar. }
intros _ _. apply stamps_bind.
{ apply stamps_forM_. apply Forall_forall. intros f _.
  destruct (String.eqb _ _); [apply stamps_writeToTar|apply stamps_ret]. }
intros _ _. apply stamps_bind.
{ destruct schema as [sch|]; [|apply stamps_ret].
  destruct (json.Valid sch); [apply stamps_writeToTar|apply stamps_fail]. }
intros _ _. apply stamps_bind.
{ rewrite <- flat_map_singleton. apply stamps_forM_.
  apply Forall_forall. intros f _. apply stamps_writeToTar. }
intros _ _. apply stamps_bind.
{ rewrite <- flat_map_singleton. apply stamps_forM_.
  apply Forall_forall. intros f _. apply stamps_writeToTar. }
intros _ _. apply stamps_forM_.
eapply Forall_impl; [exact IH|]. intros dep Hdep. apply Hdep.
Qed.

Lemma stamped_times cl items m :
  (length items <= m)%nat ->
  map (fun e => tar.ModTime (tar.header e)) (stamped cl items)
  = take (length items) (cl ++ repeat 0%Z m).
Proof.
revert cl m. induction items as [|item items IH]; intros cl m Hm; [done|].
cbn [stamped map length] in *. destruct cl as [|t cl].
- destruct m as [|m]; [lia|]. cbn [hd tl app repeat take].
  f_equal. rewrite (IH [] m); [done|lia].
- cbn [hd tl app take]. f_equal. apply IH. lia.
Qed.

(** X18. Each entry carries the time read when it was written: a
    successful [writeTarContents] reads the clock once for every entry
    of the layout and for nothing else, and stamps the entries with
    these readings in the order of the layout. *)
Theorem writeTarContents_times E c prefix tw w tw' w'
  (Hrun : writeTarContents E c prefix (tw, w) = (inr tt, (tw', w'))) :
  tar.stream tw'
  = (rev (stamped (clock w) (layout E c prefix)) ++ tar.stream tw)%list
  /\ clock w' = drop (length (layout E c prefix)) (clock w)
  /\ map (fun e => tar.ModTime (tar.header e))
         (stamped (clock w) (layout E c prefix))
     = take (length (layout E c prefix))
            (clock w ++ repeat 0%Z (length (layout E c prefix))).
Proof.
destruct (writeTarContents_stamps E c prefix _ _ _ _ _ Hrun) as [Hs Hc].
split; [done|]. split; [done|].
by apply stamped_times.
Qed.

Lemma writeTarContents_times_witness :
  let r := writeTarContents helmEnv appChart "" (tar.NewWriter, emptyDisk) in
  tar.stream (fst (snd r))
  = (rev (stamped (clock emptyDisk) (layout helmEnv appChart ""))
     ++ tar.stream tar.NewWriter)%list
  /\ clock (snd (snd r))
     = drop (length (layout helmEnv appChart "")) (clock emptyDisk)
  /\ map (fun e => tar.ModTime (tar.header e))
         (stamped (clock emptyDisk) (layout helmEnv appChart ""))
     = take (length (layout helmEnv appChart ""))
            (clock emptyDisk
             ++ repeat 0%Z (length (layout helmEnv appChart ""))).
Proof.
apply (writeTarContents_times helmEnv appChart "" tar.NewWriter emptyDisk).
vm_compute. reflexivity.
Defined.
